(** * A genetic algorithm for the vehicle routing problem

    Shallow embedding of [src/vrp/algorithm/chromosome.py],
    [src/vrp/algorithm/population.py] and [src/vrp/algorithm/genetic.py],
    of [calculate_distance_matrix] of [src/vrp/utils/getData.py] and of
    [draw_routes] of [src/vrp/utils/utils.py].

    Conventions of the embedding:
    - Python [int] is [Z]; list positions are [nat]; a gene is [option Z],
      where [None] is Python's [None] (crossover starts its offspring as
      [[None] * chromosome_length]).
    - Distances are exact integers: sums and comparisons of fitness values
      are exact.  The true division of two integers (the average fitness,
      the improvement printed by a verbose run) and the conversion of an
      integer to a float (the [:.2f] of a verbose run) are those of Python:
      the result is the nearest binary64 number, ties to even, kept as the
      rational it is, and OverflowError is raised beyond the range.
    - A Python exception is a value of [exn]; fallible pure code lives in
      [result], code that also draws random numbers lives in [M].
    - The pseudo-random generator of the [random] module is an explicit
      stream of raw draws, threaded through every operator together with a
      trace of the selection and crossover calls. *)

From Stdlib Require Import ZArith QArith Lia Lqa.
From stdpp Require Import base numbers list list_numbers gmap sets sorting.
From stdpp Require Import strings pretty.

Close Scope Q_scope.
Close Scope Z_scope.

(* ===================================================================== *)
(** * Exceptions and the two monads *)
(* ===================================================================== *)

Inductive exn : Type :=
  | ValueError
  | IndexError
  | TypeError
  | AttributeError
  | ZeroDivisionError
  | OverflowError
  | FuelExhausted.   (* not a Python exception: a bounded loop ran dry *)

Inductive result (A : Type) : Type :=
  | Ok (a : A)
  | Raise (e : exn).
Arguments Ok {A} a.
Arguments Raise {A} e.

Global Instance result_ret : MRet result := λ A a, Ok a.
Global Instance result_bind : MBind result := λ A B k m,
  match m with
  | Ok a => k a
  | Raise e => Raise e
  end.

Definition is_ok {A} (r : result A) : Prop :=
  match r with Ok _ => True | Raise _ => False end.

(* ===================================================================== *)
(** * Python list primitives *)
(* ===================================================================== *)

(** [l[i]] for a Python int [i]: negative indices count from the end,
    anything outside [-len, len) raises IndexError. *)
Definition py_index {A} (l : list A) (i : Z) : result A :=
  let n := Z.of_nat (length l) in
  let j := if (i <? 0)%Z then (i + n)%Z else i in
  if ((0 <=? j) && (j <? n))%Z
  then match l !! Z.to_nat j with
       | Some x => Ok x
       | None => Raise IndexError
       end
  else Raise IndexError.

(** [l[a:b]] for positions [0 <= a], [0 <= b]. *)
Definition py_slice {A} (l : list A) (a b : nat) : list A :=
  take (b - a) (drop a l).

(** [l[:k]] for a Python int [k]: a negative [k] drops [-k] items from the
    end. *)
Definition py_prefix {A} (l : list A) (k : Z) : list A :=
  if (k <? 0)%Z
  then take (Z.to_nat (Z.of_nat (length l) + k)) l
  else take (Z.to_nat k) l.

(** [l[i], l[j] = l[j], l[i]]: the right-hand side is read first, then
    position [i] and position [j] are written in this order. *)
Definition py_swap {A} (l : list A) (i j : nat) : result (list A) :=
  match l !! j, l !! i with
  | Some xj, Some xi => Ok (<[j := xi]> (<[i := xj]> l))
  | _, _ => Raise IndexError
  end.

(* ===================================================================== *)
(** * Python floats *)
(* ===================================================================== *)

(** A finite float is a binary64 number [k * 2^ue] with [k < 2^53] and
    [-1074 <= ue]; it is kept as the rational it is, in lowest terms. *)
Definition float_precision : Z := 53.
Definition float_emin : Z := (-1022)%Z.
Definition float_emax : Z := 1024.

(** The exponent of the quotient of two positive integers: the [e] with
    [2^e <= a / b < 2^(e + 1)]. *)
Definition quotient_exponent (a b : Z) : Z :=
  let e0 := (Z.log2 a - Z.log2 b)%Z in
  if (0 <=? e0)%Z
  then (if (b * 2 ^ e0 <=? a)%Z then e0 else e0 - 1)%Z
  else (if (b <=? a * 2 ^ (- e0))%Z then e0 else e0 - 1)%Z.

(** The integer nearest to [n / d], for [0 <= n] and [0 < d]; of two
    nearest ones, the even one. *)
Definition round_half_even (n d : Z) : Z :=
  let k := (n / d)%Z in
  let r := (n `mod` d)%Z in
  if (2 * r <? d)%Z then k
  else if (d <? 2 * r)%Z then (k + 1)%Z
  else if Z.even k then k else (k + 1)%Z.

(** The quotient of two positive integers rounded to 53 significant bits,
    or to a multiple of [2^-1074] when it is below [2^-1022]: the pair
    [(k, ue)] stands for [k * 2^ue]. *)
Definition round_quotient (a b : Z) : Z * Z :=
  let e := quotient_exponent a b in
  let ue := (Z.max e float_emin - (float_precision - 1))%Z in
  let k := if (0 <=? ue)%Z
           then round_half_even a (b * 2 ^ ue)
           else round_half_even (a * 2 ^ (- ue)) b in
  (k, ue).

Definition float_value (negative : bool) (k ue : Z) : Q :=
  let m := (if negative then - k else k)%Z in
  Qred (if (0 <=? ue)%Z then inject_Z (m * 2 ^ ue)
        else (m # Z.to_pos (2 ^ (- ue)))%Q).

(** [a / b] for two Python ints: the quotient is rounded once, correctly;
    a result beyond the largest float is an OverflowError. *)
Definition py_true_div (a b : Z) : result Q :=
  if (b =? 0)%Z then Raise ZeroDivisionError
  else if (a =? 0)%Z then Ok 0%Q
  else
    let '(k, ue) := round_quotient (Z.abs a) (Z.abs b) in
    if ((0 <=? ue) && (2 ^ float_emax <=? k * 2 ^ ue))%Z
    then Raise OverflowError
    else Ok (float_value (xorb (a <? 0)%Z (b <? 0)%Z) k ue).

(** [float(x)] for a Python int, as [format(x, ".2f")] computes it. *)
Definition py_float (x : Z) : result Q := py_true_div x 1.

(* ===================================================================== *)
(** * Chromosome (chromosome.py) *)
(* ===================================================================== *)

Record Chromosome : Type := mkChromosome {
  num_locations : Z;
  num_vehicles : Z;
  genes : list (option Z);
  fitness : option Z           (* None until calculate_fitness has run *)
}.

Definition depot_index : Z := (-1)%Z.

(** The comparison [delimiter_start <= positions[i] < delimiter_end] of the
    first scan raises TypeError on a gene that is [None]; the scan visits
    every position, so the decoder proper only ever runs on integers. *)
Fixpoint int_genes (gs : list (option Z)) : result (list Z) :=
  match gs with
  | [] => Ok []
  | Some v :: rest => vs ← int_genes rest; Ok (v :: vs)
  | None :: _ => Raise TypeError
  end.

Definition is_delimiter (delimiter_start delimiter_end v : Z) : bool :=
  ((delimiter_start <=? v) && (v <? delimiter_end))%Z.

(** Lines 53-56: the positions [i], from position [i0] on, that hold a
    delimiter. *)
Fixpoint scan_delimiters (delimiter_start delimiter_end : Z) (i0 : nat)
    (positions : list Z) : list nat :=
  match positions with
  | [] => []
  | v :: rest =>
      if is_delimiter delimiter_start delimiter_end v
      then i0 :: scan_delimiters delimiter_start delimiter_end (S i0) rest
      else scan_delimiters delimiter_start delimiter_end (S i0) rest
  end.

(** [loc < self.num_locations] *)
Definition is_location (n : Z) (loc : Z) : Prop := (loc < n)%Z.

Global Instance is_location_dec n loc : Decision (is_location n loc).
Proof. unfold is_location. apply _. Defined.

(** One turn of the loop of lines 66-71; the state is [(routes, start_idx)]. *)
Definition split_step (n : Z) (positions : list Z)
    (st : list (list Z) * nat) (pos : nat) : list (list Z) * nat :=
  let route := py_slice positions (snd st) pos in
  let route := filter (is_location n) route in
  (fst st ++ [route], S pos).

(** Lines 79-83: only non-empty routes are kept, each between two depots. *)
Fixpoint wrap_routes (routes : list (list Z)) : list (list Z) :=
  match routes with
  | [] => []
  | [] :: rest => wrap_routes rest
  | route :: rest => ([depot_index] ++ route ++ [depot_index]) :: wrap_routes rest
  end.

Definition decode (n m : Z) (positions : list Z) : list (list Z) :=
  let delimiter_start := n in
  let delimiter_end := (n + m - 1)%Z in
  let delimiter_positions :=
    merge_sort Nat.le (scan_delimiters delimiter_start delimiter_end 0 positions) in
  let st := foldl (split_step n positions) ([], 0) delimiter_positions in
  let last_route := filter (is_location n) (drop (snd st) positions) in
  wrap_routes (fst st ++ [last_route]).

Definition get_routes (c : Chromosome) : result (list (list Z)) :=
  positions ← int_genes (genes c);
  Ok (decode (num_locations c) (num_vehicles c) positions).

(** Line 105-106: the depot is row/column 0, location [v] is [v + 1]. *)
Definition matrix_index (stop : Z) : Z :=
  if (stop =? depot_index)%Z then 0%Z else (stop + 1)%Z.

(** [distance_matrix[from_idx][to_idx]] *)
Definition matrix_entry (distance_matrix : list (list Z)) (from_idx to_idx : Z)
    : result Z :=
  row ← py_index distance_matrix from_idx;
  py_index row to_idx.

(** The inner loop of lines 103-107, [route_distance] being the running
    sum. *)
Fixpoint route_distance_from (distance_matrix : list (list Z))
    (route_distance : Z) (route : list Z) : result Z :=
  match route with
  | a :: ((b :: _) as rest) =>
      d ← matrix_entry distance_matrix (matrix_index a) (matrix_index b);
      route_distance_from distance_matrix (route_distance + d)%Z rest
  | _ => Ok route_distance
  end.

(** The outer loop of lines 101-109, [total_distance] being the running
    sum. *)
Fixpoint total_distance_from (distance_matrix : list (list Z))
    (total_distance : Z) (routes : list (list Z)) : result Z :=
  match routes with
  | [] => Ok total_distance
  | route :: rest =>
      d ← route_distance_from distance_matrix 0 route;
      total_distance_from distance_matrix (total_distance + d)%Z rest
  end.

(** [calculate_fitness] stores the total on the chromosome and returns it:
    the result is the updated chromosome with the returned value. *)
Definition calculate_fitness (c : Chromosome) (distance_matrix : list (list Z))
    : result (Chromosome * Z) :=
  routes ← get_routes c;
  total_distance ← total_distance_from distance_matrix 0 routes;
  Ok (mkChromosome (num_locations c) (num_vehicles c) (genes c)
                   (Some total_distance), total_distance).


(* ===================================================================== *)
(** * The random source and the monad of the operators *)
(* ===================================================================== *)

(** What the engine did, in order: every call of [selection] with the
    winners it returned, and every call of [crossover] with its parents. *)
Inductive Event : Type :=
  | EvSelection (winners : list Chromosome)
  | EvCrossover (parent1 parent2 : Chromosome).

Record World : Type := mkWorld {
  entropy : nat → N;        (* the raw draws of the generator *)
  cursor : nat;             (* how many draws were consumed *)
  trace : list Event
}.

Definition M (A : Type) : Type := World → result (A * World).

Global Instance M_ret : MRet M := λ A a w, Ok (a, w).
Global Instance M_bind : MBind M := λ A B k m w,
  match m w with
  | Ok (a, w') => k a w'
  | Raise e => Raise e
  end.

Definition throw {A} (e : exn) : M A := λ _, Raise e.

Definition lift {A} (r : result A) : M A := λ w,
  match r with
  | Ok a => Ok (a, w)
  | Raise e => Raise e
  end.

Definition log (ev : Event) : M unit := λ w,
  Ok (tt, mkWorld (entropy w) (cursor w) (trace w ++ [ev])).

Definition draw : M N := λ w,
  Ok (entropy w (cursor w), mkWorld (entropy w) (S (cursor w)) (trace w)).

(** [random._randbelow(n)] for [n > 0]: a position below [n]. *)
Definition randbelow (n : nat) : M nat :=
  d ← draw; mret (N.to_nat (d `mod` N.of_nat n)%N).

(** [random.random()]: a multiple of [2^-53] in [[0, 1)]. *)
Definition random_random : M Q :=
  d ← draw; mret (Z.of_N (d `mod` 2 ^ 53)%N # 2 ^ 53)%Q.

(** [random.sample(range(n), 2)]: ValueError when [n < 2], else two
    distinct positions.  The second pick reads the pool in which the last
    item took the place of the first pick. *)
Definition sample_range_2 (n : nat) : M (nat * nat) :=
  if n <? 2 then throw ValueError
  else
    j1 ← randbelow n;
    j2 ← randbelow (n - 1);
    mret (j1, if j2 =? j1 then n - 1 else j2).

(** [random.sample(l, 2)] *)
Definition sample_2 {A} (l : list A) : M (list A) :=
  '(i, j) ← sample_range_2 (length l);
  a ← lift (py_index l (Z.of_nat i));
  b ← lift (py_index l (Z.of_nat j));
  mret [a; b].

(** [random.choice(l)] *)
Definition random_choice {A} (l : list A) : M A :=
  match l with
  | [] => throw IndexError
  | _ => i ← randbelow (length l); lift (py_index l (Z.of_nat i))
  end.

(** [random.shuffle(x)]:
    [for i in reversed(range(1, len(x))): j = randbelow(i + 1); swap]. *)
Fixpoint shuffle_down {A} (i : nat) (x : list A) : M (list A) :=
  match i with
  | 0 => mret x
  | S i' =>
      j ← randbelow (S i);
      x ← lift (py_swap x i j);
      shuffle_down i' x
  end.

Definition random_shuffle {A} (x : list A) : M (list A) :=
  shuffle_down (length x - 1) x.

(** [for i in range(start, start + count)] over a state, in [result]. *)
Fixpoint for_range {St} (body : nat → St → result St) (start count : nat)
    (s : St) : result St :=
  match count with
  | 0 => Ok s
  | S count' => s' ← body start s; for_range body (S start) count' s'
  end.

(** [l[i] = v] *)
Definition py_store {A} (l : list A) (i : nat) (v : A) : result (list A) :=
  if i <? length l then Ok (<[i := v]> l) else Raise IndexError.

(** [Chromosome.__init__] *)
Definition Chromosome_init (num_locations num_vehicles : Z)
    (genes : option (list (option Z))) : M Chromosome :=
  match genes with
  | None =>
      all_values ← random_shuffle (Some <$> seqZ 0 (num_locations + num_vehicles - 1));
      mret (mkChromosome num_locations num_vehicles all_values None)
  | Some genes => mret (mkChromosome num_locations num_vehicles genes None)
  end.

(* ===================================================================== *)
(** * Crossover and mutation (genetic.py) *)
(* ===================================================================== *)

(** Steps 2a/3a: the middle segment comes from the donor. *)
Definition copy_segment (donor : list (option Z)) (point1 point2 : nat)
    (offspring_genes : list (option Z)) : result (list (option Z)) :=
  for_range (λ i off, v ← py_index donor (Z.of_nat i); py_store off i v)
            point1 (point2 - point1) offspring_genes.

(** The inner [while] of steps 2c/3c: advance [parent_index] over the
    values already used.  Every turn moves the index, so
    [chromosome_length] turns of fuel are enough. *)
Fixpoint skip_used (filler : list (option Z)) (chromosome_length : nat)
    (used_values : gset (option Z)) (fuel parent_index : nat) : result nat :=
  if negb (parent_index <? chromosome_length) then Ok parent_index
  else
    v ← py_index filler (Z.of_nat parent_index);
    if bool_decide (v ∈ used_values)
    then match fuel with
         | 0 => Raise FuelExhausted
         | S fuel' =>
             skip_used filler chromosome_length used_values fuel' (S parent_index)
         end
    else Ok parent_index.

Record fill_state : Type := mkFill {
  fs_genes : list (option Z);
  fs_used : gset (option Z);
  fs_index : nat
}.

(** One turn of the [for] of steps 2c/3c. *)
Definition fill_step (filler : list (option Z))
    (chromosome_length point1 point2 : nat) (i : nat) (st : fill_state)
    : result fill_state :=
  if (point1 <=? i) && (i <? point2) then Ok st
  else
    parent_index ← skip_used filler chromosome_length (fs_used st)
                             chromosome_length (fs_index st);
    if parent_index <? chromosome_length
    then
      v ← py_index filler (Z.of_nat parent_index);
      off ← py_store (fs_genes st) i v;
      Ok (mkFill off ({[v]} ∪ fs_used st) (S parent_index))
    else Ok (mkFill (fs_genes st) (fs_used st) parent_index).

(** Steps 2 and 3 are the same code with the parents exchanged: the middle
    segment of [donor], the other positions filled from [filler]. *)
Definition offspring_genes (chromosome_length point1 point2 : nat)
    (donor filler : list (option Z)) : result (list (option Z)) :=
  let offspring := replicate chromosome_length None in
  offspring ← copy_segment donor point1 point2 offspring;
  let used_values : gset (option Z) :=
    list_to_set (py_slice offspring point1 point2) in
  st ← for_range (fill_step filler chromosome_length point1 point2)
                 0 chromosome_length (mkFill offspring used_values 0);
  Ok (fs_genes st).

Definition crossover (parent1 parent2 : Chromosome)
    : M (Chromosome * Chromosome) :=
  _ ← log (EvCrossover parent1 parent2);
  let chromosome_length := length (genes parent1) in
  '(a, b) ← sample_range_2 chromosome_length;
  let point1 := a `min` b in
  let point2 := a `max` b in
  offspring1_genes ← lift (offspring_genes chromosome_length point1 point2
                                           (genes parent2) (genes parent1));
  offspring2_genes ← lift (offspring_genes chromosome_length point1 point2
                                           (genes parent1) (genes parent2));
  offspring1 ← Chromosome_init (num_locations parent1) (num_vehicles parent1)
                               (Some offspring1_genes);
  offspring2 ← Chromosome_init (num_locations parent1) (num_vehicles parent1)
                               (Some offspring2_genes);
  mret (offspring1, offspring2).

Definition mutate (chromosome : Chromosome) : M Chromosome :=
  let mutated_genes := genes chromosome in
  let chromosome_length := length mutated_genes in
  '(pos1, pos2) ← sample_range_2 chromosome_length;
  mutated_genes ← lift (py_swap mutated_genes pos1 pos2);
  Chromosome_init (num_locations chromosome) (num_vehicles chromosome)
                  (Some mutated_genes).

(* ===================================================================== *)
(** * Population (population.py) *)
(* ===================================================================== *)

Record Population : Type := mkPopulation {
  pop_size : Z;
  pop_num_locations : Z;
  pop_num_vehicles : Z;
  distance_matrix : list (list Z);
  chromosomes : list Chromosome
}.

(** [initialize_population]: [count] turns of the loop still to run. *)
Fixpoint initialize_population (n m : Z) (dm : list (list Z)) (count : nat)
    (chromosomes : list Chromosome) : M (list Chromosome) :=
  match count with
  | 0 => mret chromosomes
  | S count' =>
      chromosome ← Chromosome_init n m None;
      r ← lift (calculate_fitness chromosome dm);
      initialize_population n m dm count' (chromosomes ++ [fst r])
  end.

(** [Population.__init__] *)
Definition Population_init (pop_size num_locations num_vehicles : Z)
    (distance_matrix : list (list Z)) : M Population :=
  chromosomes ← initialize_population num_locations num_vehicles distance_matrix
                                      (Z.to_nat pop_size) [];
  mret (mkPopulation pop_size num_locations num_vehicles distance_matrix
                     chromosomes).

(** [sorted(l, key=lambda x: x.fitness)]: the sort is stable and compares
    keys with [<]; with two items or more every key takes part in a
    comparison, and comparing [None] raises TypeError. *)
Definition fitness_key (c : Chromosome) : Z := default 0%Z (fitness c).

Fixpoint insert_by_fitness (x : Chromosome) (l : list Chromosome)
    : list Chromosome :=
  match l with
  | [] => [x]
  | y :: l' =>
      if (fitness_key y <? fitness_key x)%Z
      then y :: insert_by_fitness x l'
      else x :: y :: l'
  end.

Definition has_no_fitness (c : Chromosome) : bool :=
  match fitness c with None => true | Some _ => false end.

Definition sorted_by_fitness (l : list Chromosome) : result (list Chromosome) :=
  if (2 <=? length l) && existsb has_no_fitness l then Raise TypeError
  else Ok (foldr insert_by_fitness [] l).

(** [find_best_chromosome]: Python's [None] for an empty population. *)
Definition find_best_chromosome (p : Population) : result (option Chromosome) :=
  match chromosomes p with
  | [] => Ok None
  | _ =>
      sorted_chromosomes ← sorted_by_fitness (chromosomes p);
      Ok (head sorted_chromosomes)
  end.

(** [sum(chrom.fitness for chrom in l)], from the running total [acc]. *)
Fixpoint sum_fitness (acc : Z) (l : list Chromosome) : result Z :=
  match l with
  | [] => Ok acc
  | c :: rest =>
      match fitness c with
      | Some f => sum_fitness (acc + f)%Z rest
      | None => Raise TypeError
      end
  end.

(** [get_average_fitness]: 0 for an empty population, else the sum of the
    fitness values, an exact integer, divided by their number with [/]: a
    float, or OverflowError. *)
Definition get_average_fitness (p : Population) : result Q :=
  match chromosomes p with
  | [] => Ok 0%Q
  | _ =>
      total_fitness ← sum_fitness 0 (chromosomes p);
      py_true_div total_fitness (Z.of_nat (length (chromosomes p)))
  end.

(* ===================================================================== *)
(** * The engine (genetic.py) *)
(* ===================================================================== *)

Record Genetic : Type := mkGenetic {
  population : Population;
  max_generations : Z;
  mutation_rate : Q;
  elitism_size : Z;
  current_generation : Z;
  best_solution : Chromosome;
  best_fitness_history : list (option Z);
  avg_fitness_history : list Q
}.

(** [Genetic.__init__]: [best_chrom.fitness] on the [None] of an empty
    population raises AttributeError. *)
Definition Genetic_init (population : Population) (max_generations : Z)
    (mutation_rate : Q) (elitism_size : Z) : result Genetic :=
  best_chrom ← find_best_chromosome population;
  match best_chrom with
  | None => Raise AttributeError
  | Some best_chrom =>
      avg ← get_average_fitness population;
      Ok (mkGenetic population max_generations mutation_rate elitism_size 0
                    best_chrom [fitness best_chrom] [avg])
  end.

(** [a <= b] and [a < b] on fitness values: TypeError on [None]. *)
Definition py_le (a b : option Z) : result bool :=
  match a, b with
  | Some x, Some y => Ok (x <=? y)%Z
  | _, _ => Raise TypeError
  end.

Definition py_lt (a b : option Z) : result bool :=
  match a, b with
  | Some x, Some y => Ok (x <? y)%Z
  | _, _ => Raise TypeError
  end.

Definition select_count : nat := 2.

(** The [while] of [selection]; every turn adds one winner. *)
Fixpoint selection_loop (p : Population) (fuel : nat)
    (selected : list Chromosome) : M (list Chromosome) :=
  if negb (length selected <? select_count) then mret selected
  else
    match fuel with
    | 0 => throw FuelExhausted
    | S fuel' =>
        contenders ← sample_2 (chromosomes p);
        c0 ← lift (py_index contenders 0);
        c1 ← lift (py_index contenders 1);
        le ← lift (py_le (fitness c0) (fitness c1));
        let winner := if le : bool then c0 else c1 in
        selection_loop p fuel' (selected ++ [winner])
    end.

Definition selection (g : Genetic) : M (list Chromosome) :=
  selected ← selection_loop (population g) select_count [];
  _ ← log (EvSelection selected);
  mret selected.

(** Lines 214-218 and 222-226: mutate with probability [mutation_rate],
    evaluate, append. *)
Definition add_offspring (g : Genetic) (offspring : Chromosome)
    (new_population : list Chromosome) : M (list Chromosome) :=
  r ← random_random;
  offspring ← (if Qlt_le_dec r (mutation_rate g) then mutate offspring
               else mret offspring);
  e ← lift (calculate_fitness offspring (distance_matrix (population g)));
  mret (new_population ++ [fst e]).

(** One turn of the reproduction loop; [None] stands for [break]. *)
Definition reproduce (g : Genetic) (new_population : list Chromosome)
    : M (option (list Chromosome)) :=
  selected ← selection g;
  if length selected <? 2 then mret None
  else
    parent1 ← random_choice selected;
    parent2 ← random_choice selected;
    '(offspring1, offspring2) ← crossover parent1 parent2;
    new_population ← add_offspring g offspring1 new_population;
    if (Z.of_nat (length new_population) <? pop_size (population g))%Z
    then
      new_population ← add_offspring g offspring2 new_population;
      mret (Some new_population)
    else mret (Some new_population).

(** The [while] of [create_next_generation]. *)
Fixpoint reproduction_loop (g : Genetic) (fuel : nat)
    (new_population : list Chromosome) : M (list Chromosome) :=
  if negb (Z.of_nat (length new_population) <? pop_size (population g))%Z
  then mret new_population
  else
    match fuel with
    | 0 => throw FuelExhausted
    | S fuel' =>
        r ← reproduce g new_population;
        match r with
        | None => mret new_population
        | Some new_population => reproduction_loop g fuel' new_population
        end
    end.

Definition set_chromosomes (p : Population) (cs : list Chromosome) : Population :=
  mkPopulation (pop_size p) (pop_num_locations p) (pop_num_vehicles p)
               (distance_matrix p) cs.

Definition create_next_generation (g : Genetic) : M Genetic :=
  sorted_chromosomes ← lift (sorted_by_fitness (chromosomes (population g)));
  let new_population := py_prefix sorted_chromosomes (elitism_size g) in
  new_population ← reproduction_loop g (Z.to_nat (pop_size (population g)))
                                     new_population;
  let population' := set_chromosomes (population g) new_population in
  current_best ← lift (find_best_chromosome population');
  match current_best with
  | None => throw AttributeError
  | Some current_best =>
      better ← lift (py_lt (fitness current_best) (fitness (best_solution g)));
      let best_solution' :=
        if better : bool then current_best else best_solution g in
      avg ← lift (get_average_fitness population');
      mret (mkGenetic population' (max_generations g) (mutation_rate g)
                      (elitism_size g) (current_generation g + 1)
                      best_solution'
                      (best_fitness_history g ++ [fitness current_best])
                      (avg_fitness_history g ++ [avg]))
  end.

(** [f"{x:.2f}"] for a fitness: [None] cannot be formatted, and an
    integer is converted to a float first. *)
Definition format_2f (x : option Z) : result unit :=
  match x with
  | None => Raise TypeError
  | Some v => _ ← py_float v; Ok tt
  end.

(** What [run] prints every tenth generation when [verbose]: the best
    fitness is formatted, then the average is computed. *)
Definition report (g : Genetic) : result unit :=
  current_best ← find_best_chromosome (population g);
  match current_best with
  | None => Raise AttributeError
  | Some current_best =>
      _ ← format_2f (fitness current_best);
      _ ← get_average_fitness (population g);
      Ok tt
  end.

(** The evolution loop of [run]: generations [generation],
    [generation + 1], ... *)
Fixpoint evolve (verbose : bool) (generation : Z) (count : nat) (g : Genetic)
    : M Genetic :=
  match count with
  | 0 => mret g
  | S count' =>
      g ← create_next_generation g;
      _ ← lift (if verbose && (generation `mod` 10 =? 0)%Z then report g
                else Ok tt);
      evolve verbose (generation + 1) count' g
  end.

(** The summary printed by [run] when [verbose]: it divides by the first
    entry of the history, then formats that entry and the final best
    fitness. *)
Definition summary (g : Genetic) : result unit :=
  match fitness (best_solution g), best_fitness_history g with
  | _, [] => Raise IndexError
  | Some fb, Some f0 :: _ =>
      _ ← py_true_div fb f0;
      _ ← py_float f0;
      _ ← py_float fb;
      Ok tt
  | _, _ => Raise TypeError
  end.

(** [run]: the engine after the run; the value returned is its
    [best_solution]. *)
Definition run (verbose : bool) (g : Genetic) : M Genetic :=
  _ ← lift (if verbose then format_2f (fitness (best_solution g))
            else Ok tt);
  g ← evolve verbose 1 (Z.to_nat (max_generations g)) g;
  _ ← lift (if verbose then summary g else Ok tt);
  mret g.

(** [get_progress]: the dictionary it returns, as a record.  Only the
    average can fail to be computed. *)
Record Progress : Type := mkProgress {
  pr_current_generation : Z;
  pr_max_generations : Z;
  pr_best_fitness : option Z;
  pr_average_fitness : Q;
  pr_best_fitness_history : list (option Z);
  pr_avg_fitness_history : list Q
}.

Definition get_progress (g : Genetic) : result Progress :=
  average_fitness ← get_average_fitness (population g);
  Ok (mkProgress (current_generation g) (max_generations g)
                 (fitness (best_solution g)) average_fitness
                 (best_fitness_history g) (avg_fitness_history g)).

(* ===================================================================== *)
(** * The distance matrix (getData.py) *)
(* ===================================================================== *)

(** [dm[i][j] = d]: the row is read, then written in place. *)
Definition set_entry {D} (dm : list (list D)) (i j : nat) (d : D)
    : result (list (list D)) :=
  row ← py_index dm (Z.of_nat i);
  row ← py_store row j d;
  py_store dm i row.

(** The body of the two loops of [calculate_distance_matrix].  The
    distance of two points is computed by [geopy], which rejects
    coordinates that are not on the globe: [geodesic] is a fallible
    function of the two points. *)
Definition distance_step {L D} (geodesic : L → L → result D)
    (locations : list L) (i j : nat) (dm : list (list D))
    : result (list (list D)) :=
  if negb (i =? j)
  then
    a ← py_index locations (Z.of_nat i);
    b ← py_index locations (Z.of_nat j);
    d ← geodesic a b;
    set_entry dm i j d
  else Ok dm.

(** [GetData.calculate_distance_matrix]: the matrix starts as [n] fresh
    rows of [n] zeros. *)
Definition calculate_distance_matrix {L D} (zero : D)
    (geodesic : L → L → result D) (locations : list L)
    : result (list (list D)) :=
  let n := length locations in
  let distance_matrix := replicate n (replicate n zero) in
  for_range (λ i dm, for_range (distance_step geodesic locations i) 0 n dm)
            0 n distance_matrix.

(* ===================================================================== *)
(** * Drawing the routes (utils.py) *)
(* ===================================================================== *)

(** What [folium.PolyLine(...).add_to(map_obj)] adds to the map. *)
Record PolyLine (L : Type) : Type := mkPolyLine {
  pl_locations : list L;
  pl_color : string;
  pl_weight : Z;
  pl_opacity : Q;
  pl_tooltip : string
}.

Arguments mkPolyLine {L}.
Arguments pl_locations {L}.
Arguments pl_color {L}.
Arguments pl_weight {L}.
Arguments pl_opacity {L}.
Arguments pl_tooltip {L}.

Definition colors : list string :=
  ["red"; "blue"; "green"; "purple"; "orange"; "darkred";
   "darkblue"; "darkgreen"; "cadetblue"; "darkpurple";
   "pink"; "lightblue"; "lightgreen"; "gray"; "black"]%string.

(** The inner loop of [draw_routes]: the point and the label of every
    stop, [-1] being the depot at [locations[0]] and location [v] being
    [locations[v + 1]]. *)
Fixpoint route_stops {L} (locations : list L) (route : list Z)
    (route_points : list L) (route_debug : list string)
    : result (list L * list string) :=
  match route with
  | [] => Ok (route_points, route_debug)
  | loc_idx :: rest =>
      if (loc_idx =? -1)%Z
      then
        actual_loc ← py_index locations 0;
        route_stops locations rest (route_points ++ [actual_loc])
                    (route_debug ++ ["D"%string])
      else
        actual_loc ← py_index locations (loc_idx + 1);
        route_stops locations rest (route_points ++ [actual_loc])
                    (route_debug ++ [pretty loc_idx])
  end.

(** One turn of the outer loop: route number [i] of the enumeration. *)
Definition draw_route {L} (locations : list L) (i : nat) (route : list Z)
    (map_obj : list (PolyLine L)) : result (list (PolyLine L)) :=
  route_color ← py_index colors (Z.of_nat i `mod` Z.of_nat (length colors));
  '(route_points, route_debug) ← route_stops locations route [] [];
  if 2 <=? length route_points
  then Ok (map_obj ++
           [mkPolyLine route_points route_color 4 (7 # 10)%Q
              ("Route " +:+ pretty (Z.of_nat i + 1)%Z +:+ ": "
               +:+ String.concat " → " route_debug)%string])
  else Ok map_obj.

(** [draw_routes], from route number [i] on; the map is the list of the
    lines added to it. *)
Fixpoint draw_routes_from {L} (locations : list L) (i : nat)
    (routes : list (list Z)) (map_obj : list (PolyLine L))
    : result (list (PolyLine L)) :=
  match routes with
  | [] => Ok map_obj
  | route :: rest =>
      map_obj ← draw_route locations i route map_obj;
      draw_routes_from locations (S i) rest map_obj
  end.

Definition draw_routes {L} (map_obj : list (PolyLine L)) (locations : list L)
    (routes : list (list Z)) : result (list (PolyLine L)) :=
  draw_routes_from locations 0 routes map_obj.

(* ===================================================================== *)
(** * Properties stated about the code, and the inputs of the examples *)
(* ===================================================================== *)

(** The two constructors in the order a caller runs them:
    [population = Population(...)], then [Genetic(population, ...)]. *)
Definition construct (pop_size num_locations num_vehicles : Z)
    (distance_matrix : list (list Z)) (max_generations : Z)
    (mutation_rate : Q) (elitism_size : Z) : M Genetic :=
  population ← Population_init pop_size num_locations num_vehicles
                               distance_matrix;
  lift (Genetic_init population max_generations mutation_rate elitism_size).

(** The customers served by a list of decoded routes: every stop that is
    not the depot, in order. *)
Definition stops (routes : list (list Z)) : list Z :=
  filter (λ v, v ≠ depot_index) (concat routes).

(** The genes are the values [0 .. n-1], each once. *)
Definition permutation_genes (n : Z) (gs : list (option Z)) : Prop :=
  gs ≡ₚ Some <$> seqZ 0 n.

(** Every customer [0 .. num_locations-1] is served exactly once by the
    decoded routes, and nothing else is. *)
Definition visits_every_customer_once (c : Chromosome) : Prop :=
  ∃ routes, get_routes c = Ok routes ∧ stops routes ≡ₚ seqZ 0 (num_locations c).

(** The operator left the log of selection and crossover calls alone. *)
Definition same_trace (w w' : World) : Prop := trace w' = trace w.

(** How many positions below [i] lie outside the middle segment
    [point1, point2). *)
Definition outside_below (point1 point2 i : nat) : nat :=
  i - (i `min` point2 - i `min` point1).

(** The positions of an offspring that hold their final value when the
    fill loop of steps 2c/3c reaches position [i]: the middle segment and
    everything below [i]. *)
Definition filled (L point1 point2 i j : nat) : Prop :=
  j < L ∧ (point1 ≤ j < point2 ∨ j < i).

(** The state of the fill loop before position [i]: the filled positions
    hold distinct values, all of them in [used_values] and all of them
    values of the filler parent, which was consumed up to [fs_index]. *)
Definition fill_inv (filler : list (option Z)) (L point1 point2 i : nat)
    (st : fill_state) : Prop :=
  length (fs_genes st) = L ∧
  (∀ j, filled L point1 point2 i j →
        ∃ v, fs_genes st !! j = Some v ∧ v ∈ fs_used st) ∧
  (∀ j1 j2 v, filled L point1 point2 i j1 → filled L point1 point2 i j2 →
     fs_genes st !! j1 = Some v → fs_genes st !! j2 = Some v → j1 = j2) ∧
  size (fs_used st) = (point2 - point1) + outside_below point1 point2 i ∧
  (∀ v, v ∈ fs_used st → v ∈ filler) ∧
  fs_index st ≤ L ∧
  (∀ j, j < fs_index st → ∃ v, filler !! j = Some v ∧ v ∈ fs_used st).

(** A chromosome over [n] locations and [m] vehicles whose genes are the
    values [0 .. n+m-2], each once. *)
Definition well_formed (n m : Z) (c : Chromosome) : Prop :=
  num_locations c = n ∧ num_vehicles c = m ∧
  permutation_genes (n + m - 1) (genes c).

(** The matrix has an entry for every pair of indices below [k]. *)
Definition covers (dm : list (list Z)) (k : Z) : Prop :=
  ∀ i j, (0 ≤ i < k)%Z → (0 ≤ j < k)%Z → ∃ d, matrix_entry dm i j = Ok d.

(** A decoded route: a non-empty run of genes between two depots. *)
Definition wrapped (P : Z → Prop) (route : list Z) : Prop :=
  ∃ r, route = [depot_index] ++ r ++ [depot_index] ∧ r ≠ [] ∧ Forall P r.

(** The cached fitness of [c] is what [calculate_fitness] returns for it. *)
Definition evaluated (dm : list (list Z)) (c : Chromosome) : Prop :=
  ∃ t, fitness c = Some t ∧
       calculate_fitness c dm
       = Ok (mkChromosome (num_locations c) (num_vehicles c) (genes c) (Some t), t).

(** Order of the stable sort: by fitness, ascending. *)
Definition fitness_le (a b : Chromosome) : Prop :=
  (fitness_key a ≤ fitness_key b)%Z.

(** The fitness of [c] is computed and no chromosome of [cs] has a lower
    one. *)
Definition at_most_all (c : Chromosome) (cs : list Chromosome) : Prop :=
  ∃ f, fitness c = Some f ∧
       ∀ c', c' ∈ cs → ∃ f', fitness c' = Some f' ∧ (f ≤ f')%Z.

(** [s] won a binary tournament over [pop]: it met a rival drawn from
    another position, and its fitness is not above the rival's. *)
Definition tournament_winner (pop : list Chromosome) (s : Chromosome) : Prop :=
  ∃ i j rival fs fr,
    i ≠ j ∧ pop !! i = Some s ∧ pop !! j = Some rival ∧
    fitness s = Some fs ∧ fitness rival = Some fr ∧ (fs ≤ fr)%Z.

(** [c] is the offspring [o] as it enters the next generation: its genes,
    unchanged or with the genes at two different positions exchanged by a
    mutation, with the fitness they have under [dm]. *)
Definition offspring_of (dm : list (list Z)) (o c : Chromosome) : Prop :=
  evaluated dm c ∧ num_locations c = num_locations o ∧
  num_vehicles c = num_vehicles o ∧
  (genes c = genes o ∨
   ∃ pos1 pos2, pos1 ≠ pos2 ∧ py_swap (genes o) pos1 pos2 = Ok (genes c)).

(** What one turn of the reproduction loop did, call by call, from the
    random source [w] to the random source [w']: one selection of two
    tournament winners, two parents drawn from the winners, one crossover
    of these parents, and its first offspring appended, then its second
    when a slot is left. *)
Definition round_outcome (g : Genetic) (new_population : list Chromosome)
    (w : World) (r : option (list Chromosome)) (w' : World) : Prop :=
  ∃ s1 s2 parent1 parent2 o1 o2 c1 w1 w2 w3 w4 w5,
    selection g w = Ok ([s1; s2], w1) ∧
    random_choice [s1; s2] w1 = Ok (parent1, w2) ∧
    random_choice [s1; s2] w2 = Ok (parent2, w3) ∧
    crossover parent1 parent2 w3 = Ok ((o1, o2), w4) ∧
    add_offspring g o1 new_population w4 = Ok (new_population ++ [c1], w5) ∧
    tournament_winner (chromosomes (population g)) s1 ∧
    tournament_winner (chromosomes (population g)) s2 ∧
    parent1 ∈ [s1; s2] ∧ parent2 ∈ [s1; s2] ∧
    trace w' = trace w ++ [EvSelection [s1; s2]; EvCrossover parent1 parent2] ∧
    offspring_of (distance_matrix (population g)) o1 c1 ∧
    ((r = Some (new_population ++ [c1]) ∧ w' = w5 ∧
      (pop_size (population g) ≤ Z.of_nat (length new_population) + 1)%Z) ∨
     (∃ c2, r = Some (new_population ++ [c1; c2]) ∧
            add_offspring g o2 (new_population ++ [c1]) w5
            = Ok (new_population ++ [c1; c2], w') ∧
            (Z.of_nat (length new_population) + 1 < pop_size (population g))%Z ∧
            offspring_of (distance_matrix (population g)) o2 c2)).

(** What one generation advance did to the engine. *)
Definition step_spec (g g' : Genetic) : Prop :=
  ∃ sorted extra current_best avg fb fc,
    sorted_by_fitness (chromosomes (population g)) = Ok sorted ∧
    chromosomes (population g') = py_prefix sorted (elitism_size g) ++ extra ∧
    Forall (evaluated (distance_matrix (population g))) extra ∧
    ((Z.of_nat (length (py_prefix sorted (elitism_size g)))
      ≤ pop_size (population g))%Z →
     Z.of_nat (length (chromosomes (population g'))) = pop_size (population g)) ∧
    population g' = set_chromosomes (population g) (chromosomes (population g')) ∧
    max_generations g' = max_generations g ∧
    mutation_rate g' = mutation_rate g ∧
    elitism_size g' = elitism_size g ∧
    current_generation g' = (current_generation g + 1)%Z ∧
    current_best ∈ chromosomes (population g') ∧
    at_most_all current_best (chromosomes (population g')) ∧
    fitness (best_solution g) = Some fb ∧
    fitness current_best = Some fc ∧
    best_solution g' = (if (fc <? fb)%Z then current_best else best_solution g) ∧
    best_fitness_history g' = best_fitness_history g ++ [Some fc] ∧
    avg_fitness_history g' = avg_fitness_history g ++ [avg].

(** The population size an engine runs with. *)
Definition engine_pop_size (g : Genetic) : Z := pop_size (population g).

(** Integers up to this bound convert to a float, and so does every
    average of integers up to this bound. *)
Definition float_safe_bound : Z := (2 ^ 1023)%Z.

Definition in_float_range (f : Z) : Prop := (Z.abs f ≤ float_safe_bound)%Z.

(** A float holds every integer of at most 53 bits exactly. *)
Definition holds_exactly (f : Z) : Prop := (Z.abs f ≤ 2 ^ 53)%Z.

(** The fitness of [c] is set and converts to a float. *)
Definition fitness_in_range (c : Chromosome) : Prop :=
  ∃ f, fitness c = Some f ∧ in_float_range f.

(** The entries of the matrix are small enough for the length of every
    tour of a chromosome over [n] locations and [m] vehicles to convert to
    a float: a tour has at most two hops per gene. *)
Definition small_matrix (n m : Z) (dm : list (list Z)) : Prop :=
  Forall (Forall (λ d, (Z.abs d * (2 * Z.max 0 (n + m - 1))
                        ≤ float_safe_bound)%Z)) dm.

(** An engine in working order over [n] locations and [m] vehicles: at
    least two genes per chromosome, a matrix over the depot and all
    locations with entries small enough for every fitness to convert to
    a float, at least two chromosomes, every chromosome a permutation
    with a fitness in the range of the floats, and an incumbent with such
    a fitness. *)
Definition healthy (n m : Z) (g : Genetic) : Prop :=
  (2 ≤ n + m - 1)%Z ∧
  covers (distance_matrix (population g)) (n + 1) ∧
  small_matrix n m (distance_matrix (population g)) ∧
  (2 ≤ pop_size (population g))%Z ∧
  2 ≤ length (chromosomes (population g)) ∧
  Forall (λ c, well_formed n m c ∧ fitness_in_range c)
         (chromosomes (population g)) ∧
  fitness_in_range (best_solution g).

(** The result is not the running dry of a bounded loop of the model. *)
Definition never_dry_r {A} (r : result A) : Prop := r ≠ Raise FuelExhausted.

Definition never_dry {A} (m : M A) : Prop := ∀ w, m w ≠ Raise FuelExhausted.

(** [k] generation advances lead from engine [g] to engine [g']. *)
Inductive generations : nat → Genetic → Genetic → Prop :=
  | generations_O (g : Genetic) : generations 0 g g
  | generations_S (k : nat) (g g1 g' : Genetic) :
      step_spec g g1 → generations k g1 g' → generations (S k) g g'.

(** A random source, a distance matrix over a depot and five customers and
    the chromosome of the decoding scenario. *)
Definition sample_entropy (i : nat) : N :=
  let k := N.of_nat i in
  N.shiftr (((k + 1) * (k + 3) * 6364136223846793005
             + k * 1442695040888963407 + 11400714819323198485)
            `mod` 2 ^ 64) 11.

(** The sample source after [k] draws, with an empty log. *)
Definition sample_world_at (k : nat) : World := mkWorld sample_entropy k [].

Definition sample_world : World := sample_world_at 0.

Definition sample_matrix : list (list Z) :=
  [ [0; 2; 5; 4; 7; 3];
    [2; 0; 3; 6; 2; 8];
    [2; 3; 0; 4; 5; 6];
    [4; 6; 4; 0; 1; 5];
    [7; 2; 5; 1; 0; 1];
    [3; 8; 6; 5; 1; 0] ]%Z.

Definition scenario_chromosome : Chromosome :=
  mkChromosome 5 2 (Some <$> [0; 1; 5; 2; 3; 4]%Z) None.

(** Two more parents over the same 5 locations and 2 vehicles. *)
Definition parent_a : Chromosome :=
  mkChromosome 5 2 (Some <$> [4; 1; 2; 3; 0; 5]%Z) None.

Definition parent_b : Chromosome :=
  mkChromosome 5 2 (Some <$> [2; 5; 4; 1; 0; 3]%Z) None.

(** The population that [Population_init 4 5 2 sample_matrix] builds from
    [sample_world], and the engine built on it. *)
Definition chromosome_1 : Chromosome :=
  mkChromosome 5 2 (Some <$> [4; 0; 5; 2; 3; 1]%Z) (Some 25%Z).
Definition chromosome_2 : Chromosome :=
  mkChromosome 5 2 (Some <$> [2; 5; 4; 0; 1; 3]%Z) (Some 34%Z).
Definition chromosome_3 : Chromosome :=
  mkChromosome 5 2 (Some <$> [5; 3; 4; 1; 2; 0]%Z) (Some 26%Z).
Definition chromosome_4 : Chromosome :=
  mkChromosome 5 2 (Some <$> [0; 4; 5; 1; 3; 2]%Z) (Some 28%Z).

Definition sample_population : Population :=
  mkPopulation 4 5 2 sample_matrix
               [chromosome_1; chromosome_2; chromosome_3; chromosome_4].

Definition sample_engine : Genetic :=
  mkGenetic sample_population 3 (1 # 10)%Q 1 0 chromosome_1
            [Some 25%Z] [(113 # 4)%Q].

(** A world as seen from outside: how far the source was read, and the
    log. *)
Definition observe {A} (r : result (A * World))
    : result (A * nat * list Event) :=
  match r with
  | Ok (a, w) => Ok (a, cursor w, trace w)
  | Raise e => Raise e
  end.

(** Every entry of the matrix is a distance: none is negative. *)
Definition nonneg_matrix (dm : list (list Z)) : Prop :=
  Forall (Forall (λ d, (0 ≤ d)%Z)) dm.

(** The values of [filler] that are not in [segment], in the order of
    [filler]: [[v for v in filler if v not in segment]]. *)
Definition fill_values (segment filler : list (option Z)) : list (option Z) :=
  filter (λ v, v ∉ segment) filler.

(** Order crossover as one expression: the segment [point1, point2) of
    the donor stays in place, the other positions take, from left to
    right, the values of the filler that the segment does not hold. *)
Definition order_crossover (point1 point2 : nat)
    (donor filler : list (option Z)) : list (option Z) :=
  let segment := py_slice donor point1 point2 in
  let fill := fill_values segment filler in
  take point1 fill ++ segment ++ drop point1 fill.

(** The state of the fill loop before position [i], in terms of the
    result: the values used are those of the segment and of the part of
    the filler already read, and the positions filled so far hold the
    fill values in order. *)
Definition order_inv (donor filler : list (option Z)) (point1 point2 i : nat)
    (st : fill_state) : Prop :=
  let segment := py_slice donor point1 point2 in
  (∀ v, v ∈ fs_used st ↔ v ∈ segment ∨ v ∈ take (fs_index st) filler) ∧
  length (fill_values segment (take (fs_index st) filler))
  = outside_below point1 point2 i ∧
  (∀ j, j < i → ¬ (point1 ≤ j < point2) →
        fs_genes st !! j
        = fill_values segment filler !! outside_below point1 point2 j) ∧
  (∀ j, point1 ≤ j < point2 → fs_genes st !! j = donor !! j).

(** An engine over the matrix [dm] in which every chromosome and the
    incumbent are permutations that carry the fitness the matrix gives
    them. *)
Definition sound (n m : Z) (dm : list (list Z)) (g : Genetic) : Prop :=
  distance_matrix (population g) = dm ∧
  Forall (λ c, well_formed n m c ∧ evaluated dm c)
         (chromosomes (population g)) ∧
  well_formed n m (best_solution g) ∧ evaluated dm (best_solution g).

(** The fitness of the incumbent is the least entry of the history of
    best values. *)
Definition incumbent_is_minimum (g : Genetic) : Prop :=
  ∃ f, fitness (best_solution g) = Some f ∧
       Some f ∈ best_fitness_history g ∧
       Forall (λ h, ∃ x, h = Some x ∧ (f ≤ x)%Z) (best_fitness_history g).

(** The two histories describe the same populations: entry by entry the
    average is at least the best value when a float holds the best value
    exactly, and the last entries are the best and the average of the
    current population. *)
Definition histories_coherent (g : Genetic) : Prop :=
  Forall2 (λ b a, ∃ x, b = Some x ∧ (holds_exactly x → (inject_Z x <= a)%Q))
          (best_fitness_history g) (avg_fitness_history g) ∧
  ∃ current_best avg,
    find_best_chromosome (population g) = Ok (Some current_best) ∧
    get_average_fitness (population g) = Ok avg ∧
    last (best_fitness_history g) = Some (fitness current_best) ∧
    last (avg_fitness_history g) = Some avg.

(** The parameters of the engine [g'] are those of [g], and [k]
    generations were counted in between. *)
Definition same_parameters (k : nat) (g g' : Genetic) : Prop :=
  current_generation g' = (current_generation g + Z.of_nat k)%Z ∧
  max_generations g' = max_generations g ∧
  mutation_rate g' = mutation_rate g ∧
  elitism_size g' = elitism_size g ∧
  pop_size (population g') = pop_size (population g) ∧
  pop_num_locations (population g') = pop_num_locations (population g) ∧
  pop_num_vehicles (population g') = pop_num_vehicles (population g) ∧
  distance_matrix (population g') = distance_matrix (population g).

(** What entry [(i, j)] of the distance matrix of [locations] has to be:
    zero on the diagonal, the distance of the two points elsewhere. *)
Definition entry_ok {L D} (zero : D) (geodesic : L → L → result D)
    (locations : list L) (i j : nat) (d : D) : Prop :=
  if decide (i = j) then d = zero
  else ∃ a b, locations !! i = Some a ∧ locations !! j = Some b ∧
              geodesic a b = Ok d.

(** The state of the two loops of [calculate_distance_matrix] before cell
    [(i, j)]: an [n] by [n] matrix whose cells before [(i, j)], row by
    row, are final and whose other cells are still zero. *)
Definition matrix_inv {L D} (zero : D) (geodesic : L → L → result D)
    (locations : list L) (i j : nat) (dm : list (list D)) : Prop :=
  length dm = length locations ∧
  ∀ i' j', i' < length locations → j' < length locations →
    ∃ row d, dm !! i' = Some row ∧ length row = length locations ∧
             row !! j' = Some d ∧
             if decide (i' < i ∨ (i' = i ∧ j' < j))
             then entry_ok zero geodesic locations i' j' d
             else d = zero.

(** A stand-in for the distance of two points of the plane, and a depot
    with five points. *)
Definition grid_distance (a b : Z * Z) : result Z :=
  Ok (Z.abs (fst a - fst b) + Z.abs (snd a - snd b))%Z.

Definition sample_locations : list (Z * Z) :=
  [(0, 0); (3, 4); (-2, 1); (5, -1); (1, 6); (-4, -3)]%Z.

(** The point of a stop of a route: the depot is [locations[0]], location
    [v] is [locations[v + 1]], as in the distance matrix. *)
Definition stop_location {L} (locations : list L) (stop : Z) : option L :=
  locations !! Z.to_nat (matrix_index stop).

(** The number of hops of a list of routes: one less than the number of
    stops of each. *)
Definition hops (routes : list (list Z)) : nat :=
  foldr (λ route k, (length route - 1) + k) 0 routes.

(* ===================================================================== *)
(** * Reasoning about the monads *)
(* ===================================================================== *)

Lemma rbind_ok {A B} (m : result A) (k : A → result B) (b : B) :
  m ≫= k = Ok b → ∃ a, m = Ok a ∧ k a = Ok b.
Proof. destruct m as [a|e]; simpl; [eauto | discriminate]. Qed.

Lemma mbind_ok {A B} (m : M A) (k : A → M B) (w w' : World) (b : B) :
  (m ≫= k) w = Ok (b, w') → ∃ a w1, m w = Ok (a, w1) ∧ k a w1 = Ok (b, w').
Proof.
  unfold mbind, M_bind. destruct (m w) as [[a w1]|e]; [eauto | discriminate].
Qed.

Lemma mbind_run {A B} (m : M A) (k : A → M B) (w w1 : World) (a : A) :
  m w = Ok (a, w1) → (m ≫= k) w = k a w1.
Proof. unfold mbind, M_bind. by intros ->. Qed.

Lemma mbind_raise {A B} (m : M A) (k : A → M B) (w : World) (e : exn) :
  m w = Raise e → (m ≫= k) w = Raise e.
Proof. unfold mbind, M_bind. by intros ->. Qed.

Lemma lift_ok {A} (r : result A) (w w' : World) (a : A) :
  lift r w = Ok (a, w') → r = Ok a ∧ w' = w.
Proof. unfold lift. destruct r; intros [= <- <-] || discriminate. done. Qed.

Lemma mbind_lift {A B} (r : result A) (a : A) (k : A → M B) (w : World) :
  r = Ok a → (lift r ≫= k) w = k a w.
Proof. intros ->. reflexivity. Qed.

Lemma mret_ok {A} (a b : A) (w w' : World) :
  mret (M := M) a w = Ok (b, w') → b = a ∧ w' = w.
Proof. by intros [= <- <-]. Qed.

(* ===================================================================== *)
(** * Floats *)
(* ===================================================================== *)

(** A true division fails on a zero divisor or beyond the range. *)
Lemma py_true_div_raise (a b : Z) (e : exn) :
  py_true_div a b = Raise e →
  (e = ZeroDivisionError ∧ b = 0%Z) ∨ (e = OverflowError ∧ b ≠ 0%Z).
Proof.
  unfold py_true_div. destruct (Z.eqb_spec b 0) as [->|Hb].
  { intros [= <-]. by left. }
  destruct (a =? 0)%Z; [discriminate|].
  destruct (round_quotient _ _) as [k ue].
  destruct (_ && _); [|discriminate]. intros [= <-]. by right.
Qed.

Lemma round_half_even_le (n d M : Z) :
  (0 < d)%Z → (0 ≤ n)%Z → (n ≤ M * d)%Z → (round_half_even n d ≤ M)%Z.
Proof.
  intros Hd Hn HM. unfold round_half_even.
  pose proof (Z.div_mod n d ltac:(lia)) as Hdm.
  pose proof (Z.mod_pos_bound n d Hd) as Hr.
  set (k := (n / d)%Z) in *. set (r := (n `mod` d)%Z) in *.
  assert (Hk : (k ≤ M)%Z) by nia.
  destruct (Z.ltb_spec (2 * r) d); [done|].
  assert (k < M)%Z by nia.
  destruct (Z.ltb_spec d (2 * r)); [lia|].
  destruct (Z.even k); lia.
Qed.

Lemma quotient_exponent_le (a b : Z) :
  (quotient_exponent a b ≤ Z.log2 a - Z.log2 b)%Z.
Proof.
  unfold quotient_exponent.
  destruct (0 <=? _)%Z; [destruct (_ <=? _)%Z | destruct (_ <=? _)%Z]; lia.
Qed.

Lemma round_half_even_ge (n d M : Z) :
  (0 < d)%Z → (M * d ≤ n)%Z → (M ≤ round_half_even n d)%Z.
Proof.
  intros Hd HM. unfold round_half_even.
  pose proof (Z.div_mod n d ltac:(lia)) as Hdm.
  pose proof (Z.mod_pos_bound n d Hd) as Hr.
  set (k := (n / d)%Z) in *. set (r := (n `mod` d)%Z) in *.
  assert (Hk : (M ≤ k)%Z) by nia.
  destruct (Z.ltb_spec (2 * r) d); [done|].
  destruct (Z.ltb_spec d (2 * r)); [lia|].
  destruct (Z.even k); lia.
Qed.

(** The exponent of a quotient is that of a power of two below it. *)
Lemma quotient_exponent_below (a b : Z) :
  (0 < a)%Z → (0 < b)%Z → (0 ≤ quotient_exponent a b)%Z →
  (b * 2 ^ quotient_exponent a b ≤ a)%Z.
Proof.
  intros Ha Hb. unfold quotient_exponent.
  pose proof (Z.log2_spec a Ha) as [Hla _].
  pose proof (Z.log2_spec b Hb) as [_ Hlb].
  pose proof (Z.log2_nonneg a). pose proof (Z.log2_nonneg b).
  set (e0 := (Z.log2 a - Z.log2 b)%Z) in *.
  destruct (Z.leb_spec 0 e0) as [He0|He0].
  - destruct (Z.leb_spec (b * 2 ^ e0) a) as [Hle|Hgt]; [done|].
    intros He.
    assert (Hpow : (2 ^ Z.log2 a = 2 ^ (Z.log2 b + 1) * 2 ^ (e0 - 1))%Z).
    { rewrite <- Z.pow_add_r by lia. f_equal. lia. }
    assert (0 < 2 ^ (e0 - 1))%Z by (apply Z.pow_pos_nonneg; lia).
    rewrite <- Z.add_1_r in Hlb. nia.
  - destruct (_ <=? _)%Z; lia.
Qed.

Lemma float_value_pos (k ue : Z) :
  (float_value false k ue ==
   if (0 <=? ue)%Z then inject_Z (k * 2 ^ ue) else k # Z.to_pos (2 ^ (- ue)))%Q.
Proof. unfold float_value. apply Qred_correct. Qed.

Lemma float_value_neg (k ue : Z) :
  (float_value true k ue == - float_value false k ue)%Q.
Proof.
  unfold float_value. rewrite !Qred_correct.
  destruct (0 <=? ue)%Z.
  - unfold Qeq, Qopp, inject_Z. cbn. lia.
  - unfold Qeq, Qopp. cbn. lia.
Qed.

(** Rounding a positive quotient does not go below an integer of at most
    53 bits that is at most the quotient. *)
Lemma round_quotient_lower (a b lo k ue : Z) :
  (0 < a)%Z → (0 < b)%Z → (0 ≤ lo ≤ 2 ^ 53)%Z → (lo * b ≤ a)%Z →
  round_quotient a b = (k, ue) →
  (inject_Z lo <= float_value false k ue)%Q.
Proof.
  intros Ha Hb Hlo Hlob. unfold round_quotient.
  set (e := quotient_exponent a b).
  set (ue' := (Z.max e float_emin - (float_precision - 1))%Z).
  intros [= <- <-].
  rewrite float_value_pos.
  destruct (Z.leb_spec 0 ue') as [Hue|Hue].
  - assert (He : (e = ue' + 52)%Z)
      by (unfold ue', float_emin, float_precision in *; lia).
    pose proof (quotient_exponent_below a b Ha Hb ltac:(fold e; lia)) as Hbelow.
    fold e in Hbelow. rewrite He, Z.pow_add_r in Hbelow by lia.
    assert (Hs : (0 < 2 ^ ue')%Z) by (apply Z.pow_pos_nonneg; lia).
    assert (Hk : (2 ^ 52 ≤ round_half_even a (b * 2 ^ ue'))%Z).
    { apply round_half_even_ge; [nia | lia]. }
    rewrite <- Zle_Qle.
    destruct (decide (ue' = 0%Z)) as [Hz|Hnz].
    + rewrite Hz, Z.mul_1_r. rewrite Hz, Z.mul_1_r in Hk.
      apply round_half_even_ge; [lia|]. change (2 ^ 0)%Z with 1%Z. lia.
    + assert (2 ^ 1 ≤ 2 ^ ue')%Z by (apply Z.pow_le_mono_r; lia).
      change (2 ^ 53)%Z with (2 ^ 52 * 2 ^ 1)%Z in Hlo. nia.
  - set (s := (2 ^ (- ue'))%Z).
    assert (Hs : (0 < s)%Z) by (apply Z.pow_pos_nonneg; lia).
    assert (Hk1 : (lo * s ≤ round_half_even (a * s) b)%Z).
    { apply round_half_even_ge; [done|]. nia. }
    unfold Qle, inject_Z. cbn [Qnum Qden].
    rewrite Z2Pos.id by done. lia.
Qed.

(** Nor above an integer of at most 53 bits that is at least the
    quotient. *)
Lemma round_quotient_upper (a b hi k ue : Z) :
  (0 < a)%Z → (0 < b)%Z → (0 ≤ hi ≤ 2 ^ 53)%Z → (a ≤ hi * b)%Z →
  round_quotient a b = (k, ue) →
  (float_value false k ue <= inject_Z hi)%Q.
Proof.
  intros Ha Hb Hhi Hhib. unfold round_quotient.
  set (e := quotient_exponent a b).
  set (ue' := (Z.max e float_emin - (float_precision - 1))%Z).
  intros [= <- <-].
  rewrite float_value_pos.
  destruct (Z.leb_spec 0 ue') as [Hue|Hue].
  - destruct (decide (ue' = 0%Z)) as [Hz|Hnz].
    { rewrite Hz, Z.mul_1_r. rewrite <- Zle_Qle.
      apply round_half_even_le; [|lia|]; change (2 ^ 0)%Z with 1%Z; lia. }
    assert (He : (53 ≤ e)%Z)
      by (unfold ue', float_emin, float_precision in Hue, Hnz; lia).
    pose proof (quotient_exponent_below a b Ha Hb ltac:(fold e; lia)) as Hbelow.
    fold e in Hbelow.
    assert (Hp : (2 ^ 53 ≤ 2 ^ e)%Z) by (apply Z.pow_le_mono_r; lia).
    assert (Hhi' : hi = (2 ^ 53)%Z) by nia.
    assert (He' : e = 53%Z).
    { destruct (decide (e = 53%Z)) as [|Hne]; [done|]. exfalso.
      assert (2 ^ 54 ≤ 2 ^ e)%Z by (apply Z.pow_le_mono_r; lia).
      assert (2 ^ 53 < 2 ^ 54)%Z by (apply Z.pow_lt_mono_r; lia). nia. }
    assert (Hue' : ue' = 1%Z) by (unfold ue', float_emin, float_precision; lia).
    rewrite Hue'.
    assert (Hk : (round_half_even a (b * 2 ^ 1) ≤ 2 ^ 52)%Z).
    { apply round_half_even_le; [lia | lia |]. rewrite Hhi' in Hhib.
      change (2 ^ 53)%Z with (2 ^ 52 * 2)%Z in Hhib.
      change (2 ^ 1)%Z with 2%Z. lia. }
    rewrite Hhi'. rewrite <- Zle_Qle.
    change (2 ^ 53)%Z with (2 ^ 52 * 2 ^ 1)%Z. lia.
  - set (s := (2 ^ (- ue'))%Z).
    assert (Hs : (0 < s)%Z) by (apply Z.pow_pos_nonneg; lia).
    assert (Hk2 : (round_half_even (a * s) b ≤ hi * s)%Z).
    { apply round_half_even_le; [done | nia | nia]. }
    unfold Qle, inject_Z. cbn [Qnum Qden].
    rewrite Z2Pos.id by done. lia.
Qed.

(** The float quotient of an integer by a positive integer is not below
    an integer of at most 53 bits that is at most the exact quotient, nor
    above one that is at least the exact quotient. *)
Lemma py_true_div_lower (a b lo : Z) (q : Q) :
  (0 < b)%Z → (Z.abs lo ≤ 2 ^ 53)%Z → (lo * b ≤ a)%Z →
  py_true_div a b = Ok q → (inject_Z lo <= q)%Q.
Proof.
  intros Hb Hlo Hlob. unfold py_true_div.
  destruct (Z.eqb_spec b 0) as [|_]; [lia|].
  destruct (Z.eqb_spec a 0) as [->|Ha].
  { intros [= <-]. change 0%Q with (inject_Z 0). rewrite <- Zle_Qle. nia. }
  destruct (round_quotient (Z.abs a) (Z.abs b)) as [k ue] eqn:Hround.
  destruct (_ && _); [discriminate|]. intros [= <-].
  replace (b <? 0)%Z with false by (symmetry; apply Z.ltb_ge; lia).
  rewrite (Z.abs_eq b) in Hround by lia.
  assert (Hnonneg : (inject_Z 0 <= float_value false k ue)%Q).
  { apply (round_quotient_lower (Z.abs a) b 0 k ue); [lia | lia | lia | lia | done]. }
  change (inject_Z 0) with 0%Q in Hnonneg.
  destruct (Z.ltb_spec a 0) as [Hneg|Hpos]; cbn [xorb].
  - rewrite float_value_neg. rewrite Z.abs_neq in Hround by lia.
    assert (Hup : (float_value false k ue <= inject_Z (- lo))%Q).
    { apply (round_quotient_upper (- a) b (- lo) k ue);
        [lia | lia | split; [nia | lia] | lia | done]. }
    rewrite inject_Z_opp in Hup. lra.
  - rewrite Z.abs_eq in Hround by lia.
    destruct (decide (0 ≤ lo)%Z) as [Hl|Hl].
    + apply (round_quotient_lower a b lo k ue); [lia | lia | lia | lia | done].
    + assert (inject_Z lo <= 0)%Q
        by (change 0%Q with (inject_Z 0); rewrite <- Zle_Qle; lia).
      lra.
Qed.

Lemma py_true_div_upper (a b hi : Z) (q : Q) :
  (0 < b)%Z → (Z.abs hi ≤ 2 ^ 53)%Z → (a ≤ hi * b)%Z →
  py_true_div a b = Ok q → (q <= inject_Z hi)%Q.
Proof.
  intros Hb Hhi Hhib. unfold py_true_div.
  destruct (Z.eqb_spec b 0) as [|_]; [lia|].
  destruct (Z.eqb_spec a 0) as [->|Ha].
  { intros [= <-]. change 0%Q with (inject_Z 0). rewrite <- Zle_Qle. nia. }
  destruct (round_quotient (Z.abs a) (Z.abs b)) as [k ue] eqn:Hround.
  destruct (_ && _); [discriminate|]. intros [= <-].
  replace (b <? 0)%Z with false by (symmetry; apply Z.ltb_ge; lia).
  rewrite (Z.abs_eq b) in Hround by lia.
  assert (Hnonneg : (inject_Z 0 <= float_value false k ue)%Q).
  { apply (round_quotient_lower (Z.abs a) b 0 k ue); [lia | lia | lia | lia | done]. }
  change (inject_Z 0) with 0%Q in Hnonneg.
  destruct (Z.ltb_spec a 0) as [Hneg|Hpos]; cbn [xorb].
  - rewrite float_value_neg. rewrite Z.abs_neq in Hround by lia.
    destruct (decide (0 ≤ hi)%Z) as [Hh|Hh].
    + assert (0 <= inject_Z hi)%Q
        by (change 0%Q with (inject_Z 0); by rewrite <- Zle_Qle).
      lra.
    + assert (Hlow : (inject_Z (- hi) <= float_value false k ue)%Q).
      { apply (round_quotient_lower (- a) b (- hi) k ue);
          [lia | lia | lia | lia | done]. }
      rewrite inject_Z_opp in Hlow. lra.
  - rewrite Z.abs_eq in Hround by lia.
    apply (round_quotient_upper a b hi k ue);
      [lia | lia | split; [nia | lia] | lia | done].
Qed.

(** A quotient of magnitude at most [2^1023] is within the range. *)
Lemma py_true_div_safe (a b : Z) :
  b ≠ 0%Z → (Z.abs a ≤ float_safe_bound * Z.abs b)%Z →
  ∃ q, py_true_div a b = Ok q.
Proof.
  intros Hb Hbound. unfold py_true_div.
  destruct (Z.eqb_spec b 0) as [|_]; [done|].
  destruct (Z.eqb_spec a 0) as [|Ha]; [by eexists|].
  unfold round_quotient.
  set (A := Z.abs a) in *. set (B := Z.abs b) in *.
  assert (HA : (0 < A)%Z) by (unfold A; lia).
  assert (HB : (0 < B)%Z) by (unfold B; lia).
  set (e := quotient_exponent A B).
  set (ue := (Z.max e float_emin - (float_precision - 1))%Z).
  assert (He : (e ≤ 1023)%Z).
  { pose proof (quotient_exponent_le A B) as Hle. fold e in Hle.
    assert (Z.log2 A ≤ 1023 + Z.log2 B)%Z; [|lia].
    rewrite <- (Z.log2_mul_pow2 B 1023) by lia.
    apply Z.log2_le_mono. unfold float_safe_bound in Hbound. lia. }
  destruct (Z.leb_spec 0 ue) as [Hue|Hue]; cbn [andb]; [|by eexists].
  destruct (Z.leb_spec (2 ^ float_emax) (round_half_even A (B * 2 ^ ue) * 2 ^ ue))
    as [Hover|_]; [|by eexists].
  exfalso.
  assert (Hue' : (ue ≤ 971)%Z) by (unfold ue, float_emin, float_precision; lia).
  assert (Hpow : (0 < 2 ^ ue)%Z) by (apply Z.pow_pos_nonneg; lia).
  assert (Hk : (round_half_even A (B * 2 ^ ue) ≤ 2 ^ (1023 - ue))%Z).
  { apply round_half_even_le; [nia | lia |].
    replace (2 ^ (1023 - ue) * (B * 2 ^ ue))%Z with (2 ^ 1023 * B)%Z; [done|].
    replace (2 ^ 1023)%Z with (2 ^ (1023 - ue) * 2 ^ ue)%Z; [ring|].
    rewrite <- Z.pow_add_r by lia. f_equal. lia. }
  assert (Hval : (round_half_even A (B * 2 ^ ue) * 2 ^ ue ≤ 2 ^ 1023)%Z).
  { replace (2 ^ 1023)%Z with (2 ^ (1023 - ue) * 2 ^ ue)%Z.
    - apply Z.mul_le_mono_nonneg_r; lia.
    - rewrite <- Z.pow_add_r by lia. f_equal. lia. }
  unfold float_emax in Hover.
  assert (2 ^ 1023 < 2 ^ 1024)%Z by (apply Z.pow_lt_mono_r; lia).
  lia.
Qed.

Lemma py_float_safe (x : Z) : in_float_range x → ∃ q, py_float x = Ok q.
Proof.
  intros Hx. apply py_true_div_safe; [done|]. unfold in_float_range in Hx.
  change (Z.abs 1) with 1%Z. lia.
Qed.

(* ===================================================================== *)
(** * Decoding and fitness *)
(* ===================================================================== *)

(** C2: the chromosome [0,1,5,2,3,4] over 5 locations and 2 vehicles decodes
    to the routes [-1,0,1,-1] and [-1,2,3,4,-1], and over any distance matrix
    with the seven stated entries its fitness is 16. *)
Theorem C2_scenario_routes_and_fitness (dm : list (list Z)) :
  matrix_entry dm 0 1 = Ok 2%Z →
  matrix_entry dm 1 2 = Ok 3%Z →
  matrix_entry dm 2 0 = Ok 2%Z →
  matrix_entry dm 0 3 = Ok 4%Z →
  matrix_entry dm 3 4 = Ok 1%Z →
  matrix_entry dm 4 5 = Ok 1%Z →
  matrix_entry dm 5 0 = Ok 3%Z →
  get_routes scenario_chromosome = Ok [[-1; 0; 1; -1]; [-1; 2; 3; 4; -1]]%Z ∧
  ∃ c', calculate_fitness scenario_chromosome dm = Ok (c', 16%Z) ∧
        fitness c' = Some 16%Z ∧ genes c' = genes scenario_chromosome.
Proof.
  intros H01 H12 H20 H03 H34 H45 H50.
  split; [reflexivity|].
  eexists. unfold calculate_fitness.
  change (get_routes scenario_chromosome)
    with (Ok (A := list (list Z)) [[-1; 0; 1; -1]; [-1; 2; 3; 4; -1]]%Z).
  cbn [mbind result_bind total_distance_from route_distance_from].
  change (matrix_index (-1)) with 0%Z. change (matrix_index 0) with 1%Z.
  change (matrix_index 1) with 2%Z. change (matrix_index 2) with 3%Z.
  change (matrix_index 3) with 4%Z. change (matrix_index 4) with 5%Z.
  rewrite H01, H12, H20, H03, H34, H45, H50. cbn.
  split; [reflexivity | split; reflexivity].
Qed.

Lemma C2_scenario_witness :
  ∃ c', calculate_fitness scenario_chromosome
          [ [0; 2; 9; 4; 9; 9]; [9; 0; 3; 9; 9; 9]; [2; 9; 0; 9; 9; 9];
            [9; 9; 9; 0; 1; 9]; [9; 9; 9; 9; 0; 1]; [3; 9; 9; 9; 9; 0] ]%Z
        = Ok (c', 16%Z) ∧ fitness c' = Some 16%Z.
Proof.
  destruct (C2_scenario_routes_and_fitness
    [ [0; 2; 9; 4; 9; 9]; [9; 0; 3; 9; 9; 9]; [2; 9; 0; 9; 9; 9];
      [9; 9; 9; 0; 1; 9]; [9; 9; 9; 9; 0; 1]; [3; 9; 9; 9; 9; 0] ]%Z)
    as [_ (c' & H1 & H2 & _)]; try reflexivity.
  exists c'. split; assumption.
Defined.

(** ** The decoder visits the location genes, in order *)

Lemma scan_delimiters_bounds ds de (positions : list Z) : ∀ i0,
  Forall (λ p, i0 ≤ p ∧ ∃ v, positions !! (p - i0) = Some v ∧ (ds ≤ v)%Z)
         (scan_delimiters ds de i0 positions).
Proof.
  induction positions as [|v rest IH]; intros i0; simpl; [constructor|].
  assert (Hrest : Forall (λ p, i0 ≤ p ∧
             ∃ v', (v :: rest) !! (p - i0) = Some v' ∧ (ds ≤ v')%Z)
            (scan_delimiters ds de (S i0) rest)).
  { eapply Forall_impl; [apply (IH (S i0))|].
    intros p (Hp & v' & Hv' & Hle). split; [lia|].
    exists v'. split; [|done].
    replace (p - i0) with (S (p - S i0)) by lia. done. }
  destruct (is_delimiter ds de v) eqn:Hd; [|done].
  constructor; [|done]. split; [lia|]. exists v.
  replace (i0 - i0) with 0 by lia. split; [done|].
  unfold is_delimiter in Hd. apply andb_true_iff in Hd as [Hd _]. lia.
Qed.

Lemma scan_delimiters_increasing ds de (positions : list Z) : ∀ i0,
  StronglySorted lt (scan_delimiters ds de i0 positions).
Proof.
  induction positions as [|v rest IH]; intros i0; simpl; [constructor|].
  destruct (is_delimiter ds de v); [|apply IH].
  constructor; [apply IH|].
  eapply Forall_impl; [apply (scan_delimiters_bounds ds de rest (S i0))|].
  intros p [Hp _]. simpl in Hp. lia.
Qed.

Lemma merge_sort_increasing (l : list nat) :
  StronglySorted lt l → merge_sort Nat.le l = l.
Proof.
  intros Hl. apply (Sorted_unique Nat.le).
  - apply Sorted_merge_sort. intros x y. unfold Nat.le. lia.
  - apply StronglySorted_Sorted.
    induction Hl as [|x l Hl IH Hx]; constructor; [done|].
    eapply Forall_impl; [exact Hx|]. intros y Hy. simpl in Hy. unfold Nat.le. lia.
  - apply merge_sort_Permutation.
Qed.

(** The customers already split off together with those still to come do
    not change while the loop of lines 66-71 runs. *)
Lemma split_fold_keeps_locations n (positions : list Z) (ds : list nat) :
  ∀ st0 : list (list Z) * nat,
  StronglySorted lt ds →
  Forall (λ p, snd st0 ≤ p ∧ ∃ v, positions !! p = Some v ∧ (n ≤ v)%Z) ds →
  let st := foldl (split_step n positions) st0 ds in
  concat (fst st) ++ filter (is_location n) (drop (snd st) positions)
  = concat (fst st0) ++ filter (is_location n) (drop (snd st0) positions).
Proof.
  induction ds as [|p ds IH]; intros st0 Hsorted Hall; [done|].
  apply StronglySorted_inv in Hsorted as [Hsorted Hp].
  apply Forall_cons in Hall as [(Hstart & v & Hv & Hnv) Hall].
  cbn [foldl]. cbv zeta. rewrite IH; [|done|].
  - unfold split_step, py_slice. cbn [fst snd].
    rewrite concat_app. cbn [concat]. rewrite app_nil_r, <- (assoc (++)).
    f_equal.
    rewrite <- (take_drop (p - snd st0) (drop (snd st0) positions)) at 2.
    rewrite filter_app. f_equal.
    rewrite drop_drop. replace (snd st0 + (p - snd st0)) with p by lia.
    rewrite (drop_S positions v p) by done.
    rewrite filter_cons_False; [done|]. unfold is_location. lia.
  - unfold split_step. cbn [snd].
    rewrite Forall_forall in Hp, Hall. apply Forall_forall.
    intros q Hq. destruct (Hall q Hq) as (_ & w & Hw & Hnw).
    specialize (Hp q Hq). split; [lia | eauto].
Qed.

Lemma stops_wrap_routes (routes : list (list Z)) :
  stops (wrap_routes routes) = filter (λ v, v ≠ depot_index) (concat routes).
Proof.
  unfold stops. induction routes as [|route rest IH]; [done|].
  destruct route as [|a route]; [exact IH|].
  cbn [wrap_routes concat]. rewrite !filter_app, IH.
  rewrite <- !(assoc (++)). rewrite (filter_cons_False _ depot_index []) by tauto.
  rewrite filter_nil. done.
Qed.

Lemma stops_decode (n m : Z) (positions : list Z) :
  stops (decode n m positions)
  = filter (λ v, v ≠ depot_index) (filter (is_location n) positions).
Proof.
  unfold decode. rewrite stops_wrap_routes. f_equal.
  rewrite merge_sort_increasing by apply scan_delimiters_increasing.
  rewrite concat_app. cbn [concat]. rewrite app_nil_r.
  rewrite (split_fold_keeps_locations n positions _ ([], 0)).
  - done.
  - apply scan_delimiters_increasing.
  - eapply Forall_impl; [apply (scan_delimiters_bounds n (n + m - 1) positions 0)|].
    intros p (_ & v & Hv & Hnv). rewrite Nat.sub_0_r in Hv.
    split; [cbn; lia | exists v; done].
Qed.

Lemma int_genes_fmap (l : list Z) : int_genes (Some <$> l) = Ok l.
Proof. induction l as [|v l IH]; [done|]. cbn. rewrite IH. done. Qed.

Lemma permutation_genes_inv (n : Z) (gs : list (option Z)) :
  permutation_genes n gs → ∃ l, gs = Some <$> l ∧ l ≡ₚ seqZ 0 n.
Proof.
  unfold permutation_genes. intros Hp. exists (omap id gs). split.
  - assert (Hall : Forall is_Some gs).
    { rewrite Hp. apply Forall_fmap, Forall_true. intros v. by eexists. }
    clear Hp. induction Hall as [|g gs [v ->] _ IH]; [done|].
    cbn. f_equal. exact IH.
  - rewrite Hp. clear Hp. generalize (seqZ 0 n). intros l.
    assert (Heq : omap id (Some <$> l) = l); [|by rewrite Heq].
    induction l as [|v l IH]; [done|]. cbn. by f_equal.
Qed.

Lemma permutation_genes_fmap (n : Z) (l : list Z) :
  l ≡ₚ seqZ 0 n → permutation_genes n (Some <$> l).
Proof. unfold permutation_genes. by intros ->. Qed.

Lemma locations_of_permutation (n N : Z) (l : list Z) :
  l ≡ₚ seqZ 0 N → (n ≤ N)%Z →
  filter (λ v, v ≠ depot_index) (filter (is_location n) l) ≡ₚ seqZ 0 n.
Proof.
  intros -> Hn. apply NoDup_Permutation.
  - apply NoDup_filter, NoDup_filter, NoDup_seqZ.
  - apply NoDup_seqZ.
  - intros x. rewrite !list_elem_of_filter, !elem_of_seqZ.
    unfold is_location, depot_index. lia.
Qed.

Lemma decode_serves_all (n m : Z) (positions : list Z) :
  (1 ≤ m)%Z → positions ≡ₚ seqZ 0 (n + m - 1) →
  stops (decode n m positions) ≡ₚ seqZ 0 n.
Proof.
  intros Hm Hperm. rewrite stops_decode.
  apply (locations_of_permutation _ (n + m - 1)); [done | lia].
Qed.

(** C10, amended: with at least one vehicle, the routes decoded from a
    chromosome whose genes are a permutation of
    0 .. num_locations+num_vehicles-2 serve, once the depot sentinels are
    removed, every customer 0 .. num_locations-1 exactly once and nothing
    else. *)
Theorem C10_every_customer_once (c : Chromosome) :
  (1 ≤ num_vehicles c)%Z →
  permutation_genes (num_locations c + num_vehicles c - 1) (genes c) →
  visits_every_customer_once c.
Proof.
  intros Hm Hperm.
  apply permutation_genes_inv in Hperm as (positions & Hgenes & Hperm).
  exists (decode (num_locations c) (num_vehicles c) positions). split.
  - unfold get_routes. rewrite Hgenes, int_genes_fmap. done.
  - by apply decode_serves_all.
Qed.

Lemma C10_every_customer_once_witness :
  visits_every_customer_once scenario_chromosome.
Proof.
  apply C10_every_customer_once.
  - cbn. lia.
  - apply (permutation_genes_fmap 6 [0; 1; 5; 2; 3; 4]%Z).
    apply (bool_decide_unpack _). vm_compute. exact I.
Defined.

(** C10 as stated fails without a vehicle: with 3 locations and 0 vehicles
    the genes [0,1] are a permutation of 0 .. 3+0-2, and customer 2 is on
    no route. *)
Lemma C10_counterexample :
  permutation_genes (3 + 0 - 1) (genes (mkChromosome 3 0 [Some 0; Some 1]%Z None)) ∧
  get_routes (mkChromosome 3 0 [Some 0; Some 1]%Z None) = Ok [[-1; 0; 1; -1]%Z] ∧
  ¬ visits_every_customer_once (mkChromosome 3 0 [Some 0; Some 1]%Z None).
Proof.
  split; [unfold permutation_genes; reflexivity|]. split; [reflexivity|].
  intros (routes & Hroutes & Hstops).
  injection Hroutes as <-. apply Permutation_length in Hstops.
  discriminate Hstops.
Qed.

(* ===================================================================== *)
(** * List primitives *)
(* ===================================================================== *)

Lemma py_index_nat {A} (l : list A) (i : nat) :
  py_index l (Z.of_nat i)
  = match l !! i with Some x => Ok x | None => Raise IndexError end.
Proof.
  unfold py_index.
  destruct (Z.ltb_spec (Z.of_nat i) 0) as [Hneg|_]; [lia|].
  rewrite Nat2Z.id.
  destruct (Z.leb_spec 0 (Z.of_nat i)) as [_|?]; [|lia].
  destruct (Z.ltb_spec (Z.of_nat i) (Z.of_nat (length l))) as [Hlt|Hge]; simpl.
  - done.
  - rewrite (proj2 (lookup_ge_None l i)) by lia. done.
Qed.

Lemma py_index_lookup {A} (l : list A) (i : nat) (x : A) :
  l !! i = Some x → py_index l (Z.of_nat i) = Ok x.
Proof. intros H. rewrite py_index_nat, H. done. Qed.

Lemma py_index_nat_ok {A} (l : list A) (i : nat) (x : A) :
  py_index l (Z.of_nat i) = Ok x → l !! i = Some x.
Proof. rewrite py_index_nat. destruct (l !! i); intros [= ->] || discriminate. done. Qed.

Lemma py_index_elem_of {A} (l : list A) (i : Z) (x : A) :
  py_index l i = Ok x → x ∈ l.
Proof.
  unfold py_index. destruct (_ && _); [|discriminate].
  destruct (l !! _) as [y|] eqn:Hy; [|discriminate].
  intros [= <-]. by eapply list_elem_of_lookup_2.
Qed.

(** [py_index] raises nothing but IndexError. *)
Lemma py_index_raise {A} (l : list A) (i : Z) (e : exn) :
  py_index l i = Raise e → e = IndexError.
Proof.
  unfold py_index. destruct (_ && _); [destruct (l !! _)|]; congruence.
Qed.

Lemma py_store_ok {A} (l : list A) (i : nat) (v : A) :
  i < length l → py_store l i v = Ok (<[i := v]> l).
Proof.
  intros Hi. unfold py_store.
  destruct (Nat.ltb_spec i (length l)); [done | lia].
Qed.

(** Exchanging two items keeps the items. *)
Lemma py_swap_ok {A} (l : list A) (i j : nat) :
  i < length l → j < length l →
  ∃ l', py_swap l i j = Ok l' ∧ l' ≡ₚ l ∧ length l' = length l.
Proof.
  intros Hi Hj. unfold py_swap.
  destruct (lookup_lt_is_Some_2 l i Hi) as [xi Hxi].
  destruct (lookup_lt_is_Some_2 l j Hj) as [xj Hxj].
  rewrite Hxi, Hxj. eexists. split; [done|].
  split; [|by rewrite !length_insert].
  destruct (decide (i = j)) as [->|Hne].
  { assert (xi = xj) as -> by congruence.
    rewrite (list_insert_id l j xj) by done.
    rewrite (list_insert_id l j xj) by done. done. }
  apply Permutation_inj. split; [by rewrite !length_insert|].
  exists (λ k, if decide (k = i) then j else if decide (k = j) then i else k).
  split.
  - intros a b. repeat case_decide; intros; subst; congruence.
  - intros k. repeat case_decide; subst.
    + rewrite list_lookup_insert_ne by done.
      rewrite list_lookup_insert_eq by done. done.
    + rewrite list_lookup_insert_eq by (rewrite length_insert; done). done.
    + rewrite !list_lookup_insert_ne by done. done.
Qed.

Lemma py_swap_inv {A} (l l' : list A) (i j : nat) :
  py_swap l i j = Ok l' → l' ≡ₚ l ∧ length l' = length l.
Proof.
  intros H.
  assert (Hi : i < length l).
  { apply lookup_lt_is_Some. unfold py_swap in H.
    destruct (l !! j), (l !! i); try discriminate. by eexists. }
  assert (Hj : j < length l).
  { apply lookup_lt_is_Some. unfold py_swap in H.
    destruct (l !! j); try discriminate. by eexists. }
  destruct (py_swap_ok l i j Hi Hj) as (l2 & H2 & Hperm & Hlen).
  rewrite H in H2. injection H2 as <-. done.
Qed.

(** The loops over a range, by invariant. *)
Lemma for_range_inv {St} (body : nat → St → result St)
    (Inv : nat → St → Prop) (count : nat) : ∀ (start : nat) (s : St),
  Inv start s →
  (∀ i s, start ≤ i < start + count → Inv i s →
          ∃ s', body i s = Ok s' ∧ Inv (S i) s') →
  ∃ s', for_range body start count s = Ok s' ∧ Inv (start + count) s'.
Proof.
  induction count as [|count IH]; intros start s Hinv Hbody.
  - exists s. rewrite Nat.add_0_r. done.
  - destruct (Hbody start s) as (s1 & Hs1 & Hinv1); [lia | done |].
    destruct (IH (S start) s1) as (s2 & Hs2 & Hinv2); [done | |].
    { intros i s' Hi. apply Hbody. lia. }
    exists s2. cbn. rewrite Hs1. cbn. rewrite Hs2.
    replace (start + S count) with (S start + count) by lia. done.
Qed.

(* ===================================================================== *)
(** * The random source *)
(* ===================================================================== *)

Lemma randbelow_run (n : nat) (w : World) :
  ∃ j w', randbelow n w = Ok (j, w') ∧ (0 < n → j < n) ∧ same_trace w w'.
Proof.
  eexists _, _. split; [reflexivity|]. split; [|reflexivity].
  intros Hn. cbn.
  pose proof (N.mod_upper_bound (entropy w (cursor w)) (N.of_nat n)). lia.
Qed.

Lemma sample_range_2_inv (n : nat) (w w' : World) (i j : nat) :
  sample_range_2 n w = Ok ((i, j), w') →
  i < n ∧ j < n ∧ i ≠ j ∧ same_trace w w'.
Proof.
  unfold sample_range_2. destruct (Nat.ltb_spec n 2) as [|Hn]; [discriminate|].
  intros H.
  destruct (randbelow_run n w) as (j1 & w1 & H1 & Hj1 & Ht1).
  rewrite (mbind_run _ _ _ _ _ H1) in H.
  destruct (randbelow_run (n - 1) w1) as (j2 & w2 & H2 & Hj2 & Ht2).
  rewrite (mbind_run _ _ _ _ _ H2) in H.
  injection H as <- <- <-.
  specialize (Hj1 ltac:(lia)). specialize (Hj2 ltac:(lia)).
  unfold same_trace in *. destruct (Nat.eqb_spec j2 j1); repeat split; try lia.
  all: congruence.
Qed.

Lemma sample_range_2_run (n : nat) (w : World) :
  2 ≤ n → ∃ i j w', sample_range_2 n w = Ok ((i, j), w').
Proof.
  intros Hn. unfold sample_range_2.
  destruct (Nat.ltb_spec n 2) as [|_]; [lia|].
  eexists _, _, _. reflexivity.
Qed.

Lemma sample_range_2_raise (n : nat) (w : World) :
  n < 2 → sample_range_2 n w = Raise ValueError.
Proof.
  intros Hn. unfold sample_range_2.
  destruct (Nat.ltb_spec n 2) as [_|]; [done | lia].
Qed.

Lemma shuffle_down_run {A} (i : nat) : ∀ (x : list A) (w : World),
  i < length x ∨ i = 0 →
  ∃ x' w', shuffle_down i x w = Ok (x', w') ∧ x' ≡ₚ x ∧ same_trace w w'.
Proof.
  induction i as [|i IH]; intros x w Hi.
  - exists x, w. done.
  - destruct Hi as [Hi|]; [|lia]. cbn [shuffle_down].
    destruct (randbelow_run (S (S i)) w) as (j & w1 & Hj & Hlt & Ht1).
    rewrite (mbind_run _ _ _ _ _ Hj).
    destruct (py_swap_ok x (S i) j) as (x1 & Hx1 & Hp1 & Hl1); [lia | lia |].
    rewrite Hx1. cbn [lift]. unfold mbind at 1, M_bind.
    destruct (IH x1 w1) as (x2 & w2 & H2 & Hp2 & Ht2); [lia|].
    exists x2, w2. split; [done|]. split; [by rewrite Hp2|].
    unfold same_trace in *. congruence.
Qed.

Lemma random_shuffle_run {A} (x : list A) (w : World) :
  ∃ x' w', random_shuffle x w = Ok (x', w') ∧ x' ≡ₚ x ∧ same_trace w w'.
Proof. apply shuffle_down_run. destruct x; cbn; lia. Qed.

(** Random initialisation always succeeds and yields a permutation. *)
Lemma Chromosome_init_random (n m : Z) (w : World) :
  ∃ c w', Chromosome_init n m None w = Ok (c, w') ∧
          num_locations c = n ∧ num_vehicles c = m ∧ fitness c = None ∧
          permutation_genes (n + m - 1) (genes c) ∧ same_trace w w'.
Proof.
  unfold Chromosome_init.
  destruct (random_shuffle_run (Some <$> seqZ 0 (n + m - 1)) w)
    as (x & w' & Hx & Hp & Ht).
  rewrite (mbind_run _ _ _ _ _ Hx). eexists _, _. split; [reflexivity|]. done.
Qed.

(** Swap mutation keeps the genes a permutation of what they were. *)
Lemma mutate_inv (c c' : Chromosome) (w w' : World) :
  mutate c w = Ok (c', w') →
  genes c' ≡ₚ genes c ∧ num_locations c' = num_locations c ∧
  num_vehicles c' = num_vehicles c ∧ fitness c' = None ∧ same_trace w w'.
Proof.
  unfold mutate. intros H.
  apply mbind_ok in H as ([pos1 pos2] & w1 & Hs & H).
  apply sample_range_2_inv in Hs as (_ & _ & _ & Ht).
  apply mbind_ok in H as (g & w2 & Hg & H).
  apply lift_ok in Hg as [Hg ->].
  apply py_swap_inv in Hg as [Hp _].
  injection H as <- <-. done.
Qed.

Lemma mutate_run (c : Chromosome) (w : World) :
  2 ≤ length (genes c) → ∃ c' w', mutate c w = Ok (c', w').
Proof.
  intros Hlen. unfold mutate.
  destruct (sample_range_2_run _ w Hlen) as (i & j & w1 & Hs).
  rewrite (mbind_run _ _ _ _ _ Hs). cbn beta iota.
  apply sample_range_2_inv in Hs as (Hi & Hj & _ & _).
  destruct (py_swap_ok (genes c) i j Hi Hj) as (g & Hg & _ & _).
  rewrite Hg. eexists _, _. reflexivity.
Qed.

(* ===================================================================== *)
(** * Crossover keeps permutations *)
(* ===================================================================== *)

Section offspring.
Variables (donor filler : list (option Z)) (L point1 point2 : nat).
Hypothesis Hfiller_len : length filler = L.
Hypothesis Hdonor_len : length donor = L.
Hypothesis Hfiller_nodup : NoDup filler.
Hypothesis Hdonor_nodup : NoDup donor.
Hypothesis Hsame : ∀ v, v ∈ donor → v ∈ filler.
Hypothesis Hpoints : point1 ≤ point2 ≤ L.

(** After steps 2a/3a the middle segment is the donor's, the rest is
    still [None]. *)
Lemma copy_segment_run :
  ∃ off, copy_segment donor point1 point2 (replicate L None) = Ok off ∧
         length off = L ∧
         ∀ j, point1 ≤ j < point2 → off !! j = donor !! j.
Proof.
  unfold copy_segment.
  destruct (for_range_inv
    (λ i off, v ← py_index donor (Z.of_nat i); py_store off i v)
    (λ i off, length off = L ∧ ∀ j, point1 ≤ j < i → off !! j = donor !! j)
    (point2 - point1) point1 (replicate L None)) as (off & Hoff & Hlen & Hmid).
  - split; [apply length_replicate | intros; lia].
  - intros i off Hi [Hlen Hmid].
    destruct (lookup_lt_is_Some_2 donor i) as [v Hv]; [lia|].
    rewrite (py_index_lookup _ _ _ Hv). cbn.
    rewrite py_store_ok by lia. eexists. split; [done|].
    split; [by rewrite length_insert|].
    intros j Hj. destruct (decide (j = i)) as [->|Hne].
    + rewrite list_lookup_insert_eq by lia. done.
    + rewrite list_lookup_insert_ne by done. apply Hmid. lia.
  - exists off. split; [done|]. split; [done|].
    intros j Hj. apply Hmid. lia.
Qed.

Lemma slice_of_middle (off : list (option Z)) :
  length off = L →
  (∀ j, point1 ≤ j < point2 → off !! j = donor !! j) →
  py_slice off point1 point2 = py_slice donor point1 point2.
Proof.
  intros Hlen Hmid. unfold py_slice. apply list_eq. intros k.
  destruct (decide (k < point2 - point1)) as [Hk|Hk].
  - rewrite !lookup_take_lt, !lookup_drop by done. apply Hmid. lia.
  - rewrite !lookup_take_ge by lia. done.
Qed.

Lemma elem_of_middle (v : option Z) :
  v ∈ py_slice donor point1 point2
  ↔ ∃ j, point1 ≤ j < point2 ∧ donor !! j = Some v.
Proof.
  unfold py_slice. rewrite elem_of_take. split.
  - intros (k & Hk & Hlt). rewrite lookup_drop in Hk.
    exists (point1 + k). split; [lia | done].
  - intros (j & Hj & Hv). exists (j - point1). rewrite lookup_drop.
    replace (point1 + (j - point1)) with j by lia. split; [done | lia].
Qed.

Lemma middle_size :
  size (list_to_set (py_slice donor point1 point2) : gset (option Z))
  = point2 - point1.
Proof.
  rewrite size_list_to_set.
  - unfold py_slice. rewrite length_take, length_drop. lia.
  - unfold py_slice. eapply sublist_NoDup; [exact Hdonor_nodup|].
    etrans; [apply sublist_take | apply sublist_drop].
Qed.

(** The inner [while]: the index stops on the first value not yet used,
    or at the end. *)
Lemma skip_used_run (used : gset (option Z)) (fuel : nat) : ∀ idx,
  L - idx ≤ fuel →
  ∃ idx', skip_used filler L used fuel idx = Ok idx' ∧
          idx ≤ idx' ∧
          (∀ j, idx ≤ j < idx' → ∃ v, filler !! j = Some v ∧ v ∈ used) ∧
          (idx' < L → ∃ v, filler !! idx' = Some v ∧ v ∉ used).
Proof.
  induction fuel as [|fuel IH]; intros idx Hfuel.
  - exists idx. cbn [skip_used].
    destruct (Nat.ltb_spec idx L); [lia|]. cbn [negb].
    split; [done|]. split; [done|]. split; intros; lia.
  - cbn [skip_used]. destruct (Nat.ltb_spec idx L) as [Hlt|Hge]; cbn [negb].
    + destruct (lookup_lt_is_Some_2 filler idx) as [v Hv]; [lia|].
      rewrite (py_index_lookup _ _ _ Hv). cbn [mbind result_bind].
      destruct (decide (v ∈ used)) as [Hin|Hnin].
      * rewrite bool_decide_eq_true_2 by done.
        destruct (IH (S idx)) as (idx' & Hrun & Hle & Hbefore & Hat); [lia|].
        exists idx'. split; [done|]. split; [lia|]. split; [|done].
        intros j Hj. destruct (decide (j = idx)) as [->|]; [eauto|].
        apply Hbefore. lia.
      * rewrite bool_decide_eq_false_2 by done.
        exists idx. split; [done|]. split; [done|].
        split; [intros; lia | eauto].
    + exists idx. split; [done|]. split; [done|]. split; intros; lia.
Qed.

Lemma fill_step_run (i : nat) (st : fill_state) :
  i < L → fill_inv filler L point1 point2 i st →
  ∃ st', fill_step filler L point1 point2 i st = Ok st' ∧
         fill_inv filler L point1 point2 (S i) st'.
Proof.
  intros Hi (Hlen & Hfilled & Hinj & Hsize & Hsub & Hidx & Hbefore).
  unfold fill_step.
  destruct ((point1 <=? i) && (i <? point2)) eqn:Hmid.
  { (* a position of the middle segment: nothing to do *)
    apply andb_true_iff in Hmid as [H1 H2].
    apply Nat.leb_le in H1. apply Nat.ltb_lt in H2.
    exists st. split; [done|].
    assert (Hsame_filled : ∀ j, filled L point1 point2 (S i) j →
                                filled L point1 point2 i j).
    { unfold filled. intros j. lia. }
    split; [done|]. split; [auto|].
    split; [intros j1 j2 v ?%Hsame_filled ?%Hsame_filled; by apply Hinj|].
    split; [rewrite Hsize; unfold outside_below; lia | done]. }
  assert (Hout : ¬ (point1 ≤ i < point2)).
  { intros [H1 H2]. apply Nat.leb_le in H1. apply Nat.ltb_lt in H2.
    rewrite H1, H2 in Hmid. discriminate. }
  clear Hmid.
  destruct (skip_used_run (fs_used st) L (fs_index st))
    as (idx & Hrun & Hle & Hskipped & Hat); [lia|].
  rewrite Hrun. cbn [mbind result_bind].
  (* the filler cannot be exhausted: fewer than [L] values are used *)
  assert (Hlt : idx < L).
  { destruct (decide (idx < L)) as [|Hge]; [done|]. exfalso.
    assert (Hall : (list_to_set filler : gset (option Z)) ⊆ fs_used st).
    { intros v Hv. apply elem_of_list_to_set, list_elem_of_lookup in Hv.
      destruct Hv as [j Hj].
      assert (j < L) by (apply lookup_lt_Some in Hj; lia).
      destruct (decide (j < fs_index st)) as [Hjlt|Hjge].
      - destruct (Hbefore j Hjlt) as (v' & Hv' & Hin). congruence.
      - destruct (Hskipped j) as (v' & Hv' & Hin); [lia|]. congruence. }
    apply subseteq_size in Hall.
    rewrite size_list_to_set in Hall by done.
    rewrite Hsize, Hfiller_len in Hall. unfold outside_below in Hall. lia. }
  destruct (Nat.ltb_spec idx L) as [_|]; [|lia].
  destruct (Hat Hlt) as (v & Hv & Hfresh).
  rewrite (py_index_lookup _ _ _ Hv). cbn [mbind result_bind].
  rewrite py_store_ok by lia. eexists. split; [done|].
  cbn [fs_genes fs_used fs_index].
  assert (Hnot_filled : ¬ filled L point1 point2 i i) by (unfold filled; lia).
  assert (Hcases : ∀ j, filled L point1 point2 (S i) j →
                        j = i ∨ (j ≠ i ∧ filled L point1 point2 i j)).
  { unfold filled. intros j. lia. }
  refine (conj _ (conj _ (conj _ (conj _ (conj _ (conj _ _))))));
    cbn [fs_genes fs_used fs_index].
  - by rewrite length_insert.
  - intros j Hj. destruct (Hcases j Hj) as [->|[Hne Hold]].
    + exists v. rewrite list_lookup_insert_eq by lia.
      split; [done | by apply elem_of_union_l, elem_of_singleton].
    + rewrite list_lookup_insert_ne by done.
      destruct (Hfilled j Hold) as (v' & Hv' & Hin). exists v'.
      split; [done | by apply elem_of_union_r].
  - intros j1 j2 v' Hj1 Hj2.
    destruct (Hcases j1 Hj1) as [->|[Hne1 Hold1]],
             (Hcases j2 Hj2) as [->|[Hne2 Hold2]]; [done| | |].
    + rewrite list_lookup_insert_eq, list_lookup_insert_ne by (done || lia).
      intros [= <-] Hj. destruct (Hfilled j2 Hold2) as (v2 & Hv2 & Hin).
      congruence.
    + rewrite list_lookup_insert_eq, list_lookup_insert_ne by (done || lia).
      intros Hj [= <-]. destruct (Hfilled j1 Hold1) as (v1 & Hv1 & Hin).
      congruence.
    + rewrite !list_lookup_insert_ne by done. by apply Hinj.
  - rewrite size_union by (by apply disjoint_singleton_l). rewrite size_singleton, Hsize.
    unfold outside_below. lia.
  - intros v' [->%elem_of_singleton|Hin]%elem_of_union.
    + apply list_elem_of_lookup. eauto.
    + by apply Hsub.
  - lia.
  - intros j Hj. destruct (decide (j = idx)) as [->|Hne].
    { exists v. split; [done | by apply elem_of_union_l, elem_of_singleton]. }
    destruct (decide (j < fs_index st)) as [Hjlt|Hjge].
    + destruct (Hbefore j Hjlt) as (v' & Hv' & Hin). exists v'.
      split; [done | by apply elem_of_union_r].
    + destruct (Hskipped j) as (v' & Hv' & Hin); [lia|]. exists v'.
      split; [done | by apply elem_of_union_r].
Qed.

(** Steps 2 and 3 succeed, and the offspring holds the values of the
    filler parent, each once. *)
Lemma offspring_genes_run :
  ∃ off, offspring_genes L point1 point2 donor filler = Ok off ∧
         off ≡ₚ filler.
Proof.
  unfold offspring_genes.
  destruct copy_segment_run as (off1 & Hoff1 & Hlen1 & Hmid1).
  rewrite Hoff1. cbn [mbind result_bind].
  rewrite (slice_of_middle off1 Hlen1 Hmid1).
  destruct (for_range_inv (fill_step filler L point1 point2)
              (fill_inv filler L point1 point2) L 0
    (mkFill off1 (list_to_set (py_slice donor point1 point2)) 0))
    as (st & Hst & Hinv).
  - unfold fill_inv. cbn [fs_genes fs_used fs_index].
    assert (Hmiddle : ∀ j, filled L point1 point2 0 j → point1 ≤ j < point2).
    { unfold filled. intros j. lia. }
    refine (conj _ (conj _ (conj _ (conj _ (conj _ (conj _ _))))));
      cbn [fs_genes fs_used fs_index].
    + done.
    + intros j Hj%Hmiddle.
      destruct (lookup_lt_is_Some_2 donor j) as [v Hv]; [lia|].
      exists v. rewrite Hmid1 by done. split; [done|].
      apply elem_of_list_to_set, elem_of_middle. eauto.
    + intros j1 j2 v Hj1%Hmiddle Hj2%Hmiddle. rewrite !Hmid1 by done.
      apply (NoDup_lookup donor); done.
    + rewrite middle_size. unfold outside_below. lia.
    + intros v Hv%elem_of_list_to_set%elem_of_middle.
      destruct Hv as (j & _ & Hj). apply Hsame, list_elem_of_lookup. eauto.
    + lia.
    + intros j Hj. lia.
  - intros i st Hi Hinv. apply fill_step_run; [lia | done].
  - rewrite Hst. cbn [mbind result_bind]. exists (fs_genes st).
    split; [done|].
    destruct Hinv as (Hlen & Hfilled & Hinj & _ & Hsub & _).
    assert (Hall : ∀ j, j < L → filled L point1 point2 (0 + L) j)
      by (unfold filled; lia).
    apply submseteq_length_Permutation; [|lia].
    apply NoDup_submseteq.
    + apply NoDup_alt. intros j1 j2 v Hj1 Hj2.
      apply (Hinj j1 j2 v); [apply Hall | apply Hall | done | done].
      * apply lookup_lt_Some in Hj1. lia.
      * apply lookup_lt_Some in Hj2. lia.
    + intros v [j Hj]%list_elem_of_lookup.
      assert (Hjl : j < L) by (apply lookup_lt_Some in Hj; lia).
      destruct (Hfilled j (Hall j Hjl)) as (v' & Hv' & Hin).
      apply Hsub. congruence.
Qed.
End offspring.

Lemma log_run (ev : Event) (w : World) :
  log ev w = Ok (tt, mkWorld (entropy w) (cursor w) (trace w ++ [ev])).
Proof. reflexivity. Qed.

(** Crossover of two parents that hold the same values, each once: it
    raises ValueError on fewer than two genes, and otherwise returns two
    offspring that hold these values, each once. *)
Lemma crossover_run (parent1 parent2 : Chromosome) (w : World) :
  NoDup (genes parent1) → genes parent2 ≡ₚ genes parent1 →
  (length (genes parent1) < 2 → crossover parent1 parent2 w = Raise ValueError) ∧
  (2 ≤ length (genes parent1) →
   ∃ o1 o2 w', crossover parent1 parent2 w = Ok ((o1, o2), w') ∧
     genes o1 ≡ₚ genes parent1 ∧ genes o2 ≡ₚ genes parent1 ∧
     num_locations o1 = num_locations parent1 ∧
     num_vehicles o1 = num_vehicles parent1 ∧
     num_locations o2 = num_locations parent1 ∧
     num_vehicles o2 = num_vehicles parent1 ∧
     trace w' = trace w ++ [EvCrossover parent1 parent2]).
Proof.
  intros Hnodup Hperm. unfold crossover.
  rewrite (mbind_run _ _ _ _ _ (log_run _ w)).
  set (w0 := mkWorld _ _ _). split.
  - intros Hlen. apply mbind_raise. by apply sample_range_2_raise.
  - intros Hlen.
    destruct (sample_range_2_run _ w0 Hlen) as (a & b & w1 & Hs).
    rewrite (mbind_run _ _ _ _ _ Hs). cbn beta iota.
    apply sample_range_2_inv in Hs as (Ha & Hb & Hab & Ht).
    assert (Hnodup2 : NoDup (genes parent2)) by (by rewrite Hperm).
    assert (Hlen2 : length (genes parent2) = length (genes parent1))
      by (by rewrite Hperm).
    destruct (offspring_genes_run (genes parent2) (genes parent1)
                (length (genes parent1)) (a `min` b) (a `max` b))
      as (g1 & Hg1 & Hp1); try done.
    { intros v. by rewrite Hperm. }
    { lia. }
    destruct (offspring_genes_run (genes parent1) (genes parent2)
                (length (genes parent1)) (a `min` b) (a `max` b))
      as (g2 & Hg2 & Hp2); try done.
    { intros v. by rewrite Hperm. }
    { lia. }
    rewrite Hg1, Hg2. eexists _, _, _. split; [reflexivity|].
    cbn [genes num_locations num_vehicles].
    split; [done|]. split; [by rewrite Hp2|].
    repeat (split; [done|]). exact Ht.
Qed.

Lemma permutation_genes_NoDup (n : Z) (gs : list (option Z)) :
  permutation_genes n gs → NoDup gs.
Proof.
  unfold permutation_genes. intros ->.
  apply (NoDup_fmap_2 Some), NoDup_seqZ.
Qed.

Lemma permutation_genes_length (n : Z) (gs : list (option Z)) :
  permutation_genes n gs → length gs = Z.to_nat n.
Proof.
  unfold permutation_genes. intros ->. by rewrite length_fmap, length_seqZ.
Qed.

Lemma crossover_well_formed (n m : Z) (parent1 parent2 o1 o2 : Chromosome)
    (w w' : World) :
  well_formed n m parent1 → well_formed n m parent2 →
  crossover parent1 parent2 w = Ok ((o1, o2), w') →
  well_formed n m o1 ∧ well_formed n m o2.
Proof.
  intros (Hn1 & Hm1 & Hp1) (Hn2 & Hm2 & Hp2) Hrun.
  destruct (crossover_run parent1 parent2 w) as [Hshort Hlong].
  { by eapply permutation_genes_NoDup. }
  { unfold permutation_genes in *. by rewrite Hp1, Hp2. }
  destruct (decide (length (genes parent1) < 2)) as [Hlt|Hge].
  { rewrite Hshort in Hrun by done. discriminate. }
  destruct Hlong as (o1' & o2' & w'' & Hrun' & Hg1 & Hg2 & ? & ? & ? & ? & _);
    [lia|].
  rewrite Hrun in Hrun'. injection Hrun' as <- <- <-.
  unfold well_formed, permutation_genes in *.
  rewrite Hg1, Hg2. repeat split; congruence.
Qed.

(** C1: random initialisation yields a chromosome whose genes are the values
    0 .. numLocations+numVehicles-2, each exactly once; crossover of two
    parents with such genes yields two offspring with such genes; swap
    mutation of a chromosome with such genes yields one with such genes.
    Random initialisation always returns, crossover and mutation return as
    soon as there are two genes (with fewer, [random.sample] raises). *)
Theorem C1_permutation_invariant (n m : Z) :
  (∀ w c w', Chromosome_init n m None w = Ok (c, w') → well_formed n m c) ∧
  (∀ parent1 parent2 w o1 o2 w',
     well_formed n m parent1 → well_formed n m parent2 →
     crossover parent1 parent2 w = Ok ((o1, o2), w') →
     well_formed n m o1 ∧ well_formed n m o2) ∧
  (∀ c w c' w',
     well_formed n m c → mutate c w = Ok (c', w') → well_formed n m c') ∧
  (∀ w, ∃ c w', Chromosome_init n m None w = Ok (c, w')) ∧
  ((2 ≤ n + m - 1)%Z →
   ∀ parent1 parent2 w, well_formed n m parent1 → well_formed n m parent2 →
     (∃ o1 o2 w', crossover parent1 parent2 w = Ok ((o1, o2), w')) ∧
     (∃ c' w', mutate parent1 w = Ok (c', w'))).
Proof.
  split; [|split; [|split; [|split]]].
  - intros w c w' Hrun.
    destruct (Chromosome_init_random n m w)
      as (c0 & w0 & Hrun0 & Hn & Hm & _ & Hp & _).
    rewrite Hrun in Hrun0. injection Hrun0 as <- <-. done.
  - intros parent1 parent2 w o1 o2 w'. apply crossover_well_formed.
  - intros c w c' w' (Hn & Hm & Hp) Hrun.
    apply mutate_inv in Hrun as (Hg & Hn' & Hm' & _).
    unfold well_formed, permutation_genes in *. rewrite Hg.
    repeat split; congruence.
  - intros w. destruct (Chromosome_init_random n m w) as (c & w' & Hrun & _).
    by exists c, w'.
  - intros Hlen parent1 parent2 w Hwf1 Hwf2.
    assert (Hgenes : 2 ≤ length (genes parent1)).
    { destruct Hwf1 as (_ & _ & Hp1).
      rewrite (permutation_genes_length _ _ Hp1). lia. }
    split; [|by apply mutate_run].
    destruct (crossover_run parent1 parent2 w) as [_ Hcross].
    + destruct Hwf1 as (_ & _ & Hp1). by eapply permutation_genes_NoDup.
    + destruct Hwf1 as (_ & _ & Hp1), Hwf2 as (_ & _ & Hp2).
      unfold permutation_genes in *. by rewrite Hp1, Hp2.
    + destruct (Hcross Hgenes) as (o1 & o2 & w' & Hrun & _).
      by exists o1, o2, w'.
Qed.

Lemma parent_a_well_formed : well_formed 5 2 parent_a.
Proof.
  split; [reflexivity|]. split; [reflexivity|]. unfold permutation_genes.
  apply (bool_decide_unpack _). vm_compute. exact I.
Defined.

Lemma parent_b_well_formed : well_formed 5 2 parent_b.
Proof.
  split; [reflexivity|]. split; [reflexivity|]. unfold permutation_genes.
  apply (bool_decide_unpack _). vm_compute. exact I.
Defined.

Lemma C1_permutation_invariant_witness :
  ∃ o1 o2 w', crossover parent_a parent_b sample_world = Ok ((o1, o2), w') ∧
              well_formed 5 2 o1 ∧ well_formed 5 2 o2.
Proof.
  destruct (crossover parent_a parent_b sample_world)
    as [[[o1 o2] w']|e] eqn:Hrun.
  - exists o1, o2, w'. split; [reflexivity|].
    exact (proj1 (proj2 (C1_permutation_invariant 5 2))
             parent_a parent_b sample_world o1 o2 w'
             parent_a_well_formed parent_b_well_formed Hrun).
  - vm_compute in Hrun. discriminate Hrun.
Defined.

(* ===================================================================== *)
(** * Shape of the decoded routes, success and failure of the fitness *)
(* ===================================================================== *)

Lemma wrap_routes_wrapped (P : Z → Prop) (routes : list (list Z)) :
  Forall (Forall P) routes → Forall (wrapped P) (wrap_routes routes).
Proof.
  induction 1 as [|route rest Hroute _ IH]; [constructor|].
  destruct route as [|a route]; [exact IH|].
  cbn [wrap_routes]. constructor; [|exact IH].
  exists (a :: route). done.
Qed.

(** Every decoded route is a non-empty run of location genes between two
    depots. *)
Lemma decode_wrapped (P : Z → Prop) (n m : Z) (positions : list Z) :
  Forall P positions →
  Forall (wrapped (λ v, P v ∧ (v < n)%Z)) (decode n m positions).
Proof.
  intros Hpos. unfold decode. apply wrap_routes_wrapped.
  assert (Hsplit : ∀ l : list Z, l ⊆ positions →
            Forall (λ v, P v ∧ (v < n)%Z) (filter (is_location n) l)).
  { intros l Hl. apply Forall_forall. intros v [Hv Hin]%list_elem_of_filter.
    rewrite Forall_forall in Hpos. split; [apply Hpos, Hl, Hin | exact Hv]. }
  apply Forall_app. split.
  - generalize (merge_sort Nat.le (scan_delimiters n (n + m - 1) 0 positions)).
    intros ds.
    assert (Hgen : ∀ st0 : list (list Z) * nat,
              Forall (Forall (λ v, P v ∧ (v < n)%Z)) (fst st0) →
              Forall (Forall (λ v, P v ∧ (v < n)%Z))
                     (fst (foldl (split_step n positions) st0 ds))).
    { induction ds as [|p ds IH]; intros st0 Hst; [done|].
      cbn [foldl]. apply IH. unfold split_step, py_slice. cbn [fst].
      apply Forall_app. split; [done|]. constructor; [|constructor].
      apply Hsplit. etrans; [apply subseteq_take | apply subseteq_drop]. }
    apply Hgen. constructor.
  - constructor; [|constructor]. apply Hsplit, subseteq_drop.
Qed.

Lemma matrix_entry_raise (dm : list (list Z)) (i j : Z) (e : exn) :
  matrix_entry dm i j = Raise e → e = IndexError.
Proof.
  unfold matrix_entry. destruct (py_index dm i) as [row|e'] eqn:Hrow; cbn.
  - apply py_index_raise.
  - intros [= <-]. by eapply py_index_raise.
Qed.

Lemma route_distance_raise (dm : list (list Z)) (route : list Z) :
  ∀ acc e, route_distance_from dm acc route = Raise e → e = IndexError.
Proof.
  induction route as [|a route IH]; intros acc e; [discriminate|].
  destruct route as [|b route]; [discriminate|].
  cbn [route_distance_from].
  destruct (matrix_entry dm (matrix_index a) (matrix_index b)) as [d|e'] eqn:Hd.
  - cbn. apply IH.
  - cbn. intros [= <-]. by eapply matrix_entry_raise.
Qed.

Lemma total_distance_raise (dm : list (list Z)) (routes : list (list Z)) :
  ∀ acc e, total_distance_from dm acc routes = Raise e → e = IndexError.
Proof.
  induction routes as [|route routes IH]; intros acc e; [discriminate|].
  cbn [total_distance_from].
  destruct (route_distance_from dm 0 route) as [d|e'] eqn:Hd; cbn.
  - apply IH.
  - intros [= <-]. by eapply route_distance_raise.
Qed.

(** A successful route sum read the row of every stop but the last. *)
Lemma route_distance_reads (dm : list (list Z)) (l1 l2 : list Z) (a b : Z) :
  ∀ acc d, route_distance_from dm acc (l1 ++ a :: b :: l2) = Ok d →
  ∃ row, py_index dm (matrix_index a) = Ok row.
Proof.
  induction l1 as [|x l1 IH]; intros acc d.
  - cbn [app route_distance_from]. unfold matrix_entry.
    destruct (py_index dm (matrix_index a)) as [row|e]; [eauto | discriminate].
  - destruct l1 as [|y l1].
    + cbn [app route_distance_from] in *.
      destruct (matrix_entry dm (matrix_index x) (matrix_index a));
        [|discriminate].
      cbn. apply IH.
    + change ((x :: y :: l1) ++ a :: b :: l2)
        with (x :: y :: (l1 ++ a :: b :: l2)).
      cbn [route_distance_from].
      destruct (matrix_entry dm (matrix_index x) (matrix_index y));
        [|discriminate].
      cbn. apply IH.
Qed.

Lemma total_distance_routes (dm : list (list Z)) (routes : list (list Z)) :
  ∀ acc t, total_distance_from dm acc routes = Ok t →
  ∀ route, route ∈ routes → ∃ d, route_distance_from dm 0 route = Ok d.
Proof.
  induction routes as [|r routes IH]; intros acc t Ht route Hin.
  - by apply elem_of_nil in Hin.
  - cbn [total_distance_from] in Ht.
    destruct (route_distance_from dm 0 r) as [d|e] eqn:Hd; [|discriminate].
    cbn in Ht. apply elem_of_cons in Hin as [->|Hin]; [eauto|].
    by eapply IH.
Qed.

(** When every stop has its row and column, the sums succeed. *)
Lemma route_distance_run (dm : list (list Z)) (k : Z) (route : list Z) :
  covers dm k →
  Forall (λ s, (0 ≤ matrix_index s < k)%Z) route →
  ∀ acc, ∃ d, route_distance_from dm acc route = Ok d.
Proof.
  intros Hcov. induction 1 as [|a route Ha Hroute IH]; intros acc; [by eexists|].
  destruct route as [|b route]; [by eexists|].
  cbn [route_distance_from].
  apply Forall_cons in Hroute as [Hb _].
  destruct (Hcov _ _ Ha Hb) as [d ->]. cbn. apply IH.
Qed.

Lemma total_distance_run (dm : list (list Z)) (k : Z) (routes : list (list Z)) :
  covers dm k →
  Forall (Forall (λ s, (0 ≤ matrix_index s < k)%Z)) routes →
  ∀ acc, ∃ t, total_distance_from dm acc routes = Ok t.
Proof.
  intros Hcov. induction 1 as [|route routes Hroute _ IH]; intros acc;
    [by eexists|].
  cbn [total_distance_from].
  destruct (route_distance_run dm k route Hcov Hroute 0) as [d ->]. cbn.
  apply IH.
Qed.

Lemma calculate_fitness_inv (c c' : Chromosome) (dm : list (list Z)) (t : Z) :
  calculate_fitness c dm = Ok (c', t) →
  c' = mkChromosome (num_locations c) (num_vehicles c) (genes c) (Some t) ∧
  evaluated dm c'.
Proof.
  intros Hrun. assert (Hrun' := Hrun). unfold calculate_fitness in Hrun.
  apply rbind_ok in Hrun as (routes & Hroutes & Hrun).
  apply rbind_ok in Hrun as (total & Htotal & Hrun).
  injection Hrun as <- <-. split; [done|].
  exists total. split; [done|].
  unfold calculate_fitness, get_routes in *. cbn [genes num_locations num_vehicles].
  rewrite Hroutes. cbn. rewrite Htotal. done.
Qed.

Lemma calculate_fitness_raise (c : Chromosome) (dm : list (list Z)) (e : exn) :
  Forall is_Some (genes c) → calculate_fitness c dm = Raise e → e = IndexError.
Proof.
  intros Hgenes. unfold calculate_fitness, get_routes.
  assert (Hint : ∃ positions, int_genes (genes c) = Ok positions).
  { induction Hgenes as [|g gs [v ->] _ [positions IH]]; [by eexists|].
    cbn. rewrite IH. by eexists. }
  destruct Hint as [positions ->]. cbn.
  destruct (total_distance_from dm 0 _) as [t|e'] eqn:Ht; cbn; [discriminate|].
  intros [= <-]. by eapply total_distance_raise.
Qed.

(** With a matrix over the depot and all [n] locations, the fitness of a
    chromosome with non-negative integer genes is computed. *)
Lemma calculate_fitness_run (c : Chromosome) (dm : list (list Z))
    (positions : list Z) :
  genes c = Some <$> positions →
  Forall (λ v, (0 ≤ v)%Z) positions →
  covers dm (num_locations c + 1) →
  ∃ t, calculate_fitness c dm
       = Ok (mkChromosome (num_locations c) (num_vehicles c) (genes c) (Some t), t).
Proof.
  intros Hgenes Hpos Hcov. unfold calculate_fitness, get_routes.
  rewrite Hgenes, int_genes_fmap. cbn.
  destruct (total_distance_run dm (num_locations c + 1)
              (decode (num_locations c) (num_vehicles c) positions) Hcov) with (acc := 0%Z)
    as [t Ht].
  - eapply Forall_impl;
      [apply (decode_wrapped (λ v, (0 ≤ v)%Z) _ _ _ Hpos)|].
    intros route (r & -> & Hne & Hr).
    assert (Hn : (0 < num_locations c)%Z).
    { destruct Hr as [|v r [? ?] _]; [done | lia]. }
    apply Forall_app. split; [|apply Forall_app; split].
    + constructor; [|constructor]. cbn. lia.
    + eapply Forall_impl; [exact Hr|]. intros v [Hv0 Hvn]. unfold matrix_index.
      destruct (Z.eqb_spec v depot_index) as [->|_]; [unfold depot_index in Hv0|];
        lia.
    + constructor; [|constructor]. cbn. lia.
  - rewrite Ht. cbn. by eexists.
Qed.

Lemma well_formed_positions (n m : Z) (c : Chromosome) :
  well_formed n m c →
  ∃ positions, genes c = Some <$> positions ∧
               positions ≡ₚ seqZ 0 (n + m - 1) ∧
               Forall (λ v, (0 ≤ v)%Z) positions.
Proof.
  intros (_ & _ & Hp). apply permutation_genes_inv in Hp as (l & Hl & Hp).
  exists l. split; [done|]. split; [done|].
  rewrite Hp. apply Forall_forall. intros v Hv%elem_of_seqZ. lia.
Qed.

Lemma well_formed_fitness_run (n m : Z) (c : Chromosome) (dm : list (list Z)) :
  well_formed n m c → covers dm (n + 1) →
  ∃ t, calculate_fitness c dm
       = Ok (mkChromosome (num_locations c) (num_vehicles c) (genes c) (Some t), t).
Proof.
  intros Hwf Hcov.
  destruct (well_formed_positions n m c Hwf) as (positions & Hg & _ & Hpos).
  destruct Hwf as (Hn & _ & _). subst n.
  by eapply calculate_fitness_run.
Qed.

(** With fewer than [n + 1] rows, the fitness of a well-formed chromosome
    over [n >= 1] locations cannot be computed: customer [n - 1] is on a
    route and its row is missing. *)
Lemma well_formed_fitness_short_matrix (n m : Z) (c : Chromosome)
    (dm : list (list Z)) :
  (1 ≤ n)%Z → (1 ≤ m)%Z → (Z.of_nat (length dm) < n + 1)%Z →
  well_formed n m c → calculate_fitness c dm = Raise IndexError.
Proof.
  intros Hn Hm Hdim Hwf.
  destruct (calculate_fitness c dm) as [[c' t]|e] eqn:Hrun.
  2:{ f_equal. eapply calculate_fitness_raise; [|exact Hrun].
      destruct (well_formed_positions n m c Hwf) as (l & -> & _).
      apply Forall_fmap, Forall_true. intros v. by eexists. }
  exfalso.
  destruct (well_formed_positions n m c Hwf) as (positions & Hgenes & Hperm & _).
  destruct Hwf as (Hnc & Hmc & _).
  unfold calculate_fitness, get_routes in Hrun.
  rewrite Hgenes, int_genes_fmap, Hnc, Hmc in Hrun. cbn in Hrun.
  set (routes := decode n m positions) in *.
  assert (Hstops : stops routes ≡ₚ seqZ 0 n) by (by apply decode_serves_all).
  destruct (total_distance_from dm 0 routes) as [t'|] eqn:Ht; [|discriminate].
  clear Hrun.
  assert (Hlast : (n - 1)%Z ∈ stops routes).
  { rewrite Hstops. apply elem_of_seqZ. lia. }
  unfold stops in Hlast. apply list_elem_of_filter in Hlast as [Hnd Hlast].
  apply list_elem_of_In, in_concat in Hlast as (route & Hroute & Hin).
  apply list_elem_of_In in Hroute, Hin.
  destruct (total_distance_routes dm routes 0 t' Ht route Hroute) as [d Hd].
  assert (Hw : wrapped (λ v, True ∧ (v < n)%Z) route).
  { pose proof (decode_wrapped (λ _, True) n m positions
                  (Forall_true _ _ (λ _, I))) as Hall.
    rewrite Forall_forall in Hall. by apply Hall. }
  destruct Hw as (r & -> & _ & _).
  apply elem_of_cons in Hin as [Heq|Hin]; [done|].
  apply elem_of_app in Hin as [Hin|Hin].
  2:{ apply list_elem_of_singleton in Hin. done. }
  apply list_elem_of_split in Hin as (l1 & l2 & ->).
  assert (Hshape : ∃ b l3, l2 ++ [depot_index] = b :: l3).
  { destruct l2; cbn; eauto. }
  destruct Hshape as (b & l3 & Hshape).
  replace ([depot_index] ++ (l1 ++ (n - 1)%Z :: l2) ++ [depot_index])
    with ((depot_index :: l1) ++ (n - 1)%Z :: b :: l3) in Hd.
  2:{ rewrite <- Hshape. cbn. rewrite <- (assoc (++)). done. }
  apply route_distance_reads in Hd as [row Hrow].
  unfold matrix_index in Hrow.
  destruct (Z.eqb_spec (n - 1) depot_index) as [Heq|_]; [done|].
  unfold py_index in Hrow.
  destruct (Z.ltb_spec (n - 1 + 1) 0); [lia|].
  destruct (Z.ltb_spec (n - 1 + 1) (Z.of_nat (length dm))); [lia|].
  rewrite andb_false_r in Hrow. discriminate.
Qed.

(** * The size of the fitness *)

Lemma matrix_entry_small (dm : list (list Z)) (K B i j d : Z) :
  Forall (Forall (λ e, (Z.abs e * K ≤ B)%Z)) dm →
  matrix_entry dm i j = Ok d → (Z.abs d * K ≤ B)%Z.
Proof.
  intros Hdm Hd. unfold matrix_entry in Hd.
  apply rbind_ok in Hd as (row & Hrow & Hd).
  apply py_index_elem_of in Hrow, Hd.
  rewrite Forall_forall in Hdm. specialize (Hdm row Hrow).
  rewrite Forall_forall in Hdm. by apply Hdm.
Qed.

Lemma route_distance_small (dm : list (list Z)) (K B : Z) (route : list Z) :
  Forall (Forall (λ e, (Z.abs e * K ≤ B)%Z)) dm → (0 ≤ K)%Z →
  ∀ acc d, route_distance_from dm acc route = Ok d →
  (Z.abs (d - acc) * K ≤ Z.of_nat (length route - 1) * B)%Z.
Proof.
  intros Hdm HK. induction route as [|a route IH]; intros acc d.
  - intros [= <-]. cbn. lia.
  - destruct route as [|b route]; [intros [= <-]; cbn; lia|].
    cbn [route_distance_from]. intros Hrun.
    apply rbind_ok in Hrun as (d1 & Hd1 & Hrun).
    apply (matrix_entry_small dm K B _ _ _ Hdm) in Hd1.
    apply IH in Hrun. cbn [length] in *.
    replace (S (S (length route)) - 1) with (S (S (length route) - 1)) by lia.
    rewrite Nat2Z.inj_succ. nia.
Qed.

Lemma total_distance_small (dm : list (list Z)) (K B : Z)
    (routes : list (list Z)) :
  Forall (Forall (λ e, (Z.abs e * K ≤ B)%Z)) dm → (0 ≤ K)%Z →
  ∀ acc t, total_distance_from dm acc routes = Ok t →
  (Z.abs (t - acc) * K ≤ Z.of_nat (hops routes) * B)%Z.
Proof.
  intros Hdm HK. induction routes as [|route routes IH]; intros acc t.
  - intros [= <-]. cbn. lia.
  - cbn [total_distance_from]. intros Hrun.
    apply rbind_ok in Hrun as (d & Hd & Hrun).
    apply (route_distance_small dm K B route Hdm HK) in Hd.
    apply IH in Hrun. cbn [hops foldr]. fold (hops routes).
    rewrite Nat2Z.inj_add. nia.
Qed.

Lemma hops_wrap_routes (routes : list (list Z)) :
  hops (wrap_routes routes) ≤ 2 * length (concat routes).
Proof.
  induction routes as [|[|a route] rest IH]; [done | exact IH |].
  cbn [wrap_routes hops foldr concat]. fold (hops (wrap_routes rest)).
  rewrite !length_app. cbn [length]. lia.
Qed.

(** The decoder wraps pieces of the genes: there are at most two hops
    per gene. *)
Lemma hops_decode (n m : Z) (positions : list Z) :
  hops (decode n m positions) ≤ 2 * length positions.
Proof.
  unfold decode. etrans; [apply hops_wrap_routes|].
  rewrite merge_sort_increasing by apply scan_delimiters_increasing.
  rewrite concat_app. cbn [concat]. rewrite app_nil_r.
  rewrite (split_fold_keeps_locations n positions _ ([], 0)).
  - cbn [fst snd concat app]. rewrite drop_0.
    pose proof (length_filter (is_location n) positions). lia.
  - apply scan_delimiters_increasing.
  - eapply Forall_impl; [apply (scan_delimiters_bounds n (n + m - 1) positions 0)|].
    intros p (_ & v & Hv & Hnv). rewrite Nat.sub_0_r in Hv.
    split; [cbn; lia | exists v; done].
Qed.

(** Over a matrix with small entries the fitness of a permutation
    chromosome is in the range of the floats. *)
Lemma calculate_fitness_in_range (n m : Z) (c c' : Chromosome)
    (dm : list (list Z)) (t : Z) :
  well_formed n m c → small_matrix n m dm →
  calculate_fitness c dm = Ok (c', t) → in_float_range t.
Proof.
  intros Hwf Hsmall Hrun.
  destruct (well_formed_positions n m c Hwf) as (positions & Hgenes & Hperm & _).
  unfold calculate_fitness, get_routes in Hrun.
  rewrite Hgenes, int_genes_fmap in Hrun. cbn [mbind result_bind] in Hrun.
  apply rbind_ok in Hrun as (total & Htotal & Hrun). injection Hrun as _ <-.
  pose proof (total_distance_small dm _ _ _ Hsmall ltac:(lia) _ _ Htotal)
    as Hsize.
  pose proof (hops_decode (num_locations c) (num_vehicles c) positions) as Hhops.
  assert (Hlen : Z.of_nat (length positions) = Z.max 0 (n + m - 1)).
  { rewrite Hperm, length_seqZ. lia. }
  unfold in_float_range. rewrite Z.sub_0_r in Hsize.
  assert (Hbound : (0 ≤ float_safe_bound)%Z) by (unfold float_safe_bound; lia).
  destruct (decide (0 < n + m - 1)%Z) as [Hpos|Hzero].
  - nia.
  - destruct positions as [|v rest]; [|cbn [length] in Hlen; lia].
    vm_compute in Htotal. injection Htotal as <-. cbn. lia.
Qed.

Lemma evaluated_in_range (n m : Z) (dm : list (list Z)) (c : Chromosome) :
  well_formed n m c → small_matrix n m dm → evaluated dm c →
  fitness_in_range c.
Proof.
  intros Hwf Hsmall (t & Hfit & Hrun). exists t. split; [done|].
  by eapply calculate_fitness_in_range.
Qed.

(* ===================================================================== *)
(** * Population construction *)
(* ===================================================================== *)

Lemma Chromosome_init_random_inv (n m : Z) (w w' : World) (c : Chromosome) :
  Chromosome_init n m None w = Ok (c, w') →
  well_formed n m c ∧ same_trace w w'.
Proof.
  intros Hrun.
  destruct (Chromosome_init_random n m w)
    as (c0 & w0 & Hrun0 & Hn & Hm & _ & Hp & Ht).
  rewrite Hrun in Hrun0. injection Hrun0 as <- <-. done.
Qed.

Lemma calculate_fitness_well_formed (n m : Z) (c c' : Chromosome)
    (dm : list (list Z)) (t : Z) :
  well_formed n m c → calculate_fitness c dm = Ok (c', t) →
  well_formed n m c' ∧ evaluated dm c' ∧ genes c' = genes c.
Proof.
  intros Hwf Hrun. apply calculate_fitness_inv in Hrun as [-> Hev]. done.
Qed.

(** What [initialize_population] returns when it returns: [count] more
    chromosomes, all of them permutations with their fitness computed. *)
Lemma initialize_population_inv (n m : Z) (dm : list (list Z)) (count : nat) :
  ∀ cs w cs2 w',
  initialize_population n m dm count cs w = Ok (cs2, w') →
  ∃ cs', cs2 = cs ++ cs' ∧ length cs' = count ∧
         Forall (λ c, well_formed n m c ∧ evaluated dm c) cs' ∧
         same_trace w w'.
Proof.
  induction count as [|count IH]; intros cs w cs2 w' Hrun.
  - injection Hrun as <- <-. exists []. by rewrite app_nil_r.
  - cbn [initialize_population] in Hrun.
    apply mbind_ok in Hrun as (c & w1 & Hc & Hrun).
    apply Chromosome_init_random_inv in Hc as [Hwf Ht1].
    apply mbind_ok in Hrun as ([c' t] & w2 & Hfit & Hrun).
    apply lift_ok in Hfit as [Hfit ->].
    apply (calculate_fitness_well_formed n m) in Hfit as (Hwf' & Hev & _);
      [|done].
    apply IH in Hrun as (cs' & -> & Hlen & Hall & Ht2).
    exists (c' :: cs'). rewrite <- (assoc (++)). split; [done|].
    split; [cbn; lia|]. split; [by constructor|].
    unfold same_trace in *. congruence.
Qed.

(** With a matrix over the depot and all locations the loop does return. *)
Lemma initialize_population_run (n m : Z) (dm : list (list Z)) (count : nat) :
  covers dm (n + 1) →
  ∀ cs w, ∃ cs2 w', initialize_population n m dm count cs w = Ok (cs2, w').
Proof.
  intros Hcov. induction count as [|count IH]; intros cs w; [by eexists _, _|].
  cbn [initialize_population].
  destruct (Chromosome_init_random n m w) as (c & w1 & Hc & Hn & Hm & _ & Hp & _).
  rewrite (mbind_run _ _ _ _ _ Hc).
  destruct (well_formed_fitness_run n m c dm) as [t Ht]; [done | done |].
  rewrite Ht. cbn [lift]. unfold mbind at 1, M_bind. apply IH.
Qed.

Lemma Population_init_inv (pop_size n m : Z) (dm : list (list Z))
    (w w' : World) (p : Population) :
  Population_init pop_size n m dm w = Ok (p, w') →
  p = mkPopulation pop_size n m dm (chromosomes p) ∧
  length (chromosomes p) = Z.to_nat pop_size ∧
  Forall (λ c, well_formed n m c ∧ evaluated dm c) (chromosomes p) ∧
  same_trace w w'.
Proof.
  unfold Population_init. intros Hrun.
  apply mbind_ok in Hrun as (cs & w1 & Hcs & Hrun). injection Hrun as <- <-.
  apply initialize_population_inv in Hcs as (cs' & -> & Hlen & Hall & Ht).
  done.
Qed.

Lemma Population_init_run (pop_size n m : Z) (dm : list (list Z)) (w : World) :
  covers dm (n + 1) → ∃ p w', Population_init pop_size n m dm w = Ok (p, w').
Proof.
  intros Hcov. unfold Population_init.
  destruct (initialize_population_run n m dm (Z.to_nat pop_size) Hcov [] w)
    as (cs & w' & Hcs).
  rewrite (mbind_run _ _ _ _ _ Hcs). by eexists _, _.
Qed.

(** C8: with at least one location, one vehicle and one chromosome to
    build, a distance matrix of fewer than numLocations+1 rows (so every
    square matrix of a smaller dimension) makes Population construction
    raise IndexError, in the first fitness evaluation; no Population, hence
    no engine, comes to exist. *)
Theorem C8_short_matrix_rejected (pop_size n m : Z) (dm : list (list Z))
    (w : World) :
  (1 ≤ n)%Z → (1 ≤ m)%Z → (1 ≤ pop_size)%Z →
  (Z.of_nat (length dm) < n + 1)%Z →
  Population_init pop_size n m dm w = Raise IndexError.
Proof.
  intros Hn Hm Hpop Hdim. unfold Population_init.
  apply mbind_raise.
  destruct (Z.to_nat pop_size) as [|count] eqn:Hcount; [lia|].
  cbn [initialize_population].
  destruct (Chromosome_init_random n m w) as (c & w1 & Hc & Hnc & Hmc & _ & Hp & _).
  rewrite (mbind_run _ _ _ _ _ Hc).
  apply mbind_raise.
  rewrite (well_formed_fitness_short_matrix n m c dm); done.
Qed.

Lemma C8_short_matrix_rejected_witness :
  Population_init 4 5 2 [[0; 2; 5]; [2; 0; 3]; [2; 3; 0]]%Z sample_world
  = Raise IndexError.
Proof.
  apply C8_short_matrix_rejected; [lia | lia | lia | cbn; lia].
Defined.

(* ===================================================================== *)
(** * Sorting by fitness, best chromosome, average *)
(* ===================================================================== *)

Lemma insert_by_fitness_Permutation (x : Chromosome) (l : list Chromosome) :
  insert_by_fitness x l ≡ₚ x :: l.
Proof.
  induction l as [|y l IH]; [done|]. cbn.
  destruct (fitness_key y <? fitness_key x)%Z; [|done].
  rewrite IH. apply Permutation_swap.
Qed.

Lemma sort_by_fitness_Permutation (l : list Chromosome) :
  foldr insert_by_fitness [] l ≡ₚ l.
Proof.
  induction l as [|x l IH]; [done|]. cbn.
  by rewrite insert_by_fitness_Permutation, IH.
Qed.

Lemma insert_by_fitness_sorted (x : Chromosome) (l : list Chromosome) :
  StronglySorted fitness_le l → StronglySorted fitness_le (insert_by_fitness x l).
Proof.
  induction 1 as [|y l Hl IH Hy]; cbn.
  - repeat constructor.
  - destruct (Z.ltb_spec (fitness_key y) (fitness_key x)) as [Hlt|Hge].
    + constructor; [done|].
      rewrite insert_by_fitness_Permutation. constructor; [|done].
      unfold fitness_le. lia.
    + constructor; [by constructor|]. constructor; [done|].
      eapply Forall_impl; [exact Hy|]. unfold fitness_le. intros z Hz. lia.
Qed.

Lemma sort_by_fitness_sorted (l : list Chromosome) :
  StronglySorted fitness_le (foldr insert_by_fitness [] l).
Proof.
  induction l as [|x l IH]; [constructor|]. cbn.
  by apply insert_by_fitness_sorted.
Qed.

Lemma sorted_by_fitness_inv (l s : list Chromosome) :
  sorted_by_fitness l = Ok s →
  s = foldr insert_by_fitness [] l ∧ s ≡ₚ l ∧ StronglySorted fitness_le s ∧
  (2 ≤ length l → Forall (λ c, is_Some (fitness c)) l).
Proof.
  unfold sorted_by_fitness.
  destruct ((2 <=? length l) && existsb has_no_fitness l) eqn:Hbad;
    [discriminate|].
  intros [= <-]. split; [done|].
  split; [apply sort_by_fitness_Permutation|].
  split; [apply sort_by_fitness_sorted|].
  intros Hlen. apply andb_false_iff in Hbad as [Hbad|Hbad].
  { apply Nat.leb_gt in Hbad. lia. }
  apply Forall_forall. intros c Hc.
  destruct (fitness c) as [f|] eqn:Hf; [by eexists|].
  assert (existsb has_no_fitness l = true); [|congruence].
  apply existsb_exists. exists c. split; [by apply list_elem_of_In|].
  unfold has_no_fitness. by rewrite Hf.
Qed.

Lemma sorted_by_fitness_run (l : list Chromosome) :
  Forall (λ c, is_Some (fitness c)) l →
  sorted_by_fitness l = Ok (foldr insert_by_fitness [] l).
Proof.
  intros Hall. unfold sorted_by_fitness.
  assert (Hnone : existsb has_no_fitness l = false).
  { induction Hall as [|c l [f Hf] _ IH]; [done|].
    cbn. unfold has_no_fitness at 1. by rewrite Hf. }
  rewrite Hnone, andb_false_r. done.
Qed.

Lemma sum_fitness_inv (l : list Chromosome) :
  ∀ acc t, sum_fitness acc l = Ok t → Forall (λ c, is_Some (fitness c)) l.
Proof.
  induction l as [|c l IH]; intros acc t Hrun; [constructor|].
  cbn in Hrun. destruct (fitness c) as [f|] eqn:Hf; [|discriminate].
  constructor; [by eexists | by eapply IH].
Qed.

Lemma sum_fitness_run (l : list Chromosome) :
  Forall (λ c, is_Some (fitness c)) l → ∀ acc, ∃ t, sum_fitness acc l = Ok t.
Proof.
  induction 1 as [|c l [f Hf] _ IH]; intros acc; [by eexists|].
  cbn. rewrite Hf. apply IH.
Qed.

Lemma get_average_fitness_inv (p : Population) (q : Q) :
  get_average_fitness p = Ok q → Forall (λ c, is_Some (fitness c)) (chromosomes p).
Proof.
  unfold get_average_fitness. destruct (chromosomes p) as [|c cs] eqn:Hcs;
    [constructor|].
  intros Hrun. apply rbind_ok in Hrun as (t & Ht & _).
  by eapply sum_fitness_inv.
Qed.

Lemma sum_fitness_lower (lo : Z) (l : list Chromosome) : ∀ acc t,
  sum_fitness acc l = Ok t →
  (∀ c f, c ∈ l → fitness c = Some f → (lo ≤ f)%Z) →
  (acc + Z.of_nat (length l) * lo ≤ t)%Z.
Proof.
  induction l as [|x l IH]; intros acc t Hsum Hbound.
  - injection Hsum as <-. cbn. lia.
  - cbn [sum_fitness] in Hsum.
    destruct (fitness x) as [f|] eqn:Hf; [|discriminate].
    apply IH in Hsum.
    + assert (lo ≤ f)%Z by (apply (Hbound x); [by left | done]).
      cbn [length]. lia.
    + intros c f' Hc. apply Hbound. by right.
Qed.

Lemma sum_fitness_upper (hi : Z) (l : list Chromosome) : ∀ acc t,
  sum_fitness acc l = Ok t →
  (∀ c f, c ∈ l → fitness c = Some f → (f ≤ hi)%Z) →
  (t ≤ acc + Z.of_nat (length l) * hi)%Z.
Proof.
  induction l as [|x l IH]; intros acc t Hsum Hbound.
  - injection Hsum as <-. cbn. lia.
  - cbn [sum_fitness] in Hsum.
    destruct (fitness x) as [f|] eqn:Hf; [|discriminate].
    apply IH in Hsum.
    + assert (f ≤ hi)%Z by (apply (Hbound x); [by left | done]).
      cbn [length]. lia.
    + intros c f' Hc. apply Hbound. by right.
Qed.

Lemma fitness_in_range_is_Some (l : list Chromosome) :
  Forall fitness_in_range l → Forall (λ c, is_Some (fitness c)) l.
Proof.
  intros Hall. eapply Forall_impl; [exact Hall|].
  intros c (f & Hf & _). by exists f.
Qed.

(** The sum of fitness values within the range, divided by their number,
    is within the range. *)
Lemma sum_fitness_in_range (l : list Chromosome) (t : Z) :
  Forall fitness_in_range l → sum_fitness 0 l = Ok t →
  (Z.abs t ≤ float_safe_bound * Z.abs (Z.of_nat (length l)))%Z.
Proof.
  intros Hall Ht.
  pose proof (sum_fitness_lower (- float_safe_bound) l 0 t Ht) as Hlo.
  pose proof (sum_fitness_upper float_safe_bound l 0 t Ht) as Hhi.
  rewrite Forall_forall in Hall.
  assert (Hin : ∀ c f, c ∈ l → fitness c = Some f →
                       (- float_safe_bound ≤ f ≤ float_safe_bound)%Z).
  { intros c f Hc Hf. destruct (Hall c Hc) as (f' & Hf' & Hr).
    unfold in_float_range in Hr. assert (f' = f) as -> by congruence. lia. }
  assert (- float_safe_bound * Z.of_nat (length l) ≤ t)%Z.
  { etrans; [|apply Hlo; intros c f Hc Hf; by apply (Hin c f)]. lia. }
  assert (t ≤ float_safe_bound * Z.of_nat (length l))%Z.
  { etrans; [apply Hhi; intros c f Hc Hf; by apply (Hin c f)|]. lia. }
  lia.
Qed.

Lemma get_average_fitness_run (p : Population) :
  Forall fitness_in_range (chromosomes p) →
  ∃ q, get_average_fitness p = Ok q.
Proof.
  intros Hall. unfold get_average_fitness.
  destruct (chromosomes p) as [|c cs] eqn:Hcs; [by eexists|].
  destruct (sum_fitness_run _ (fitness_in_range_is_Some _ Hall) 0%Z)
    as [t Ht].
  rewrite Ht. cbn [mbind result_bind].
  apply py_true_div_safe; [cbn [length]; lia|].
  by apply sum_fitness_in_range.
Qed.

(** The average fails on a chromosome without fitness, or because it is
    beyond the range of the floats. *)
Lemma get_average_fitness_raise (p : Population) (e : exn) :
  get_average_fitness p = Raise e →
  chromosomes p ≠ [] ∧
  ((e = TypeError ∧ ∃ c, c ∈ chromosomes p ∧ fitness c = None) ∨
   (e = OverflowError ∧
    Forall (λ c, is_Some (fitness c)) (chromosomes p))).
Proof.
  unfold get_average_fitness.
  destruct (chromosomes p) as [|c0 cs] eqn:Hcs; [discriminate|].
  intros Hrun. split; [done|].
  destruct (sum_fitness 0 (c0 :: cs)) as [t|e'] eqn:Ht.
  - right. cbn [mbind result_bind] in Hrun.
    apply py_true_div_raise in Hrun as [[_ Hz]|[-> _]];
      [cbn [length] in Hz; lia|].
    split; [done|]. by eapply sum_fitness_inv.
  - left. injection Hrun as <-. clear Hcs.
    revert Ht. generalize 0%Z. induction (c0 :: cs) as [|x l IH]; intros acc;
      [discriminate|].
    cbn [sum_fitness]. destruct (fitness x) as [f|] eqn:Hf.
    + intros Hl. destruct (IH _ Hl) as (-> & c & Hc & Hnone).
      split; [done|]. exists c. split; [by right | done].
    + intros [= <-]. split; [done|]. exists x. split; [by left | done].
Qed.

(** The head of the sorted population is in the population and no key is
    below its key. *)
Lemma find_best_chromosome_inv (p : Population) (best : option Chromosome) :
  find_best_chromosome p = Ok best →
  match best with
  | None => chromosomes p = []
  | Some b => b ∈ chromosomes p ∧
              ∀ c, c ∈ chromosomes p → (fitness_key b ≤ fitness_key c)%Z
  end.
Proof.
  unfold find_best_chromosome. destruct (chromosomes p) as [|c0 cs] eqn:Hcs.
  { by intros [= <-]. }
  intros Hrun. apply rbind_ok in Hrun as (s & Hs & Hrun).
  injection Hrun as <-.
  apply sorted_by_fitness_inv in Hs as (_ & Hperm & Hsorted & _).
  destruct s as [|b s]; cbn.
  { apply Permutation_length in Hperm. discriminate. }
  split.
  - rewrite <- Hperm. by left.
  - intros c Hc. rewrite <- Hperm in Hc.
    apply StronglySorted_inv in Hsorted as [_ Hb].
    apply elem_of_cons in Hc as [->|Hc]; [lia|].
    rewrite Forall_forall in Hb. by apply Hb.
Qed.

Lemma find_best_chromosome_run (p : Population) :
  chromosomes p ≠ [] →
  Forall (λ c, is_Some (fitness c)) (chromosomes p) →
  ∃ b, find_best_chromosome p = Ok (Some b).
Proof.
  intros Hne Hall. unfold find_best_chromosome.
  destruct (chromosomes p) as [|c0 cs] eqn:Hcs; [done|].
  rewrite (sorted_by_fitness_run _ Hall). cbn [mbind result_bind].
  destruct (foldr insert_by_fitness [] (c0 :: cs)) as [|b s] eqn:Hs.
  - pose proof (sort_by_fitness_Permutation (c0 :: cs)) as Hperm.
    rewrite Hs in Hperm. apply Permutation_length in Hperm. discriminate.
  - by eexists.
Qed.

Lemma best_at_most_all (b : Chromosome) (cs : list Chromosome) :
  is_Some (fitness b) →
  Forall (λ c, is_Some (fitness c)) cs →
  (∀ c, c ∈ cs → (fitness_key b ≤ fitness_key c)%Z) →
  at_most_all b cs.
Proof.
  intros [f Hf] Hall Hmin. exists f. split; [done|].
  intros c Hc. rewrite Forall_forall in Hall.
  destruct (Hall c Hc) as [f' Hf']. exists f'. split; [done|].
  specialize (Hmin c Hc). unfold fitness_key in Hmin.
  rewrite Hf, Hf' in Hmin. exact Hmin.
Qed.

(** * Engine construction *)

Lemma Genetic_init_inv (p : Population) (G : Z) (rate : Q) (e : Z) (g : Genetic) :
  Genetic_init p G rate e = Ok g →
  population g = p ∧ max_generations g = G ∧ mutation_rate g = rate ∧
  elitism_size g = e ∧ current_generation g = 0%Z ∧
  best_solution g ∈ chromosomes p ∧
  at_most_all (best_solution g) (chromosomes p) ∧
  best_fitness_history g = [fitness (best_solution g)] ∧
  length (avg_fitness_history g) = 1.
Proof.
  unfold Genetic_init. intros Hrun.
  apply rbind_ok in Hrun as (best & Hbest & Hrun).
  apply find_best_chromosome_inv in Hbest.
  destruct best as [b|]; [|discriminate].
  apply rbind_ok in Hrun as (avg & Havg & Hrun). injection Hrun as <-.
  cbn. destruct Hbest as [Hin Hmin].
  apply get_average_fitness_inv in Havg.
  repeat (split; [done|]). split; [|done].
  apply best_at_most_all; [|done|done].
  rewrite Forall_forall in Havg. by apply Havg.
Qed.

Lemma Genetic_init_run (p : Population) (G : Z) (rate : Q) (e : Z) :
  chromosomes p ≠ [] →
  Forall fitness_in_range (chromosomes p) →
  ∃ g, Genetic_init p G rate e = Ok g.
Proof.
  intros Hne Hall. unfold Genetic_init.
  destruct (find_best_chromosome_run p Hne (fitness_in_range_is_Some _ Hall))
    as [b ->].
  destruct (get_average_fitness_run p Hall) as [q ->]. by eexists.
Qed.

Lemma Genetic_init_empty (p : Population) (G : Z) (rate : Q) (e : Z) :
  chromosomes p = [] → Genetic_init p G rate e = Raise AttributeError.
Proof.
  intros Hnil. unfold Genetic_init, find_best_chromosome. by rewrite Hnil.
Qed.

(* ===================================================================== *)
(** * Selection and one round of reproduction *)
(* ===================================================================== *)

Lemma sample_2_inv {A} (l : list A) (w w' : World) (r : list A) :
  sample_2 l w = Ok (r, w') →
  ∃ i j a b, r = [a; b] ∧ i ≠ j ∧ l !! i = Some a ∧ l !! j = Some b ∧
             same_trace w w'.
Proof.
  unfold sample_2. intros Hrun.
  apply mbind_ok in Hrun as ([i j] & w1 & Hs & Hrun).
  apply sample_range_2_inv in Hs as (_ & _ & Hne & Ht).
  apply mbind_ok in Hrun as (a & w2 & Ha & Hrun).
  apply lift_ok in Ha as [Ha ->].
  apply mbind_ok in Hrun as (b & w3 & Hb & Hrun).
  apply lift_ok in Hb as [Hb ->].
  injection Hrun as <- <-.
  apply py_index_nat_ok in Ha, Hb. by exists i, j, a, b.
Qed.

Lemma sample_2_run {A} (l : list A) (w : World) :
  2 ≤ length l → ∃ r w', sample_2 l w = Ok (r, w').
Proof.
  intros Hlen. unfold sample_2.
  destruct (sample_range_2_run _ w Hlen) as (i & j & w1 & Hs).
  rewrite (mbind_run _ _ _ _ _ Hs). cbn beta iota.
  apply sample_range_2_inv in Hs as (Hi & Hj & _ & _).
  destruct (lookup_lt_is_Some_2 l i Hi) as [a Ha].
  destruct (lookup_lt_is_Some_2 l j Hj) as [b Hb].
  rewrite (py_index_lookup _ _ _ Ha), (py_index_lookup _ _ _ Hb).
  by eexists _, _.
Qed.

Lemma sample_2_raise {A} (l : list A) (w : World) :
  length l < 2 → sample_2 l w = Raise ValueError.
Proof.
  intros Hlen. unfold sample_2. apply mbind_raise.
  by apply sample_range_2_raise.
Qed.

Lemma random_choice_inv {A} (l : list A) (w w' : World) (x : A) :
  random_choice l w = Ok (x, w') → x ∈ l ∧ same_trace w w'.
Proof.
  unfold random_choice. destruct l as [|y l]; [discriminate|].
  intros Hrun. apply mbind_ok in Hrun as (i & w1 & Hi & Hrun).
  destruct (randbelow_run (length (y :: l)) w) as (i' & w1' & Hi' & _ & Ht).
  rewrite Hi in Hi'. injection Hi' as <- <-.
  apply lift_ok in Hrun as [Hx ->]. apply py_index_nat_ok in Hx.
  split; [|done]. apply list_elem_of_lookup. eauto.
Qed.

Lemma random_choice_run {A} (l : list A) (w : World) :
  l ≠ [] → ∃ x w', random_choice l w = Ok (x, w').
Proof.
  intros Hne. unfold random_choice. destruct l as [|y l]; [done|].
  destruct (randbelow_run (length (y :: l)) w) as (i & w1 & Hi & Hlt & _).
  rewrite (mbind_run _ _ _ _ _ Hi).
  destruct (lookup_lt_is_Some_2 (y :: l) i) as [x Hx]; [cbn in *; lia|].
  rewrite (py_index_lookup _ _ _ Hx). by eexists _, _.
Qed.

Lemma random_random_run (w : World) :
  ∃ r w', random_random w = Ok (r, w') ∧ same_trace w w'.
Proof. by eexists _, _. Qed.

(** The loop of [selection] returns two chromosomes when it starts from
    none; each won a tournament. *)
Lemma selection_loop_inv (p : Population) (fuel : nat) :
  ∀ selected w sel w',
  selection_loop p fuel selected w = Ok (sel, w') →
  ∃ extra, sel = selected ++ extra ∧
           Forall (tournament_winner (chromosomes p)) extra ∧
           (length selected ≤ 2 → length sel = 2) ∧
           same_trace w w'.
Proof.
  induction fuel as [|fuel IH]; intros selected w sel w' Hrun;
    cbn [selection_loop] in Hrun;
    destruct (Nat.ltb_spec (length selected) select_count) as [Hlt|Hge];
    cbn [negb] in Hrun.
  - discriminate.
  - injection Hrun as <- <-. exists []. rewrite app_nil_r.
    unfold select_count in Hge. repeat split; [constructor | lia].
  - apply mbind_ok in Hrun as (contenders & w1 & Hs & Hrun).
    apply sample_2_inv in Hs as (i & j & a & b & -> & Hne & Ha & Hb & Ht1).
    apply mbind_ok in Hrun as (c0 & w2 & Hc0 & Hrun).
    apply lift_ok in Hc0 as [[= <-] ->].
    apply mbind_ok in Hrun as (c1 & w3 & Hc1 & Hrun).
    apply lift_ok in Hc1 as [[= <-] ->].
    apply mbind_ok in Hrun as (le & w4 & Hle & Hrun).
    apply lift_ok in Hle as [Hle ->].
    apply IH in Hrun as (extra & -> & Hall & Hlen & Ht2).
    unfold py_le in Hle.
    destruct (fitness a) as [fa|] eqn:Hfa; [|discriminate].
    destruct (fitness b) as [fb|] eqn:Hfb; [|discriminate].
    injection Hle as <-.
    exists ((if (fa <=? fb)%Z then a else b) :: extra).
    rewrite <- (assoc (++)). split; [done|]. split.
    { constructor; [|done]. destruct (Z.leb_spec fa fb).
      - exists i, j, b, fa, fb. done.
      - exists j, i, a, fb, fa. repeat split; try done; lia. }
    split.
    { intros _. rewrite (assoc (++)). apply Hlen. rewrite length_app. cbn.
      unfold select_count in Hlt. lia. }
    unfold same_trace in *. congruence.
  - injection Hrun as <- <-. exists []. rewrite app_nil_r.
    unfold select_count in Hge. repeat split; [constructor | lia].
Qed.

Lemma selection_inv (g : Genetic) (w w' : World) (selected : list Chromosome) :
  selection g w = Ok (selected, w') →
  ∃ s1 s2, selected = [s1; s2] ∧
           tournament_winner (chromosomes (population g)) s1 ∧
           tournament_winner (chromosomes (population g)) s2 ∧
           trace w' = trace w ++ [EvSelection selected].
Proof.
  unfold selection. intros Hrun.
  apply mbind_ok in Hrun as (sel & w1 & Hsel & Hrun).
  apply selection_loop_inv in Hsel as (extra & Heq & Hall & Hlen & Ht).
  cbn [app] in Heq. subst extra.
  rewrite (mbind_run _ _ _ _ _ (log_run _ w1)) in Hrun.
  injection Hrun as <- <-. cbn [trace]. rewrite Ht.
  specialize (Hlen ltac:(cbn; lia)).
  destruct sel as [|s1 [|s2 [|s3 sel]]]; try discriminate.
  apply Forall_cons in Hall as [H1 Hall].
  apply Forall_cons in Hall as [H2 _].
  by exists s1, s2.
Qed.

Lemma selection_loop_run (p : Population) (fuel : nat) :
  2 ≤ length (chromosomes p) →
  Forall (λ c, is_Some (fitness c)) (chromosomes p) →
  ∀ selected w, 2 - length selected ≤ fuel →
  ∃ sel w', selection_loop p fuel selected w = Ok (sel, w').
Proof.
  intros Hlen Hall.
  induction fuel as [|fuel IH]; intros selected w Hfuel;
    cbn [selection_loop];
    destruct (Nat.ltb_spec (length selected) select_count) as [Hlt|Hge];
    cbn [negb]; unfold select_count in *; try lia; try by eexists _, _.
  destruct (sample_2_run (chromosomes p) w Hlen) as (r & w1 & Hr).
  rewrite (mbind_run _ _ _ _ _ Hr).
  apply sample_2_inv in Hr as (i & j & a & b & -> & _ & Ha & Hb & _).
  rewrite Forall_forall in Hall.
  destruct (Hall a) as [fa Hfa]; [apply list_elem_of_lookup; eauto|].
  destruct (Hall b) as [fb Hfb]; [apply list_elem_of_lookup; eauto|].
  rewrite (mbind_lift _ a) by reflexivity.
  rewrite (mbind_lift _ b) by reflexivity.
  rewrite (mbind_lift _ (fa <=? fb)%Z) by (by rewrite Hfa, Hfb).
  apply IH. rewrite length_app. cbn. lia.
Qed.

Lemma selection_run (g : Genetic) (w : World) :
  2 ≤ length (chromosomes (population g)) →
  Forall (λ c, is_Some (fitness c)) (chromosomes (population g)) →
  ∃ selected w', selection g w = Ok (selected, w').
Proof.
  intros Hlen Hall. unfold selection.
  destruct (selection_loop_run (population g) select_count Hlen Hall [] w)
    as (sel & w1 & Hsel); [unfold select_count; cbn; lia|].
  rewrite (mbind_run _ _ _ _ _ Hsel). by eexists _, _.
Qed.

Lemma crossover_trace (parent1 parent2 o1 o2 : Chromosome) (w w' : World) :
  crossover parent1 parent2 w = Ok ((o1, o2), w') →
  trace w' = trace w ++ [EvCrossover parent1 parent2].
Proof.
  unfold crossover. rewrite (mbind_run _ _ _ _ _ (log_run _ w)). intros Hrun.
  apply mbind_ok in Hrun as ([a b] & w1 & Hs & Hrun).
  apply sample_range_2_inv in Hs as (_ & _ & _ & Ht).
  apply mbind_ok in Hrun as (g1 & w2 & Hg1 & Hrun).
  apply lift_ok in Hg1 as [_ ->].
  apply mbind_ok in Hrun as (g2 & w3 & Hg2 & Hrun).
  apply lift_ok in Hg2 as [_ ->].
  injection Hrun as <- <- <-. exact Ht.
Qed.

(** The genes after a mutation are the genes before it with two different
    positions exchanged. *)
Lemma mutate_swap (c c' : Chromosome) (w w' : World) :
  mutate c w = Ok (c', w') →
  ∃ pos1 pos2, pos1 ≠ pos2 ∧ py_swap (genes c) pos1 pos2 = Ok (genes c').
Proof.
  unfold mutate. intros H.
  apply mbind_ok in H as ([pos1 pos2] & w1 & Hs & H).
  apply sample_range_2_inv in Hs as (_ & _ & Hne & _).
  apply mbind_ok in H as (g & w2 & Hg & H).
  apply lift_ok in Hg as [Hg ->].
  injection H as <- <-. by exists pos1, pos2.
Qed.

Lemma add_offspring_inv (g : Genetic) (o : Chromosome)
    (new_population np' : list Chromosome) (w w' : World) :
  add_offspring g o new_population w = Ok (np', w') →
  ∃ c, np' = new_population ++ [c] ∧
       offspring_of (distance_matrix (population g)) o c ∧ same_trace w w'.
Proof.
  unfold add_offspring. intros Hrun.
  apply mbind_ok in Hrun as (r & w1 & Hr & Hrun).
  assert (Ht1 : same_trace w w1) by (by injection Hr as <- <-).
  apply mbind_ok in Hrun as (o' & w2 & Ho' & Hrun).
  assert (Ho : (genes o' = genes o ∨
                ∃ pos1 pos2, pos1 ≠ pos2 ∧
                             py_swap (genes o) pos1 pos2 = Ok (genes o')) ∧
               num_locations o' = num_locations o ∧
               num_vehicles o' = num_vehicles o ∧ same_trace w1 w2).
  { destruct (Qlt_le_dec r (mutation_rate g)).
    - assert (Hswap := mutate_swap _ _ _ _ Ho').
      apply mutate_inv in Ho' as (_ & ? & ? & _ & ?). split; [by right | done].
    - injection Ho' as <- <-. split; [by left | done]. }
  destruct Ho as (Hg & Hn & Hm & Ht2).
  apply mbind_ok in Hrun as ([c t] & w3 & Hc & Hrun).
  apply lift_ok in Hc as [Hc ->]. injection Hrun as <- <-.
  apply calculate_fitness_inv in Hc as [-> Hev].
  eexists. split; [done|]. split.
  - split; [exact Hev|]. cbn. done.
  - unfold same_trace in *. congruence.
Qed.

(** One turn of the reproduction loop never takes the [break] and does
    what [round_outcome] says. *)
Lemma reproduce_inv (g : Genetic) (new_population : list Chromosome)
    (w w' : World) (r : option (list Chromosome)) :
  reproduce g new_population w = Ok (r, w') →
  round_outcome g new_population w r w'.
Proof.
  unfold reproduce. intros Hrun.
  apply mbind_ok in Hrun as (selected & w1 & Hsel & Hrun).
  assert (Hsel' := Hsel).
  apply selection_inv in Hsel' as (s1 & s2 & -> & Hs1 & Hs2 & Ht1).
  cbn [length Nat.ltb Nat.leb] in Hrun.
  apply mbind_ok in Hrun as (parent1 & w2 & Hc1 & Hrun).
  assert (Hp1 := Hc1). apply random_choice_inv in Hp1 as [Hp1 Ht2].
  apply mbind_ok in Hrun as (parent2 & w3 & Hc2 & Hrun).
  assert (Hp2 := Hc2). apply random_choice_inv in Hp2 as [Hp2 Ht3].
  apply mbind_ok in Hrun as ([o1 o2] & w4 & Hcross & Hrun).
  assert (Ht4 := crossover_trace _ _ _ _ _ _ Hcross).
  apply mbind_ok in Hrun as (np1 & w5 & Hadd1 & Hrun).
  assert (Hadd1' := Hadd1).
  apply add_offspring_inv in Hadd1' as (c1 & -> & Ho1 & Ht5).
  exists s1, s2, parent1, parent2, o1, o2, c1, w1, w2, w3, w4, w5.
  do 9 (split; [done|]).
  rewrite length_app in Hrun. cbn [length] in Hrun.
  destruct (Z.ltb_spec (Z.of_nat (length new_population + 1))
                       (pop_size (population g))) as [Hlt|Hge].
  - apply mbind_ok in Hrun as (np2 & w6 & Hadd2 & Hrun).
    assert (Hadd2' := Hadd2).
    apply add_offspring_inv in Hadd2' as (c2 & -> & Ho2 & Ht6).
    injection Hrun as <- <-.
    split. { unfold same_trace in *. rewrite Ht6, Ht5, Ht4, Ht3, Ht2, Ht1.
             by rewrite <- (assoc (++)). }
    split; [done|]. right. exists c2.
    rewrite <- (assoc (++)) in Hadd2. cbn [app] in Hadd2.
    rewrite <- (assoc (++)). split; [done|]. split; [done|].
    split; [lia | done].
  - injection Hrun as <- <-.
    split. { unfold same_trace in *. rewrite Ht5, Ht4, Ht3, Ht2, Ht1.
             by rewrite <- (assoc (++)). }
    split; [done|]. left. split; [done|]. split; [done | lia].
Qed.

(* ===================================================================== *)
(** * One generation *)
(* ===================================================================== *)

Lemma tournament_winner_elem (pop : list Chromosome) (s : Chromosome) :
  tournament_winner pop s → s ∈ pop.
Proof.
  intros (i & _ & _ & _ & _ & _ & Hs & _). apply list_elem_of_lookup. eauto.
Qed.

Lemma offspring_of_well_formed (n m : Z) (dm : list (list Z)) (o c : Chromosome) :
  well_formed n m o → offspring_of dm o c → well_formed n m c.
Proof.
  intros (Hn & Hm & Hp) (_ & Hn' & Hm' & Hg).
  assert (Hperm : genes c ≡ₚ genes o).
  { destruct Hg as [->|(pos1 & pos2 & _ & Hswap)]; [done|].
    by apply py_swap_inv in Hswap as [? _]. }
  unfold well_formed, permutation_genes in *. rewrite Hperm.
  repeat split; congruence.
Qed.

(** The chromosomes a round appends are evaluated, and permutations when
    the population holds permutations. *)
Lemma round_outcome_offspring (g : Genetic) (np : list Chromosome)
    (w w' : World) (r : option (list Chromosome)) :
  round_outcome g np w r w' →
  ∃ np' extra, r = Some np' ∧ np' = np ++ extra ∧ extra ≠ [] ∧
    Forall (evaluated (distance_matrix (population g))) extra ∧
    (Z.of_nat (length np) < pop_size (population g) →
     Z.of_nat (length np') ≤ pop_size (population g))%Z ∧
    (∀ n m, Forall (well_formed n m) (chromosomes (population g)) →
            Forall (well_formed n m) extra).
Proof.
  intros (s1 & s2 & p1 & p2 & o1 & o2 & c1 & w1 & w2 & w3 & w4 & w5 &
          _ & _ & _ & Hcross & _ & Hs1 & Hs2 & Hp1 & Hp2 & _ & Hc1 & Hr).
  assert (Hwf : ∀ n m, Forall (well_formed n m) (chromosomes (population g)) →
                       well_formed n m o1 ∧ well_formed n m o2).
  { intros n m Hall. rewrite Forall_forall in Hall.
    apply tournament_winner_elem, Hall in Hs1.
    apply tournament_winner_elem, Hall in Hs2.
    eapply crossover_well_formed; [| |exact Hcross].
    - apply elem_of_cons in Hp1 as [->|Hp1]; [done|].
      apply list_elem_of_singleton in Hp1 as ->. done.
    - apply elem_of_cons in Hp2 as [->|Hp2]; [done|].
      apply list_elem_of_singleton in Hp2 as ->. done. }
  destruct Hr as [(-> & _ & Hlen)|(c2 & -> & _ & Hlen & Hc2)].
  - exists (np ++ [c1]), [c1]. repeat split; try done.
    + constructor; [apply Hc1 | constructor].
    + rewrite length_app. cbn. lia.
    + intros n m Hall. constructor; [|constructor].
      exact (offspring_of_well_formed n m _ o1 c1 (proj1 (Hwf n m Hall)) Hc1).
  - exists (np ++ [c1; c2]), [c1; c2]. repeat split; try done.
    + constructor; [apply Hc1 | constructor; [apply Hc2 | constructor]].
    + rewrite length_app. cbn. lia.
    + intros n m Hall. destruct (Hwf n m Hall) as [Ho1 Ho2].
      constructor; [exact (offspring_of_well_formed n m _ o1 c1 Ho1 Hc1)|].
      constructor; [exact (offspring_of_well_formed n m _ o2 c2 Ho2 Hc2)|].
      constructor.
Qed.

Lemma reproduction_loop_inv (g : Genetic) (fuel : nat) :
  ∀ np w np' w',
  reproduction_loop g fuel np w = Ok (np', w') →
  ∃ extra, np' = np ++ extra ∧
    Forall (evaluated (distance_matrix (population g))) extra ∧
    ((Z.of_nat (length np) ≤ pop_size (population g))%Z →
     Z.of_nat (length np') = pop_size (population g)) ∧
    (pop_size (population g) ≤ Z.of_nat (length np'))%Z ∧
    (∀ n m, Forall (well_formed n m) (chromosomes (population g)) →
            Forall (well_formed n m) extra).
Proof.
  induction fuel as [|fuel IH]; intros np w np' w' Hrun;
    cbn [reproduction_loop] in Hrun;
    destruct (Z.ltb_spec (Z.of_nat (length np)) (pop_size (population g)))
      as [Hlt|Hge]; cbn [negb] in Hrun.
  - discriminate.
  - injection Hrun as <- <-. exists []. rewrite app_nil_r.
    split; [done|]. split; [constructor|]. split; [lia|].
    split; [lia | constructor].
  - apply mbind_ok in Hrun as (r & w1 & Hr & Hrun).
    apply reproduce_inv, round_outcome_offspring in Hr
      as (np1 & extra1 & -> & -> & _ & Hev1 & Hlen1 & Hwf1).
    apply IH in Hrun as (extra2 & -> & Hev2 & Hlen2 & Hge2 & Hwf2).
    exists (extra1 ++ extra2). rewrite (assoc (++)). split; [done|].
    split; [by apply Forall_app|]. split; [|split; [done|]].
    + intros _. apply Hlen2. apply Hlen1. lia.
    + intros n m Hall. apply Forall_app. split; [by apply Hwf1 | by apply Hwf2].
  - injection Hrun as <- <-. exists []. rewrite app_nil_r.
    split; [done|]. split; [constructor|]. split; [lia|].
    split; [lia | constructor].
Qed.

Lemma create_next_generation_inv (g g' : Genetic) (w w' : World) :
  create_next_generation g w = Ok (g', w') → step_spec g g'.
Proof.
  unfold create_next_generation. intros Hrun.
  apply mbind_ok in Hrun as (sorted & w1 & Hsorted & Hrun).
  apply lift_ok in Hsorted as [Hsorted ->].
  apply mbind_ok in Hrun as (np & w2 & Hloop & Hrun).
  apply reproduction_loop_inv in Hloop as (extra & -> & Hev & Hlen & _ & _).
  apply mbind_ok in Hrun as (best & w3 & Hbest & Hrun).
  apply lift_ok in Hbest as [Hbest ->].
  apply find_best_chromosome_inv in Hbest.
  destruct best as [current_best|]; [|discriminate].
  cbn [set_chromosomes chromosomes] in Hbest. destruct Hbest as [Hin Hmin].
  apply mbind_ok in Hrun as (better & w4 & Hbetter & Hrun).
  apply lift_ok in Hbetter as [Hbetter ->].
  apply mbind_ok in Hrun as (avg & w5 & Havg & Hrun).
  apply lift_ok in Havg as [Havg ->].
  injection Hrun as <- <-.
  apply get_average_fitness_inv in Havg. cbn [set_chromosomes chromosomes] in Havg.
  unfold py_lt in Hbetter.
  destruct (fitness current_best) as [fc|] eqn:Hfc; [|discriminate].
  destruct (fitness (best_solution g)) as [fb|] eqn:Hfb; [|discriminate].
  injection Hbetter as <-.
  exists sorted, extra, current_best, avg, fb, fc.
  cbn [population chromosomes set_chromosomes max_generations mutation_rate
       elitism_size current_generation best_solution best_fitness_history
       avg_fitness_history].
  repeat (split; [done|]).
  split; [|done].
  apply best_at_most_all; [by eexists | done | done].
Qed.

(** The sample population and engine are what the constructors build. *)
Example sample_population_built :
  observe (Population_init 4 5 2 sample_matrix sample_world)
  = Ok (sample_population, 20, []).
Proof. vm_compute. reflexivity. Qed.

Example sample_engine_built :
  Genetic_init sample_population 3 (1 # 10)%Q 1 = Ok sample_engine.
Proof. vm_compute. reflexivity. Qed.

(* ===================================================================== *)
(** * The run *)
(* ===================================================================== *)

Lemma evolve_inv (verbose : bool) (count : nat) :
  ∀ generation g w g' w',
  evolve verbose generation count g w = Ok (g', w') → generations count g g'.
Proof.
  induction count as [|count IH]; intros generation g w g' w' Hrun.
  - injection Hrun as <- <-. constructor.
  - cbn [evolve] in Hrun.
    apply mbind_ok in Hrun as (g1 & w1 & Hstep & Hrun).
    apply create_next_generation_inv in Hstep.
    apply mbind_ok in Hrun as (u & w2 & _ & Hrun).
    apply IH in Hrun. by econstructor.
Qed.

Lemma run_inv (verbose : bool) (g g' : Genetic) (w w' : World) :
  run verbose g w = Ok (g', w') →
  generations (Z.to_nat (max_generations g)) g g'.
Proof.
  unfold run. intros Hrun.
  apply mbind_ok in Hrun as (u & w1 & _ & Hrun).
  apply mbind_ok in Hrun as (g1 & w2 & Hevolve & Hrun).
  apply evolve_inv in Hevolve.
  apply mbind_ok in Hrun as (u' & w3 & _ & Hrun).
  by injection Hrun as <- <-.
Qed.

(** Every generation appends one entry to each history. *)
Lemma generations_histories (k : nat) (g g' : Genetic) :
  generations k g g' →
  ∃ best_later avg_later,
    best_fitness_history g' = best_fitness_history g ++ best_later ∧
    avg_fitness_history g' = avg_fitness_history g ++ avg_later ∧
    length best_later = k ∧ length avg_later = k.
Proof.
  induction 1 as [g|k g g1 g' Hstep _ IH].
  - exists [], []. by rewrite !app_nil_r.
  - destruct IH as (bl & al & Hb & Ha & Hbl & Hal).
    destruct Hstep as (sorted & extra & cb & avg & fb & fc & Hstep).
    destruct Hstep as (_ & _ & _ & _ & _ & _ & _ & _ & _ & _ & _ & _ & _ & _
                       & Hb1 & Ha1).
    exists (Some fc :: bl), (avg :: al).
    rewrite Hb, Ha, Hb1, Ha1, <- !(assoc (++)). cbn. repeat split; lia.
Qed.

(** C4: for maxGenerations = G >= 0, after run() completes both histories
    hold exactly G+1 entries: the one recorded when the engine was
    constructed, followed by one per generation advance. *)
Theorem C4_history_length (p : Population) (G : Z) (rate : Q) (e : Z)
    (verbose : bool) (g g' : Genetic) (w w' : World) :
  (0 ≤ G)%Z →
  Genetic_init p G rate e = Ok g →
  run verbose g w = Ok (g', w') →
  length (best_fitness_history g) = 1 ∧ length (avg_fitness_history g) = 1 ∧
  (∃ best_later avg_later,
     best_fitness_history g' = best_fitness_history g ++ best_later ∧
     avg_fitness_history g' = avg_fitness_history g ++ avg_later ∧
     Z.of_nat (length best_later) = G ∧ Z.of_nat (length avg_later) = G) ∧
  Z.of_nat (length (best_fitness_history g')) = (G + 1)%Z ∧
  Z.of_nat (length (avg_fitness_history g')) = (G + 1)%Z.
Proof.
  intros HG Hinit Hrun.
  apply Genetic_init_inv in Hinit as (_ & HmaxG & _ & _ & _ & _ & _ & Hb0 & Ha0).
  apply run_inv, generations_histories in Hrun
    as (bl & al & Hb & Ha & Hbl & Hal).
  rewrite HmaxG in Hbl, Hal.
  assert (Hb0' : length (best_fitness_history g) = 1) by (by rewrite Hb0).
  split; [done|]. split; [done|]. split.
  - exists bl, al. repeat split; try done; lia.
  - rewrite Hb, Ha, !length_app. lia.
Qed.

Lemma C4_history_length_witness :
  ∃ g' w', run true sample_engine (sample_world_at 20) = Ok (g', w') ∧
           length (best_fitness_history g') = 4 ∧
           length (avg_fitness_history g') = 4.
Proof.
  destruct (run true sample_engine (sample_world_at 20)) as [[g' w']|err] eqn:Hrun.
  - exists g', w'. split; [reflexivity|].
    pose proof (C4_history_length sample_population 3 (1 # 10)%Q 1 true
                  sample_engine g' (sample_world_at 20) w'
                  ltac:(lia) sample_engine_built Hrun)
      as (_ & _ & _ & Hb & Ha).
    split; lia.
  - vm_compute in Hrun. discriminate Hrun.
Defined.

(* ===================================================================== *)
(** * The incumbent, elitism, population size *)
(* ===================================================================== *)

Lemma at_most_all_weaken (b c : Chromosome) (cs : list Chromosome) (fb fc : Z) :
  fitness b = Some fb → fitness c = Some fc → (fb ≤ fc)%Z →
  at_most_all c cs → at_most_all b cs.
Proof.
  intros Hb Hc Hle (f & Hf & Hall). exists fb. split; [done|].
  intros c' Hc'. destruct (Hall c' Hc') as (f' & Hf' & Hle').
  exists f'. split; [done|]. rewrite Hc in Hf. injection Hf as <-. lia.
Qed.

(** C3: at construction the incumbent's fitness is at most every fitness of
    the population; after every generation advance it is at most every
    fitness of the new population and at most what it was before; and the
    incumbent changes only to the best chromosome of the new population,
    and only when that one is strictly better. *)
Theorem C3_incumbent (g g' : Genetic) (w w' : World) :
  (∀ p G rate e, Genetic_init p G rate e = Ok g →
     at_most_all (best_solution g) (chromosomes (population g))) ∧
  (create_next_generation g w = Ok (g', w') →
   at_most_all (best_solution g') (chromosomes (population g')) ∧
   ∃ fb fb', fitness (best_solution g) = Some fb ∧
             fitness (best_solution g') = Some fb' ∧ (fb' ≤ fb)%Z ∧
             (best_solution g' = best_solution g ∨
              (best_solution g' ∈ chromosomes (population g') ∧ (fb' < fb)%Z))).
Proof.
  split.
  - intros p G rate e Hinit.
    apply Genetic_init_inv in Hinit as (-> & _ & _ & _ & _ & _ & Hmin & _).
    exact Hmin.
  - intros Hstep. apply create_next_generation_inv in Hstep.
    destruct Hstep as (sorted & extra & cb & avg & fb & fc & Hstep).
    destruct Hstep as (_ & _ & _ & _ & _ & _ & _ & _ & _ & Hin & Hmin & Hfb
                       & Hfc & Hbest & _).
    rewrite Hbest. destruct (Z.ltb_spec fc fb) as [Hlt|Hge].
    + split; [exact Hmin|]. exists fb, fc.
      split; [done|]. split; [done|]. split; [lia|].
      right. split; [done | lia].
    + split; [by apply (at_most_all_weaken _ cb _ fb fc)|].
      exists fb, fb.
      split; [done|]. split; [done|]. split; [lia|]. by left.
Qed.

Lemma C3_incumbent_witness :
  ∃ g' w', create_next_generation sample_engine (sample_world_at 20) = Ok (g', w') ∧
           at_most_all (best_solution g') (chromosomes (population g')).
Proof.
  destruct (create_next_generation sample_engine (sample_world_at 20))
    as [[g' w']|err] eqn:Hstep.
  - exists g', w'. split; [reflexivity|].
    exact (proj1 (proj2 (C3_incumbent sample_engine g' (sample_world_at 20) w')
                        Hstep)).
  - vm_compute in Hstep. discriminate Hstep.
Defined.

Lemma py_prefix_nonneg {A} (l : list A) (k : Z) :
  (0 ≤ k)%Z → py_prefix l k = take (Z.to_nat k) l.
Proof. intros Hk. unfold py_prefix. destruct (Z.ltb_spec k 0); [lia | done]. Qed.

Lemma py_prefix_length {A} (l : list A) (k : Z) :
  (0 ≤ k)%Z → (Z.of_nat (length (py_prefix l k)) ≤ k)%Z.
Proof. intros Hk. rewrite py_prefix_nonneg, length_take by done. lia. Qed.

(** C5: for 0 <= elitismSize <= popSize, the population sorted by fitness
    starts with the elitismSize chromosomes of lowest fitness (all of them
    when there are fewer); the next generation starts with exactly these
    chromosomes, genes and fitness unchanged. *)
Theorem C5_elitism (g g' : Genetic) (w w' : World) :
  (0 ≤ elitism_size g ≤ pop_size (population g))%Z →
  create_next_generation g w = Ok (g', w') →
  ∃ elite others offspring,
    elite ++ others ≡ₚ chromosomes (population g) ∧
    length elite
    = Z.to_nat (elitism_size g) `min` length (chromosomes (population g)) ∧
    (∀ c c', c ∈ elite → c' ∈ others → fitness_le c c') ∧
    Forall (λ c, is_Some (fitness c)) elite ∧
    chromosomes (population g') = elite ++ offspring.
Proof.
  intros He Hstep. apply create_next_generation_inv in Hstep.
  destruct Hstep as (sorted & extra & cb & avg & fb & fc & Hstep).
  destruct Hstep as (Hsorted & Hnew & _ & _ & _ & _ & _ & _ & _ & _ & Hmin & _).
  apply sorted_by_fitness_inv in Hsorted as (_ & Hperm & Hsort & _).
  rewrite py_prefix_nonneg in Hnew by lia.
  exists (take (Z.to_nat (elitism_size g)) sorted),
         (drop (Z.to_nat (elitism_size g)) sorted), extra.
  split; [by rewrite take_drop|].
  split; [by rewrite length_take, Hperm|].
  split; [|split; [|done]].
  - intros c c' Hc Hc'.
    rewrite <- (take_drop (Z.to_nat (elitism_size g)) sorted) in Hsort.
    by eapply StronglySorted_app_1_elem_of.
  - destruct Hmin as (f & _ & Hall). apply Forall_forall. intros c Hc.
    destruct (Hall c) as (f' & Hf' & _); [|by eexists].
    rewrite Hnew. apply elem_of_app. by left.
Qed.

Lemma C5_elitism_witness :
  ∃ g' w' elite offspring,
    create_next_generation sample_engine (sample_world_at 20) = Ok (g', w') ∧
    length elite = 1 ∧ Forall (λ c, is_Some (fitness c)) elite ∧
    chromosomes (population g') = elite ++ offspring.
Proof.
  destruct (create_next_generation sample_engine (sample_world_at 20))
    as [[g' w']|err] eqn:Hstep.
  - destruct (C5_elitism sample_engine g' (sample_world_at 20) w')
      as (elite & others & offspring & _ & Hlen & _ & Hfit & Hnew);
      [cbn; lia | exact Hstep |].
    exists g', w', elite, offspring. split; [reflexivity|].
    split; [exact Hlen|]. split; [exact Hfit | exact Hnew].
  - vm_compute in Hstep. discriminate Hstep.
Defined.

(** C9: with popSize >= 2 and 0 <= elitismSize <= popSize, a constructed
    Population holds exactly popSize chromosomes, each with its fitness
    computed from the distance matrix; and after every generation advance
    the population again holds exactly popSize chromosomes, each with a
    fitness that is not None. *)
Theorem C9_population_size_and_fitness (pop_size0 n m : Z)
    (dm : list (list Z)) (p : Population) (g g' : Genetic) (w0 w1 w w' : World) :
  (2 ≤ pop_size0)%Z →
  (Population_init pop_size0 n m dm w0 = Ok (p, w1) →
   Z.of_nat (length (chromosomes p)) = pop_size0 ∧
   pop_size p = pop_size0 ∧
   Forall (evaluated dm) (chromosomes p) ∧
   Forall (λ c, is_Some (fitness c)) (chromosomes p)) ∧
  (pop_size (population g) = pop_size0 →
   (0 ≤ elitism_size g ≤ pop_size0)%Z →
   create_next_generation g w = Ok (g', w') →
   Z.of_nat (length (chromosomes (population g'))) = pop_size0 ∧
   pop_size (population g') = pop_size0 ∧
   elitism_size g' = elitism_size g ∧
   Forall (λ c, is_Some (fitness c)) (chromosomes (population g'))).
Proof.
  intros Hpop. split.
  - intros Hinit.
    apply Population_init_inv in Hinit as (Hp & Hlen & Hall & _).
    split; [lia|]. split; [by rewrite Hp|].
    split; (eapply Forall_impl; [exact Hall|]).
    + by intros c [_ Hev].
    + intros c [_ (t & Ht & _)]. by eexists.
  - intros Hsize He Hstep. apply create_next_generation_inv in Hstep.
    destruct Hstep as (sorted & extra & cb & avg & fb & fc & Hstep).
    destruct Hstep as (_ & _ & _ & Hlen & Hp & _ & _ & He' & _ & _ & Hmin & _).
    split; [|split; [|split]].
    + rewrite <- Hsize. apply Hlen.
      etrans; [apply py_prefix_length|]; lia.
    + rewrite Hp. cbn. done.
    + done.
    + destruct Hmin as (f & _ & Hall). apply Forall_forall. intros c Hc.
      destruct (Hall c Hc) as (f' & Hf' & _). by eexists.
Qed.

Lemma C9_population_size_and_fitness_witness :
  ∃ g' w',
    create_next_generation sample_engine (sample_world_at 20) = Ok (g', w') ∧
    Z.of_nat (length (chromosomes (population g'))) = 4%Z ∧
    Forall (λ c, is_Some (fitness c)) (chromosomes (population g')).
Proof.
  destruct (create_next_generation sample_engine (sample_world_at 20))
    as [[g' w']|err] eqn:Hstep.
  - destruct (C9_population_size_and_fitness 4 5 2 sample_matrix
                sample_population sample_engine g' sample_world
                sample_world (sample_world_at 20) w' ltac:(lia))
      as [_ Hadvance].
    destruct Hadvance as (Hlen & _ & _ & Hfit);
      [reflexivity | cbn; lia | exact Hstep |].
    exists g', w'. split; [reflexivity|]. split; [exact Hlen | exact Hfit].
  - vm_compute in Hstep. discriminate Hstep.
Defined.

(* ===================================================================== *)
(** * Selection and parents in a round *)
(* ===================================================================== *)




(* ===================================================================== *)
(** * What construction accepts *)
(* ===================================================================== *)

Lemma sample_matrix_covers : covers sample_matrix 6.
Proof.
  intros i j Hi Hj.
  assert (Hi' : (i = 0 ∨ i = 1 ∨ i = 2 ∨ i = 3 ∨ i = 4 ∨ i = 5)%Z) by lia.
  assert (Hj' : (j = 0 ∨ j = 1 ∨ j = 2 ∨ j = 3 ∨ j = 4 ∨ j = 5)%Z) by lia.
  destruct Hi' as [?|[?|[?|[?|[?|?] ] ] ] ]; subst i;
    destruct Hj' as [?|[?|[?|[?|[?|?] ] ] ] ]; subst j;
    eexists; reflexivity.
Defined.

Lemma sample_matrix_small (n m : Z) :
  (n + m - 1 ≤ 1000)%Z → small_matrix n m sample_matrix.
Proof.
  intros Hnm. unfold small_matrix, sample_matrix, float_safe_bound.
  repeat (apply Forall_cons; split); try apply Forall_nil; lia.
Defined.

(** C7, amended: the constructors validate none of popSize, elitismSize and
    numVehicles.  With a distance matrix that has an entry for every pair
    of indices 0 .. numLocations, Population construction succeeds for
    every popSize and numVehicles.  Genetic construction then fails with
    AttributeError on the missing best chromosome when the population is
    empty (popSize <= 0); for popSize >= 1 it fails in no other way than
    by the OverflowError of an average fitness beyond the range of the
    floats, and it succeeds, for every elitismSize, whenever the entries
    of the matrix are small enough for every fitness to be a float: every
    entry [d] has [|d| * 2 * max(0, numLocations + numVehicles - 1)] at
    most [2^1023]. *)
Theorem C7_construction_validates_nothing (pop_size n m : Z)
    (dm : list (list Z)) (G : Z) (rate : Q) (e : Z) (w : World) :
  covers dm (n + 1) →
  (∃ p w', Population_init pop_size n m dm w = Ok (p, w') ∧
           length (chromosomes p) = Z.to_nat pop_size) ∧
  ((1 ≤ pop_size)%Z → small_matrix n m dm →
   ∃ g w', construct pop_size n m dm G rate e w = Ok (g, w') ∧
           elitism_size g = e ∧ engine_pop_size g = pop_size) ∧
  ((1 ≤ pop_size)%Z →
   ∀ err, construct pop_size n m dm G rate e w = Raise err →
          err = OverflowError) ∧
  ((pop_size ≤ 0)%Z →
   construct pop_size n m dm G rate e w = Raise AttributeError).
Proof.
  intros Hcov.
  destruct (Population_init_run pop_size n m dm w Hcov) as (p & w' & Hinit).
  assert (Hinv := Population_init_inv _ _ _ _ _ _ _ Hinit).
  destruct Hinv as (Hp & Hlen & Hall & _).
  split; [by exists p, w'|]. unfold construct.
  rewrite (mbind_run _ _ _ _ _ Hinit).
  split; [|split].
  - intros Hpop Hsmall.
    destruct (Genetic_init_run p G rate e) as [g Hg].
    { intros Hnil. rewrite Hnil in Hlen. cbn in Hlen. lia. }
    { eapply Forall_impl; [exact Hall|]. intros c [Hwf Hev].
      by eapply evaluated_in_range. }
    exists g, w'. rewrite Hg. split; [done|].
    apply Genetic_init_inv in Hg as (Hpg & _ & _ & He & _).
    split; [done|]. unfold engine_pop_size. rewrite Hpg, Hp. done.
  - intros Hpop err Hrun.
    assert (Hne : chromosomes p ≠ []).
    { intros Hnil. rewrite Hnil in Hlen. cbn in Hlen. lia. }
    assert (Hset : Forall (λ c, is_Some (fitness c)) (chromosomes p)).
    { eapply Forall_impl; [exact Hall|]. intros c [_ (t & Ht & _)]. by eexists. }
    destruct (Genetic_init p G rate e) as [g|err'] eqn:Hg; [discriminate|].
    injection Hrun as <-. unfold Genetic_init in Hg.
    destruct (find_best_chromosome_run p Hne Hset) as [b Hb].
    rewrite Hb in Hg. cbn [mbind result_bind] in Hg.
    destruct (get_average_fitness p) as [avg|err''] eqn:Havg; [discriminate|].
    injection Hg as <-.
    apply get_average_fitness_raise in Havg as [_ [[_ Hnone]|[-> _] ] ];
      [|done].
    destruct Hnone as (c & Hc & Hnone). rewrite Forall_forall in Hset.
    destruct (Hset c Hc) as [f Hf]. congruence.
  - intros Hpop. rewrite Genetic_init_empty; [done|].
    apply nil_length_inv. lia.
Qed.

Lemma C7_construction_validates_nothing_witness :
  ∃ g w', construct 1 5 0 sample_matrix 3 (1 # 10)%Q 7 sample_world = Ok (g, w') ∧
          elitism_size g = 7%Z ∧ engine_pop_size g = 1%Z.
Proof.
  apply (C7_construction_validates_nothing 1 5 0 sample_matrix 3 (1 # 10)%Q 7
           sample_world sample_matrix_covers); [lia|].
  apply sample_matrix_small. lia.
Defined.

(** The failure of the average: one chromosome whose fitness is 2 * 10^400,
    beyond the range of the floats. *)
Example construct_overflow :
  construct 1 1 1 [[0; 10 ^ 400]; [10 ^ 400; 0]]%Z 3 (1 # 10)%Q 1 sample_world
  = Raise OverflowError.
Proof. vm_compute. reflexivity. Qed.

(** C7 as stated fails for each of its three cases: construction succeeds
    with popSize = 1, with elitismSize = 9 > popSize = 4, and with
    numVehicles = 0. *)
Lemma C7_counterexample :
  is_ok (construct 1 5 2 sample_matrix 3 (1 # 10)%Q 0 sample_world) ∧
  is_ok (construct 4 5 2 sample_matrix 3 (1 # 10)%Q 9 sample_world) ∧
  is_ok (construct 4 5 0 sample_matrix 3 (1 # 10)%Q 1 sample_world).
Proof. vm_compute. done. Qed.

(* ===================================================================== *)
(** * An engine in working order keeps running *)
(* ===================================================================== *)

Lemma py_prefix_subseteq {A} (l : list A) (k : Z) : py_prefix l k ⊆ l.
Proof. unfold py_prefix. destruct (k <? 0)%Z; apply subseteq_take. Qed.

(** Permutations stay permutations across a generation, and the new
    population is at least [pop_size] long. *)
Lemma create_next_generation_well_formed (n m : Z) (g g' : Genetic)
    (w w' : World) :
  create_next_generation g w = Ok (g', w') →
  Forall (well_formed n m) (chromosomes (population g)) →
  Forall (well_formed n m) (chromosomes (population g')) ∧
  (pop_size (population g) ≤ Z.of_nat (length (chromosomes (population g'))))%Z.
Proof.
  unfold create_next_generation. intros Hrun Hall.
  apply mbind_ok in Hrun as (sorted & w1 & Hsorted & Hrun).
  apply lift_ok in Hsorted as [Hsorted ->].
  apply sorted_by_fitness_inv in Hsorted as (_ & Hperm & _ & _).
  apply mbind_ok in Hrun as (np & w2 & Hloop & Hrun).
  apply reproduction_loop_inv in Hloop as (extra & -> & _ & _ & Hge & Hwf).
  apply mbind_ok in Hrun as (best & w3 & _ & Hrun).
  destruct best as [current_best|]; [|discriminate].
  apply mbind_ok in Hrun as (better & w4 & _ & Hrun).
  apply mbind_ok in Hrun as (avg & w5 & _ & Hrun).
  injection Hrun as <- <-. cbn [population chromosomes set_chromosomes].
  split; [|done]. apply Forall_app. split; [|by apply Hwf].
  apply Forall_forall. intros c Hc%py_prefix_subseteq.
  rewrite Hperm in Hc. rewrite Forall_forall in Hall. by apply Hall.
Qed.

Lemma well_formed_length (n m : Z) (c : Chromosome) :
  well_formed n m c → length (genes c) = Z.to_nat (n + m - 1).
Proof. intros (_ & _ & Hp). by apply permutation_genes_length. Qed.

Lemma add_offspring_run (n m : Z) (g : Genetic) (o : Chromosome)
    (new_population : list Chromosome) (w : World) :
  (2 ≤ n + m - 1)%Z → covers (distance_matrix (population g)) (n + 1) →
  well_formed n m o →
  ∃ np' w', add_offspring g o new_population w = Ok (np', w').
Proof.
  intros Hlen Hcov Hwf. unfold add_offspring.
  destruct (random_random_run w) as (r & w1 & Hr & _).
  rewrite (mbind_run _ _ _ _ _ Hr).
  assert (Ho : ∃ o' w2,
    (if Qlt_le_dec r (mutation_rate g) then mutate o else mret o) w1
    = Ok (o', w2) ∧ well_formed n m o').
  { destruct (Qlt_le_dec r (mutation_rate g)).
    - destruct (mutate_run o w1) as (o' & w2 & Ho').
      { rewrite (well_formed_length n m) by done. lia. }
      exists o', w2. split; [done|].
      apply mutate_inv in Ho' as (Hg & Hn & Hm & _).
      destruct Hwf as (? & ? & Hp). unfold well_formed, permutation_genes in *.
      rewrite Hg. repeat split; congruence.
    - by exists o, w1. }
  destruct Ho as (o' & w2 & Ho' & Hwf').
  rewrite (mbind_run _ _ _ _ _ Ho').
  destruct (well_formed_fitness_run n m o' _ Hwf' Hcov) as [t Ht].
  rewrite (mbind_lift _ _ _ _ Ht). by eexists _, _.
Qed.

Lemma reproduce_run (n m : Z) (g : Genetic) (new_population : list Chromosome)
    (w : World) :
  healthy n m g → ∃ r w', reproduce g new_population w = Ok (r, w').
Proof.
  intros (Hlen & Hcov & _ & _ & Hpop & Hall & _). unfold reproduce.
  destruct (selection_run g w Hpop) as (selected & w1 & Hsel).
  { eapply Forall_impl; [exact Hall|]. intros c [_ (f & Hf & _)]. by exists f. }
  rewrite (mbind_run _ _ _ _ _ Hsel).
  apply selection_inv in Hsel as (s1 & s2 & -> & Hs1 & Hs2 & _).
  cbn [length Nat.ltb Nat.leb].
  destruct (random_choice_run [s1; s2] w1) as (p1 & w2 & Hp1); [done|].
  rewrite (mbind_run _ _ _ _ _ Hp1).
  destruct (random_choice_run [s1; s2] w2) as (p2 & w3 & Hp2); [done|].
  rewrite (mbind_run _ _ _ _ _ Hp2).
  assert (Hwf : ∀ p, p ∈ [s1; s2] → well_formed n m p).
  { rewrite Forall_forall in Hall. intros p Hp.
    apply elem_of_cons in Hp as [->|Hp].
    - by apply Hall, tournament_winner_elem.
    - apply list_elem_of_singleton in Hp as ->.
      by apply Hall, tournament_winner_elem. }
  apply random_choice_inv in Hp1 as [Hp1%Hwf _].
  apply random_choice_inv in Hp2 as [Hp2%Hwf _].
  destruct (crossover_run p1 p2 w3) as [_ Hcross].
  { destruct Hp1 as (_ & _ & Hp). by eapply permutation_genes_NoDup. }
  { destruct Hp1 as (_ & _ & Hg1), Hp2 as (_ & _ & Hg2).
    unfold permutation_genes in *. by rewrite Hg1, Hg2. }
  destruct Hcross as (o1 & o2 & w4 & Hcross & _).
  { rewrite (well_formed_length n m) by done. lia. }
  rewrite (mbind_run _ _ _ _ _ Hcross). cbn beta iota.
  destruct (crossover_well_formed n m p1 p2 o1 o2 w3 w4 Hp1 Hp2 Hcross)
    as [Ho1 Ho2].
  destruct (add_offspring_run n m g o1 new_population w4 Hlen Hcov Ho1)
    as (np1 & w5 & Hadd1).
  rewrite (mbind_run _ _ _ _ _ Hadd1).
  destruct (Z.of_nat (length np1) <? pop_size (population g))%Z;
    [|by eexists _, _].
  destruct (add_offspring_run n m g o2 np1 w5 Hlen Hcov Ho2)
    as (np2 & w6 & Hadd2).
  rewrite (mbind_run _ _ _ _ _ Hadd2). by eexists _, _.
Qed.

(** The fuel of the reproduction loop is enough: every round adds a
    chromosome. *)
Lemma reproduction_loop_run (n m : Z) (g : Genetic) (fuel : nat) :
  healthy n m g →
  ∀ np w, (pop_size (population g) - Z.of_nat (length np) ≤ Z.of_nat fuel)%Z →
  ∃ np' w', reproduction_loop g fuel np w = Ok (np', w').
Proof.
  intros Hg. induction fuel as [|fuel IH]; intros np w Hfuel;
    cbn [reproduction_loop];
    destruct (Z.ltb_spec (Z.of_nat (length np)) (pop_size (population g)))
      as [Hlt|Hge]; cbn [negb]; try lia; try by eexists _, _.
  destruct (reproduce_run n m g np w Hg) as (r & w1 & Hr).
  rewrite (mbind_run _ _ _ _ _ Hr).
  apply reproduce_inv, round_outcome_offspring in Hr
    as (np1 & extra & -> & -> & Hne & _).
  apply IH. rewrite length_app. destruct extra; [done|]. cbn. lia.
Qed.

(** A generation advance of an engine in working order succeeds and leaves
    the engine in working order. *)
Theorem create_next_generation_run (n m : Z) (g : Genetic) (w : World) :
  healthy n m g →
  ∃ g' w', create_next_generation g w = Ok (g', w') ∧ healthy n m g'.
Proof.
  intros Hg. assert (Hg' := Hg).
  destruct Hg' as (Hlen & Hcov & Hsmall & Hsize & Hpop & Hall & Hbest).
  assert (Hrange : Forall fitness_in_range (chromosomes (population g))).
  { eapply Forall_impl; [exact Hall|]. by intros c [_ ?]. }
  assert (Hfit := fitness_in_range_is_Some _ Hrange).
  assert (Hwf : Forall (well_formed n m) (chromosomes (population g))).
  { eapply Forall_impl; [exact Hall|]. by intros c [? _]. }
  assert (Hnew : ∀ extra,
    Forall (evaluated (distance_matrix (population g))) extra →
    Forall (well_formed n m) extra →
    Forall fitness_in_range
      (py_prefix (foldr insert_by_fitness [] (chromosomes (population g)))
                 (elitism_size g) ++ extra)).
  { intros extra Hev Hwfe. apply Forall_app. split.
    - apply Forall_forall. intros c Hc%py_prefix_subseteq.
      rewrite sort_by_fitness_Permutation in Hc.
      rewrite Forall_forall in Hrange. by apply Hrange.
    - apply Forall_forall. intros c Hc.
      rewrite Forall_forall in Hev, Hwfe.
      eapply evaluated_in_range; [by apply Hwfe | exact Hsmall | by apply Hev]. }
  assert (Hrun : ∃ g' w', create_next_generation g w = Ok (g', w')).
  { unfold create_next_generation.
    rewrite (mbind_lift _ _ _ _ (sorted_by_fitness_run _ Hfit)).
    set (sorted := foldr insert_by_fitness [] (chromosomes (population g))) in *.
    destruct (reproduction_loop_run n m g (Z.to_nat (pop_size (population g)))
                Hg (py_prefix sorted (elitism_size g)) w) as (np & w1 & Hloop);
      [lia|].
    rewrite (mbind_run _ _ _ _ _ Hloop).
    apply reproduction_loop_inv in Hloop as (extra & -> & Hev & _ & Hge & Hwfe).
    specialize (Hnew extra Hev (Hwfe n m Hwf)).
    set (np := py_prefix sorted (elitism_size g) ++ extra) in *.
    assert (Hnp := fitness_in_range_is_Some _ Hnew).
    destruct (find_best_chromosome_run (set_chromosomes (population g) np))
      as [cb Hcb]; [|done|].
    { cbn. intros Hnil. rewrite Hnil in Hge. cbn in Hge. lia. }
    rewrite (mbind_lift _ _ _ _ Hcb).
    apply find_best_chromosome_inv in Hcb as [Hin _]. cbn in Hin.
    rewrite Forall_forall in Hnp. destruct (Hnp cb Hin) as [fc Hfc].
    destruct Hbest as (fb & Hfb & _).
    rewrite Hfc, Hfb. cbn [py_lt]. rewrite (mbind_lift _ (fc <? fb)%Z) by done.
    destruct (get_average_fitness_run (set_chromosomes (population g) np))
      as [avg Havg]; [done|].
    rewrite (mbind_lift _ _ _ _ Havg). by eexists _, _. }
  destruct Hrun as (g' & w' & Hrun). exists g', w'. split; [done|].
  destruct (create_next_generation_well_formed n m g g' w w' Hrun Hwf)
    as [Hwf' Hge'].
  apply create_next_generation_inv in Hrun.
  destruct Hrun as (sorted & extra & cb & avg & fb' & fc & Hstep).
  destruct Hstep as (Hsorted & Hchrom & Hev & _ & Hp & _ & _ & _ & _ & Hin & _
                     & Hfb' & Hfc & Hbest' & _).
  apply sorted_by_fitness_inv in Hsorted as (Hsorted & _).
  assert (Hrange' : Forall fitness_in_range (chromosomes (population g'))).
  { rewrite Hchrom, Hsorted. apply Hnew; [done|].
    rewrite Hchrom in Hwf'. by apply Forall_app in Hwf' as [_ ?]. }
  unfold healthy. rewrite Hp.
  cbn [distance_matrix pop_size chromosomes set_chromosomes].
  split; [done|]. split; [done|]. split; [done|]. split; [done|].
  split; [lia|]. split.
  - apply Forall_forall. intros c Hc.
    rewrite Forall_forall in Hwf', Hrange'. split; [by apply Hwf' | by apply Hrange'].
  - rewrite Hbest'. destruct (fc <? fb')%Z; [|done].
    rewrite Forall_forall in Hrange'. by apply Hrange'.
Qed.

Lemma report_run (n m : Z) (g : Genetic) : healthy n m g → report g = Ok tt.
Proof.
  intros (_ & _ & _ & _ & Hpop & Hall & _). unfold report.
  assert (Hrange : Forall fitness_in_range (chromosomes (population g))).
  { eapply Forall_impl; [exact Hall|]. by intros c [_ ?]. }
  destruct (find_best_chromosome_run (population g)) as [cb Hcb];
    [|by apply fitness_in_range_is_Some|].
  { intros Hnil. rewrite Hnil in Hpop. cbn in Hpop. lia. }
  rewrite Hcb. cbn [mbind result_bind].
  apply find_best_chromosome_inv in Hcb as [Hin _].
  rewrite Forall_forall in Hrange. destruct (Hrange cb Hin) as (f & -> & Hf).
  cbn [format_2f]. destruct (py_float_safe f Hf) as [q ->].
  cbn [mbind result_bind].
  destruct (get_average_fitness_run (population g)) as [avg ->];
    [by apply Forall_forall | done].
Qed.

Lemma evolve_run (n m : Z) (verbose : bool) (count : nat) :
  ∀ generation g w, healthy n m g →
  ∃ g' w', evolve verbose generation count g w = Ok (g', w') ∧ healthy n m g'.
Proof.
  induction count as [|count IH]; intros generation g w Hg.
  - by exists g, w.
  - cbn [evolve].
    destruct (create_next_generation_run n m g w Hg) as (g1 & w1 & Hstep & Hg1).
    rewrite (mbind_run _ _ _ _ _ Hstep).
    assert (Hreport : (if verbose && (generation `mod` 10 =? 0)%Z
                       then report g1 else Ok tt) = Ok tt).
    { destruct (verbose && _); [by eapply report_run | done]. }
    rewrite (mbind_lift _ _ _ _ Hreport). by apply IH.
Qed.

(** A quiet run of an engine in working order returns. *)
Theorem run_quiet_run (n m : Z) (g : Genetic) (w : World) :
  healthy n m g →
  ∃ g' w', run false g w = Ok (g', w') ∧ healthy n m g' ∧
           generations (Z.to_nat (max_generations g)) g g'.
Proof.
  intros Hg. unfold run.
  rewrite (mbind_lift _ tt) by done.
  destruct (evolve_run n m false (Z.to_nat (max_generations g)) 1 g w Hg)
    as (g' & w' & Hevolve & Hg').
  rewrite (mbind_run _ _ _ _ _ Hevolve).
  rewrite (mbind_lift _ tt) by done.
  exists g', w'. split; [done|]. split; [done|]. by eapply evolve_inv.
Qed.

(** With two genes or more per chromosome, two chromosomes or more and a
    matrix over the depot and all locations whose entries are small enough
    for the floats, construction yields an engine in working order. *)
Theorem construct_healthy (size n m : Z) (dm : list (list Z)) (G : Z)
    (rate : Q) (e : Z) (w : World) :
  (2 ≤ n + m - 1)%Z → (2 ≤ size)%Z → covers dm (n + 1) →
  small_matrix n m dm →
  ∃ g w', construct size n m dm G rate e w = Ok (g, w') ∧ healthy n m g.
Proof.
  intros Hlen Hpop Hcov Hsmall. unfold construct.
  destruct (Population_init_run size n m dm w Hcov) as (p & w' & Hinit).
  rewrite (mbind_run _ _ _ _ _ Hinit).
  apply Population_init_inv in Hinit as (Hp & Hsize & Hall & _).
  assert (Hboth : Forall (λ c, well_formed n m c ∧ fitness_in_range c)
                         (chromosomes p)).
  { eapply Forall_impl; [exact Hall|]. intros c [Hwf Hev].
    split; [done|]. by eapply evaluated_in_range. }
  assert (Hrange : Forall fitness_in_range (chromosomes p)).
  { eapply Forall_impl; [exact Hboth|]. by intros c [_ ?]. }
  destruct (Genetic_init_run p G rate e) as [g Hg]; [|done|].
  { intros Hnil. rewrite Hnil in Hsize. cbn in Hsize. lia. }
  rewrite Hg. exists g, w'. split; [done|].
  apply Genetic_init_inv in Hg as (Hpg & _ & _ & _ & _ & Hin & _).
  unfold healthy. rewrite Hpg, Hp. cbn [distance_matrix pop_size chromosomes].
  split; [done|]. split; [done|]. split; [done|]. split; [done|].
  split; [lia|]. split; [done|].
  rewrite Forall_forall in Hrange. by apply Hrange.
Qed.

(* ===================================================================== *)
(** * The bounded loops of the model never run dry *)
(* ===================================================================== *)

Lemma never_dry_r_bind {A B} (r : result A) (k : A → result B) :
  never_dry_r r → (∀ a, r = Ok a → never_dry_r (k a)) → never_dry_r (r ≫= k).
Proof.
  unfold never_dry_r. destruct r as [a|e]; cbn; [eauto|].
  intros He _. congruence.
Qed.

Lemma never_dry_bind_dep {A B} (m : M A) (k : A → M B) (w : World) :
  m w ≠ Raise FuelExhausted →
  (∀ a w1, m w = Ok (a, w1) → k a w1 ≠ Raise FuelExhausted) →
  (m ≫= k) w ≠ Raise FuelExhausted.
Proof.
  unfold mbind, M_bind. destruct (m w) as [[a w1]|e]; [eauto|].
  intros He _. congruence.
Qed.

Lemma never_dry_bind {A B} (m : M A) (k : A → M B) :
  never_dry m → (∀ a, never_dry (k a)) → never_dry (m ≫= k).
Proof. intros Hm Hk w. apply never_dry_bind_dep; [apply Hm | intros; apply Hk]. Qed.

Lemma never_dry_lift {A} (r : result A) : never_dry_r r → never_dry (lift r).
Proof. unfold never_dry_r, lift. intros Hr w. destruct r; congruence. Qed.

Lemma never_dry_ret {A} (a : A) : never_dry (mret a).
Proof. intros w. discriminate. Qed.

Lemma never_dry_r_py_index {A} (l : list A) (i : Z) : never_dry_r (py_index l i).
Proof. intros H. apply py_index_raise in H. discriminate. Qed.

Lemma never_dry_r_py_store {A} (l : list A) (i : nat) (v : A) :
  never_dry_r (py_store l i v).
Proof. unfold never_dry_r, py_store. destruct (i <? length l); discriminate. Qed.

Lemma never_dry_r_py_swap {A} (l : list A) (i j : nat) : never_dry_r (py_swap l i j).
Proof.
  unfold never_dry_r, py_swap. destruct (l !! j), (l !! i); discriminate.
Qed.

Lemma never_dry_randbelow (n : nat) : never_dry (randbelow n).
Proof. intros w. discriminate. Qed.

Lemma never_dry_sample_range_2 (n : nat) : never_dry (sample_range_2 n).
Proof. intros w. unfold sample_range_2. destruct (n <? 2); discriminate. Qed.

Lemma never_dry_sample_2 {A} (l : list A) : never_dry (sample_2 l).
Proof.
  unfold sample_2. apply never_dry_bind; [apply never_dry_sample_range_2|].
  intros [i j].
  apply never_dry_bind; [apply never_dry_lift, never_dry_r_py_index|]. intros a.
  apply never_dry_bind; [apply never_dry_lift, never_dry_r_py_index|]. intros b.
  apply never_dry_ret.
Qed.

Lemma never_dry_random_choice {A} (l : list A) : never_dry (random_choice l).
Proof.
  unfold random_choice. destruct l; [intros w; discriminate|].
  apply never_dry_bind; [apply never_dry_randbelow|]. intros i.
  apply never_dry_lift, never_dry_r_py_index.
Qed.

Lemma never_dry_shuffle_down {A} (i : nat) : ∀ x : list A,
  never_dry (shuffle_down i x).
Proof.
  induction i as [|i IH]; intros x; [apply never_dry_ret|].
  cbn [shuffle_down]. apply never_dry_bind; [apply never_dry_randbelow|].
  intros j. apply never_dry_bind; [apply never_dry_lift, never_dry_r_py_swap|].
  intros x'. apply IH.
Qed.

Lemma never_dry_Chromosome_init (n m : Z) (genes : option (list (option Z))) :
  never_dry (Chromosome_init n m genes).
Proof.
  unfold Chromosome_init. destruct genes; [apply never_dry_ret|].
  apply never_dry_bind; [apply never_dry_shuffle_down|]. intros x.
  apply never_dry_ret.
Qed.

Lemma never_dry_r_for_range {St} (body : nat → St → result St) (count : nat) :
  (∀ i s, never_dry_r (body i s)) →
  ∀ start s, never_dry_r (for_range body start count s).
Proof.
  intros Hbody. induction count as [|count IH]; intros start s; [discriminate|].
  cbn [for_range]. apply never_dry_r_bind; [apply Hbody|]. intros s' _. apply IH.
Qed.

Lemma never_dry_r_skip_used (filler : list (option Z)) (L : nat)
    (used : gset (option Z)) (fuel : nat) :
  ∀ idx, L - idx ≤ fuel → never_dry_r (skip_used filler L used fuel idx).
Proof.
  induction fuel as [|fuel IH]; intros idx Hfuel; cbn [skip_used];
    destruct (Nat.ltb_spec idx L); cbn [negb]; try discriminate; try lia.
  apply never_dry_r_bind; [apply never_dry_r_py_index|]. intros v _.
  destruct (bool_decide (v ∈ used)); [apply IH; lia | discriminate].
Qed.

Lemma never_dry_r_offspring_genes (L point1 point2 : nat)
    (donor filler : list (option Z)) :
  never_dry_r (offspring_genes L point1 point2 donor filler).
Proof.
  unfold offspring_genes. apply never_dry_r_bind.
  { unfold copy_segment. apply never_dry_r_for_range. intros i s.
    apply never_dry_r_bind; [apply never_dry_r_py_index|]. intros v _.
    apply never_dry_r_py_store. }
  intros off _. apply never_dry_r_bind; [|discriminate].
  apply never_dry_r_for_range. intros i st. unfold fill_step.
  destruct (_ && _); [discriminate|].
  apply never_dry_r_bind; [apply never_dry_r_skip_used; lia|]. intros idx _.
  destruct (idx <? L); [|discriminate].
  apply never_dry_r_bind; [apply never_dry_r_py_index|]. intros v _.
  apply never_dry_r_bind; [apply never_dry_r_py_store | discriminate].
Qed.

Lemma never_dry_crossover (parent1 parent2 : Chromosome) :
  never_dry (crossover parent1 parent2).
Proof.
  unfold crossover. apply never_dry_bind; [intros w; discriminate|]. intros _.
  apply never_dry_bind; [apply never_dry_sample_range_2|]. intros [a b].
  apply never_dry_bind; [apply never_dry_lift, never_dry_r_offspring_genes|].
  intros g1.
  apply never_dry_bind; [apply never_dry_lift, never_dry_r_offspring_genes|].
  intros g2. apply never_dry_ret.
Qed.

Lemma never_dry_mutate (c : Chromosome) : never_dry (mutate c).
Proof.
  unfold mutate. apply never_dry_bind; [apply never_dry_sample_range_2|].
  intros [pos1 pos2].
  apply never_dry_bind; [apply never_dry_lift, never_dry_r_py_swap|].
  intros g. apply never_dry_ret.
Qed.

Lemma never_dry_r_calculate_fitness (c : Chromosome) (dm : list (list Z)) :
  never_dry_r (calculate_fitness c dm).
Proof.
  unfold calculate_fitness. apply never_dry_r_bind.
  { unfold get_routes. apply never_dry_r_bind; [|discriminate].
    induction (genes c) as [|[v|] gs IH]; cbn; try discriminate.
    apply never_dry_r_bind; [exact IH | discriminate]. }
  intros routes _. apply never_dry_r_bind; [|discriminate].
  intros H. apply total_distance_raise in H. discriminate.
Qed.

Lemma never_dry_r_sorted_by_fitness (l : list Chromosome) :
  never_dry_r (sorted_by_fitness l).
Proof. unfold never_dry_r, sorted_by_fitness. destruct (_ && _); discriminate. Qed.

Lemma never_dry_r_find_best_chromosome (p : Population) :
  never_dry_r (find_best_chromosome p).
Proof.
  unfold find_best_chromosome. destruct (chromosomes p); [discriminate|].
  apply never_dry_r_bind; [apply never_dry_r_sorted_by_fitness | discriminate].
Qed.

Lemma never_dry_r_py_true_div (a b : Z) : never_dry_r (py_true_div a b).
Proof. intros H. apply py_true_div_raise in H as [[? _]|[? _]]; discriminate. Qed.

Lemma never_dry_r_format_2f (x : option Z) : never_dry_r (format_2f x).
Proof.
  unfold format_2f. destruct x; [|discriminate].
  apply never_dry_r_bind; [apply never_dry_r_py_true_div | discriminate].
Qed.

Lemma never_dry_r_get_average_fitness (p : Population) :
  never_dry_r (get_average_fitness p).
Proof.
  unfold get_average_fitness. destruct (chromosomes p) as [|c cs]; [discriminate|].
  apply never_dry_r_bind; [|intros; apply never_dry_r_py_true_div].
  generalize 0%Z. induction (c :: cs) as [|c' l IH]; intros acc; [discriminate|].
  cbn. destruct (fitness c'); [apply IH | discriminate].
Qed.

Lemma never_dry_r_py_cmp (a b : option Z) :
  never_dry_r (py_le a b) ∧ never_dry_r (py_lt a b).
Proof. unfold never_dry_r. destruct a, b; split; discriminate. Qed.

Lemma never_dry_selection_loop (p : Population) (fuel : nat) :
  ∀ selected, 2 - length selected ≤ fuel →
  never_dry (selection_loop p fuel selected).
Proof.
  induction fuel as [|fuel IH]; intros selected Hfuel; cbn [selection_loop];
    destruct (Nat.ltb_spec (length selected) select_count) as [Hlt|Hge];
    cbn [negb]; unfold select_count in *; try lia; try apply never_dry_ret.
  apply never_dry_bind; [apply never_dry_sample_2|]. intros contenders.
  apply never_dry_bind; [apply never_dry_lift, never_dry_r_py_index|]. intros c0.
  apply never_dry_bind; [apply never_dry_lift, never_dry_r_py_index|]. intros c1.
  apply never_dry_bind; [apply never_dry_lift, never_dry_r_py_cmp|]. intros le.
  apply IH. rewrite length_app. cbn. lia.
Qed.

Lemma never_dry_selection (g : Genetic) : never_dry (selection g).
Proof.
  unfold selection. apply never_dry_bind.
  { apply never_dry_selection_loop. unfold select_count. cbn. lia. }
  intros sel. apply never_dry_bind; [intros w; discriminate|]. intros _.
  apply never_dry_ret.
Qed.

Lemma never_dry_add_offspring (g : Genetic) (o : Chromosome)
    (np : list Chromosome) : never_dry (add_offspring g o np).
Proof.
  unfold add_offspring. apply never_dry_bind; [intros w; discriminate|]. intros r.
  apply never_dry_bind.
  { destruct (Qlt_le_dec r (mutation_rate g));
      [apply never_dry_mutate | apply never_dry_ret]. }
  intros o'.
  apply never_dry_bind; [apply never_dry_lift, never_dry_r_calculate_fitness|].
  intros e. apply never_dry_ret.
Qed.

Lemma never_dry_reproduce (g : Genetic) (np : list Chromosome) :
  never_dry (reproduce g np).
Proof.
  unfold reproduce. apply never_dry_bind; [apply never_dry_selection|].
  intros selected. destruct (length selected <? 2); [apply never_dry_ret|].
  apply never_dry_bind; [apply never_dry_random_choice|]. intros parent1.
  apply never_dry_bind; [apply never_dry_random_choice|]. intros parent2.
  apply never_dry_bind; [apply never_dry_crossover|]. intros [o1 o2].
  apply never_dry_bind; [apply never_dry_add_offspring|]. intros np1.
  destruct (_ <? _)%Z; [|apply never_dry_ret].
  apply never_dry_bind; [apply never_dry_add_offspring|]. intros np2.
  apply never_dry_ret.
Qed.

Lemma never_dry_reproduction_loop (g : Genetic) (fuel : nat) :
  ∀ np w, (pop_size (population g) - Z.of_nat (length np) ≤ Z.of_nat fuel)%Z →
  reproduction_loop g fuel np w ≠ Raise FuelExhausted.
Proof.
  induction fuel as [|fuel IH]; intros np w Hfuel; cbn [reproduction_loop];
    destruct (Z.ltb_spec (Z.of_nat (length np)) (pop_size (population g)))
      as [Hlt|Hge]; cbn [negb]; try lia; try discriminate.
  apply never_dry_bind_dep; [apply never_dry_reproduce|].
  intros r w1 Hr.
  apply reproduce_inv, round_outcome_offspring in Hr
    as (np1 & extra & -> & -> & Hne & _).
  apply IH. rewrite length_app. destruct extra; [done|]. cbn. lia.
Qed.

(** Whatever the engine and the random source, a generation advance, a run
    and the constructors end as the Python code does: with a value or with
    a Python exception. *)
Theorem create_next_generation_never_dry (g : Genetic) :
  never_dry (create_next_generation g).
Proof.
  unfold create_next_generation.
  apply never_dry_bind; [apply never_dry_lift, never_dry_r_sorted_by_fitness|].
  intros sorted w. apply never_dry_bind_dep.
  { apply never_dry_reproduction_loop. lia. }
  intros np w1 _. revert w1.
  apply never_dry_bind; [apply never_dry_lift, never_dry_r_find_best_chromosome|].
  intros [cb|]; [|intros w1; discriminate].
  apply never_dry_bind; [apply never_dry_lift, never_dry_r_py_cmp|]. intros better.
  apply never_dry_bind; [apply never_dry_lift, never_dry_r_get_average_fitness|].
  intros avg. apply never_dry_ret.
Qed.

Lemma never_dry_r_report (g : Genetic) : never_dry_r (report g).
Proof.
  unfold report.
  apply never_dry_r_bind; [apply never_dry_r_find_best_chromosome|].
  intros [cb|] _; [|discriminate].
  apply never_dry_r_bind; [apply never_dry_r_format_2f|]. intros _ _.
  apply never_dry_r_bind; [apply never_dry_r_get_average_fitness | discriminate].
Qed.

Lemma never_dry_evolve (verbose : bool) (count : nat) :
  ∀ generation g, never_dry (evolve verbose generation count g).
Proof.
  induction count as [|count IH]; intros generation g; [apply never_dry_ret|].
  cbn [evolve].
  apply never_dry_bind; [apply create_next_generation_never_dry|]. intros g1.
  apply never_dry_bind; [|intros _; apply IH].
  apply never_dry_lift.
  destruct (verbose && _); [apply never_dry_r_report | discriminate].
Qed.

Theorem run_never_dry (verbose : bool) (g : Genetic) : never_dry (run verbose g).
Proof.
  unfold run. apply never_dry_bind.
  { apply never_dry_lift.
    destruct verbose; [apply never_dry_r_format_2f | discriminate]. }
  intros _. apply never_dry_bind; [apply never_dry_evolve|].
  intros g1. apply never_dry_bind; [|intros _; apply never_dry_ret].
  apply never_dry_lift.
  destruct verbose; [|discriminate]. unfold summary.
  destruct (fitness (best_solution g1)), (best_fitness_history g1) as [|[f0|] ?];
    try discriminate.
  apply never_dry_r_bind; [apply never_dry_r_py_true_div|]. intros _ _.
  apply never_dry_r_bind; [apply never_dry_r_py_true_div|]. intros _ _.
  apply never_dry_r_bind; [apply never_dry_r_py_true_div | discriminate].
Qed.

Theorem construct_never_dry (size n m : Z) (dm : list (list Z)) (G : Z)
    (rate : Q) (e : Z) : never_dry (construct size n m dm G rate e).
Proof.
  unfold construct. apply never_dry_bind.
  { unfold Population_init. apply never_dry_bind; [|intros cs; apply never_dry_ret].
    generalize (@nil Chromosome).
    induction (Z.to_nat size) as [|count IH]; intros cs; [apply never_dry_ret|].
    cbn [initialize_population].
    apply never_dry_bind; [apply never_dry_Chromosome_init|]. intros c.
    apply never_dry_bind; [apply never_dry_lift, never_dry_r_calculate_fitness|].
    intros r. apply IH. }
  intros p. apply never_dry_lift. unfold Genetic_init.
  apply never_dry_r_bind; [apply never_dry_r_find_best_chromosome|].
  intros [b|] _; [|discriminate].
  apply never_dry_r_bind; [apply never_dry_r_get_average_fitness | discriminate].
Qed.

(* ===================================================================== *)
(** * End to end, and two hand-traced examples *)
(* ===================================================================== *)

(** With two genes or more per chromosome, two chromosomes or more and a
    matrix over the depot and all locations whose entries are small enough
    for the floats, construction followed by a quiet run returns an engine
    in working order whose histories hold maxGenerations + 1 entries. *)
Theorem engine_end_to_end (size n m : Z) (dm : list (list Z)) (G : Z)
    (rate : Q) (e : Z) (w : World) :
  (2 ≤ n + m - 1)%Z → (2 ≤ size)%Z → (0 ≤ G)%Z → covers dm (n + 1) →
  small_matrix n m dm →
  ∃ g w1 g' w2,
    construct size n m dm G rate e w = Ok (g, w1) ∧
    run false g w1 = Ok (g', w2) ∧ healthy n m g' ∧
    Z.of_nat (length (best_fitness_history g')) = (G + 1)%Z ∧
    Z.of_nat (length (avg_fitness_history g')) = (G + 1)%Z.
Proof.
  intros Hlen Hsize HG Hcov Hsmall.
  destruct (construct_healthy size n m dm G rate e w Hlen Hsize Hcov Hsmall)
    as (g & w1 & Hg & Hhealthy).
  destruct (run_quiet_run n m g w1 Hhealthy) as (g' & w2 & Hrun & Hhealthy' & Hgen).
  exists g, w1, g', w2. split; [done|]. split; [done|]. split; [done|].
  unfold construct in Hg.
  apply mbind_ok in Hg as (p & w0 & _ & Hinit).
  apply lift_ok in Hinit as [Hinit _].
  apply Genetic_init_inv in Hinit as (_ & HmaxG & _ & _ & _ & _ & _ & Hb0 & Ha0).
  apply generations_histories in Hgen as (bl & al & Hb & Ha & Hbl & Hal).
  rewrite Hb, Ha, !length_app, Hb0, Ha0, Hbl, Hal, HmaxG. cbn. lia.
Qed.

(** Crossover with the cut points 1 and 4: positions 1..3 come from the
    donor, the other positions are filled from the other parent, in its
    order, skipping what the middle segment already holds. *)
Example offspring_cut_1_4 :
  offspring_genes 6 1 4 (genes parent_b) (genes parent_a)
  = Ok (Some <$> [2; 5; 4; 1; 3; 0]%Z) ∧
  offspring_genes 6 1 4 (genes parent_a) (genes parent_b)
  = Ok (Some <$> [5; 1; 2; 3; 4; 0]%Z).
Proof. split; vm_compute; reflexivity. Qed.

(** Two delimiters side by side, and one at the end, leave empty segments,
    which are dropped. *)
Example decode_empty_segments :
  decode 3 3 [0; 3; 4; 1; 2]%Z = [[-1; 0; -1]; [-1; 1; 2; -1]]%Z ∧
  decode 3 2 [2; 0; 1; 3]%Z = [[-1; 2; 0; 1; -1]]%Z.
Proof. split; reflexivity. Qed.

(* ===================================================================== *)
(** * More on decoding (chromosome.py) *)
(* ===================================================================== *)

Lemma int_genes_ok (gs : list (option Z)) (positions : list Z) :
  int_genes gs = Ok positions → gs = Some <$> positions.
Proof.
  revert positions. induction gs as [|[v|] gs IH]; intros positions Hrun.
  - by injection Hrun as <-.
  - cbn in Hrun. apply rbind_ok in Hrun as (vs & Hvs & Hrun).
    injection Hrun as <-. cbn. f_equal. by apply IH.
  - discriminate.
Qed.

Lemma int_genes_raise (gs : list (option Z)) (e : exn) :
  int_genes gs = Raise e → e = TypeError ∧ None ∈ gs.
Proof.
  induction gs as [|[v|] gs IH]; intros Hrun.
  - discriminate.
  - cbn in Hrun. destruct (int_genes gs) as [vs|e'] eqn:Hvs; [discriminate|].
    injection Hrun as <-. destruct (IH eq_refl) as [-> Hin].
    split; [done | by right].
  - injection Hrun as <-. split; [done | by left].
Qed.

(** X1: [get_routes] either returns or raises TypeError, and it raises
    exactly when some gene is [None]. *)
Theorem get_routes_TypeError (c : Chromosome) :
  (get_routes c = Raise TypeError ↔ None ∈ genes c) ∧
  (∀ e, get_routes c = Raise e → e = TypeError) ∧
  ((∃ routes, get_routes c = Ok routes) ↔ None ∉ genes c).
Proof.
  unfold get_routes.
  destruct (int_genes (genes c)) as [positions|e] eqn:Hint.
  - apply int_genes_ok in Hint. cbn.
    assert (Hnone : None ∉ genes c).
    { rewrite Hint. intros (v & ? & _)%list_elem_of_fmap. discriminate. }
    split; [split; [discriminate | done]|]. split; [discriminate|].
    split; [done | by eexists].
  - apply int_genes_raise in Hint as [-> Hin]. cbn.
    split; [done|]. split; [by intros e [= <-]|].
    split; [intros [routes ?]; discriminate | done].
Qed.

(** X2: every route that [get_routes] returns starts and ends at the depot
    and has at least one customer in between; every customer on it is a
    gene of the chromosome below numLocations. *)
Theorem get_routes_wrapped (c : Chromosome) (routes : list (list Z)) :
  get_routes c = Ok routes →
  Forall (wrapped (λ v, Some v ∈ genes c ∧ (v < num_locations c)%Z)) routes.
Proof.
  unfold get_routes. intros Hrun.
  apply rbind_ok in Hrun as (positions & Hint & Hrun). injection Hrun as <-.
  apply int_genes_ok in Hint.
  eapply Forall_impl;
    [apply (decode_wrapped (λ v, v ∈ positions)); by apply Forall_forall|].
  intros route (r & Hroute & Hne & Hr). exists r. split; [done|]. split; [done|].
  eapply Forall_impl; [exact Hr|]. intros v [Hv Hlt]. split; [|done].
  rewrite Hint. by apply list_elem_of_fmap_2.
Qed.

Lemma get_routes_wrapped_witness :
  Forall (wrapped (λ v, Some v ∈ genes scenario_chromosome ∧ (v < 5)%Z))
         [[-1; 0; 1; -1]; [-1; 2; 3; 4; -1]]%Z.
Proof. apply (get_routes_wrapped scenario_chromosome). reflexivity. Defined.

(** X3: the customers on the decoded routes, read route after route, are
    the location genes in the order of the chromosome: delimiters only cut
    the sequence, nothing is reordered, repeated or lost. *)
Theorem get_routes_keeps_order (c : Chromosome) (routes : list (list Z)) :
  get_routes c = Ok routes →
  ∃ positions, genes c = Some <$> positions ∧
    stops routes
    = filter (λ v, v ≠ depot_index)
             (filter (λ v, (v < num_locations c)%Z) positions).
Proof.
  unfold get_routes. intros Hrun.
  apply rbind_ok in Hrun as (positions & Hint & Hrun). injection Hrun as <-.
  apply int_genes_ok in Hint. exists positions. split; [done|].
  apply stops_decode.
Qed.

Lemma get_routes_keeps_order_witness :
  ∃ positions, genes scenario_chromosome = Some <$> positions ∧
    stops [[-1; 0; 1; -1]; [-1; 2; 3; 4; -1]]%Z
    = filter (λ v, v ≠ depot_index) (filter (λ v, (v < 5)%Z) positions).
Proof. apply (get_routes_keeps_order scenario_chromosome). reflexivity. Defined.

Lemma wrap_routes_length (routes : list (list Z)) :
  length (wrap_routes routes) ≤ length routes.
Proof.
  induction routes as [|[|a route] rest IH]; cbn [wrap_routes length]; lia.
Qed.

Lemma split_fold_length n (positions : list Z) (ds : list nat) :
  ∀ st0 : list (list Z) * nat,
  length (fst (foldl (split_step n positions) st0 ds))
  = length (fst st0) + length ds.
Proof.
  induction ds as [|p ds IH]; intros st0; cbn [foldl length]; [lia|].
  rewrite IH. unfold split_step. cbn [fst]. rewrite length_app. cbn. lia.
Qed.

Lemma scan_delimiters_length ds de (positions : list Z) : ∀ i0,
  length (scan_delimiters ds de i0 positions)
  = length (filter (λ v, (ds ≤ v < de)%Z) positions).
Proof.
  induction positions as [|v rest IH]; intros i0; [done|].
  cbn [scan_delimiters]. unfold is_delimiter.
  destruct (Z.leb_spec ds v), (Z.ltb_spec v de); cbn [andb].
  - rewrite filter_cons_True by lia. cbn. by rewrite IH.
  - rewrite filter_cons_False by lia. apply IH.
  - rewrite filter_cons_False by lia. apply IH.
  - rewrite filter_cons_False by lia. apply IH.
Qed.

(** The decoder returns at most one route more than there are delimiter
    genes. *)
Lemma decode_length (n m : Z) (positions : list Z) :
  length (decode n m positions)
  ≤ S (length (filter (λ v, (n ≤ v < n + m - 1)%Z) positions)).
Proof.
  unfold decode. etrans; [apply wrap_routes_length|].
  rewrite length_app, split_fold_length. cbn [fst length].
  rewrite (Permutation_length (merge_sort_Permutation _ _)).
  rewrite scan_delimiters_length. lia.
Qed.

(** With the delimiters 0 .. m-2 of a permutation there are at most [m]
    routes. *)
Lemma decode_at_most_num_vehicles (n m : Z) (positions : list Z) :
  (1 ≤ m)%Z → positions ≡ₚ seqZ 0 (n + m - 1) →
  (Z.of_nat (length (decode n m positions)) ≤ m)%Z.
Proof.
  intros Hm Hperm.
  pose proof (decode_length n m positions) as Hlen.
  assert (Hdelims :
    length (filter (λ v, (n ≤ v < n + m - 1)%Z) positions) ≤ Z.to_nat (m - 1)).
  { rewrite Hperm.
    assert (Hsub : filter (λ v, (n ≤ v < n + m - 1)%Z) (seqZ 0 (n + m - 1))
                   ⊆+ seqZ (n + m - 1 - (m - 1)) (m - 1)).
    { apply NoDup_submseteq; [apply NoDup_filter, NoDup_seqZ|].
      intros v [Hv Hin%elem_of_seqZ]%list_elem_of_filter.
      apply elem_of_seqZ. lia. }
    apply submseteq_length in Hsub. rewrite length_seqZ in Hsub. done. }
  lia.
Qed.

(** X4: a chromosome with at least one vehicle whose genes are a
    permutation of 0 .. numLocations+numVehicles-2 never decodes to more
    routes than there are vehicles. *)
Theorem get_routes_at_most_num_vehicles (n m : Z) (c : Chromosome) :
  (1 ≤ m)%Z → well_formed n m c →
  ∃ routes, get_routes c = Ok routes ∧ (Z.of_nat (length routes) ≤ m)%Z.
Proof.
  intros Hm Hwf.
  destruct (well_formed_positions n m c Hwf) as (positions & Hgenes & Hperm & _).
  destruct Hwf as (Hn & Hmc & _).
  exists (decode n m positions). split.
  - unfold get_routes. rewrite Hgenes, int_genes_fmap, Hn, Hmc. done.
  - by apply decode_at_most_num_vehicles.
Qed.

Lemma get_routes_at_most_num_vehicles_witness :
  ∃ routes, get_routes scenario_chromosome = Ok routes ∧
            (Z.of_nat (length routes) ≤ 2)%Z.
Proof.
  apply (get_routes_at_most_num_vehicles 5 2 scenario_chromosome); [lia|].
  split; [reflexivity|]. split; [reflexivity|]. unfold permutation_genes.
  apply (bool_decide_unpack _). vm_compute. exact I.
Defined.

(* ===================================================================== *)
(** * More on the fitness (chromosome.py) *)
(* ===================================================================== *)

Lemma matrix_entry_nonneg (dm : list (list Z)) (i j d : Z) :
  nonneg_matrix dm → matrix_entry dm i j = Ok d → (0 ≤ d)%Z.
Proof.
  intros Hdm Hd. unfold matrix_entry in Hd.
  apply rbind_ok in Hd as (row & Hrow & Hd).
  apply py_index_elem_of in Hrow, Hd.
  unfold nonneg_matrix in Hdm. rewrite Forall_forall in Hdm.
  specialize (Hdm row Hrow). rewrite Forall_forall in Hdm. by apply Hdm.
Qed.

Lemma route_distance_nonneg (dm : list (list Z)) (route : list Z) :
  nonneg_matrix dm →
  ∀ acc d, route_distance_from dm acc route = Ok d → (acc ≤ d)%Z.
Proof.
  intros Hdm. induction route as [|a route IH]; intros acc d.
  - intros [= <-]. done.
  - destruct route as [|b route]; [intros [= <-]; done|].
    cbn [route_distance_from]. intros Hrun.
    apply rbind_ok in Hrun as (d1 & Hd1 & Hrun).
    apply (matrix_entry_nonneg dm _ _ _ Hdm) in Hd1.
    apply IH in Hrun. lia.
Qed.

Lemma total_distance_nonneg (dm : list (list Z)) (routes : list (list Z)) :
  nonneg_matrix dm →
  ∀ acc t, total_distance_from dm acc routes = Ok t → (acc ≤ t)%Z.
Proof.
  intros Hdm. induction routes as [|route routes IH]; intros acc t.
  - intros [= <-]. done.
  - cbn [total_distance_from]. intros Hrun.
    apply rbind_ok in Hrun as (d & Hd & Hrun).
    apply (route_distance_nonneg dm route Hdm) in Hd.
    apply IH in Hrun. lia.
Qed.

(** X5: over a matrix without negative entries the fitness that
    [calculate_fitness] returns and stores is never negative. *)
Theorem calculate_fitness_nonneg (c c' : Chromosome) (dm : list (list Z))
    (t : Z) :
  nonneg_matrix dm → calculate_fitness c dm = Ok (c', t) →
  (0 ≤ t)%Z ∧ fitness c' = Some t.
Proof.
  intros Hdm Hrun. unfold calculate_fitness in Hrun.
  apply rbind_ok in Hrun as (routes & _ & Hrun).
  apply rbind_ok in Hrun as (total & Htotal & Hrun).
  injection Hrun as <- <-. split; [|done].
  by apply (total_distance_nonneg dm routes Hdm 0).
Qed.

Lemma calculate_fitness_nonneg_witness :
  nonneg_matrix sample_matrix ∧ (0 ≤ 25)%Z ∧ fitness chromosome_1 = Some 25%Z.
Proof.
  assert (Hdm : nonneg_matrix sample_matrix).
  { unfold nonneg_matrix, sample_matrix.
    repeat (apply Forall_cons; split); try apply Forall_nil; lia. }
  split; [exact Hdm|].
  apply (calculate_fitness_nonneg chromosome_1 chromosome_1 sample_matrix 25);
    [exact Hdm | reflexivity].
Defined.

(** X6: [calculate_fitness] fails in two ways only.  A gene that is [None]
    gives TypeError whatever the matrix is; with integer genes the only
    failure is the IndexError of a matrix read. *)
Theorem calculate_fitness_errors (c : Chromosome) (dm : list (list Z)) :
  (None ∈ genes c → calculate_fitness c dm = Raise TypeError) ∧
  (∀ e, calculate_fitness c dm = Raise e →
        (e = TypeError ∧ None ∈ genes c) ∨
        (e = IndexError ∧ None ∉ genes c)).
Proof.
  unfold calculate_fitness, get_routes.
  destruct (int_genes (genes c)) as [positions|e0] eqn:Hint.
  - apply int_genes_ok in Hint.
    assert (Hnone : None ∉ genes c).
    { rewrite Hint. intros (v & ? & _)%list_elem_of_fmap. discriminate. }
    split; [done|]. intros e. cbn.
    destruct (total_distance_from dm 0 _) as [t|e'] eqn:Ht; cbn; [discriminate|].
    intros [= <-]. right. split; [|done]. by eapply total_distance_raise.
  - apply int_genes_raise in Hint as [-> Hin]. cbn.
    split; [done|]. intros e [= <-]. by left.
Qed.

Lemma filter_location_none (n : Z) (l : list Z) :
  Forall (λ v, (n ≤ v)%Z) l → filter (is_location n) l = [].
Proof.
  induction 1 as [|v l Hv _ IH]; [done|].
  rewrite filter_cons_False by (unfold is_location; lia). exact IH.
Qed.

Lemma wrap_routes_empty (routes : list (list Z)) :
  Forall (λ route, route = []) routes → wrap_routes routes = [].
Proof. induction 1 as [|route routes -> _ IH]; [done | exact IH]. Qed.

Lemma decode_no_location (n m : Z) (positions : list Z) :
  Forall (λ v, (n ≤ v)%Z) positions → decode n m positions = [].
Proof.
  intros Hpos. unfold decode. apply wrap_routes_empty.
  assert (Hsub : ∀ l : list Z, l ⊆ positions → filter (is_location n) l = []).
  { intros l Hl. apply filter_location_none. rewrite Forall_forall in Hpos.
    apply Forall_forall. intros v Hv. apply Hpos, Hl, Hv. }
  apply Forall_app. split; [|constructor; [apply Hsub, subseteq_drop | constructor]].
  generalize (merge_sort Nat.le (scan_delimiters n (n + m - 1) 0 positions)).
  intros ds.
  assert (Hgen : ∀ st0 : list (list Z) * nat,
            Forall (λ route, route = []) (fst st0) →
            Forall (λ route, route = [])
                   (fst (foldl (split_step n positions) st0 ds))).
  { induction ds as [|p ds IH]; intros st0 Hst; [done|].
    cbn [foldl]. apply IH. unfold split_step, py_slice. cbn [fst].
    apply Forall_app. split; [done|]. constructor; [|constructor].
    apply Hsub. etrans; [apply subseteq_take | apply subseteq_drop]. }
  apply Hgen. constructor.
Qed.

(** X7: a chromosome whose genes are integers none of which is below
    numLocations (every chromosome over zero locations with non-negative
    genes, the empty one among them) has no route; its fitness is 0 and
    the matrix is never read, so any matrix will do, the empty one too. *)
Theorem calculate_fitness_no_location (c : Chromosome) (dm : list (list Z))
    (positions : list Z) :
  genes c = Some <$> positions →
  Forall (λ v, (num_locations c ≤ v)%Z) positions →
  get_routes c = Ok [] ∧
  calculate_fitness c dm
  = Ok (mkChromosome (num_locations c) (num_vehicles c) (genes c) (Some 0%Z),
        0%Z).
Proof.
  intros Hgenes Hpos. unfold calculate_fitness, get_routes.
  rewrite Hgenes, int_genes_fmap. cbn.
  rewrite (decode_no_location _ _ _ Hpos). done.
Qed.

Lemma calculate_fitness_no_location_witness :
  get_routes (mkChromosome 0 3 (Some <$> [1; 0]%Z) None) = Ok [] ∧
  calculate_fitness (mkChromosome 0 3 (Some <$> [1; 0]%Z) None) []
  = Ok (mkChromosome 0 3 (Some <$> [1; 0]%Z) (Some 0%Z), 0%Z).
Proof.
  refine (calculate_fitness_no_location
            (mkChromosome 0 3 (Some <$> [1; 0]%Z) None) [] [1; 0]%Z eq_refl _).
  repeat constructor; cbn; lia.
Defined.

(* ===================================================================== *)
(** * More on mutation and crossover (genetic.py) *)
(* ===================================================================== *)

Lemma py_swap_lookup {A} (l l' : list A) (i j : nat) :
  py_swap l i j = Ok l' →
  ∃ xi xj, l !! i = Some xi ∧ l !! j = Some xj ∧
           l' !! i = Some xj ∧ l' !! j = Some xi ∧
           (∀ k, k ≠ i → k ≠ j → l' !! k = l !! k) ∧
           length l' = length l.
Proof.
  unfold py_swap. destruct (l !! j) as [xj|] eqn:Hj; [|discriminate].
  destruct (l !! i) as [xi|] eqn:Hi; [|discriminate].
  intros [= <-]. exists xi, xj.
  assert (Hil : i < length l) by (by eapply lookup_lt_Some).
  assert (Hjl : j < length l) by (by eapply lookup_lt_Some).
  split; [done|]. split; [done|].
  split; [|split; [|split]].
  - destruct (decide (i = j)) as [->|Hne].
    + rewrite list_lookup_insert_eq by (by rewrite length_insert). congruence.
    + rewrite list_lookup_insert_ne by done.
      by rewrite list_lookup_insert_eq.
  - by rewrite list_lookup_insert_eq by (by rewrite length_insert).
  - intros k Hki Hkj. by rewrite !list_lookup_insert_ne.
  - by rewrite !length_insert.
Qed.

(** The two positions that a successful [mutate] exchanged. *)
Lemma mutate_positions (c c' : Chromosome) (w w' : World) :
  mutate c w = Ok (c', w') →
  ∃ pos1 pos2 g1 g2,
    pos1 ≠ pos2 ∧
    genes c !! pos1 = Some g1 ∧ genes c !! pos2 = Some g2 ∧
    genes c' !! pos1 = Some g2 ∧ genes c' !! pos2 = Some g1 ∧
    (∀ k, k ≠ pos1 → k ≠ pos2 → genes c' !! k = genes c !! k) ∧
    length (genes c') = length (genes c).
Proof.
  unfold mutate. intros H.
  apply mbind_ok in H as ([pos1 pos2] & w1 & Hs & H).
  apply sample_range_2_inv in Hs as (_ & _ & Hne & _).
  apply mbind_ok in H as (g & w2 & Hg & H).
  apply lift_ok in Hg as [Hg ->].
  injection H as <- <-. cbn [genes].
  apply py_swap_lookup in Hg as (g1 & g2 & H1 & H2 & H1' & H2' & Hrest & Hlen).
  by exists pos1, pos2, g1, g2.
Qed.

(** Exchanging two of pairwise different genes changes the chromosome. *)
Lemma mutate_changes_genes (c c' : Chromosome) (w w' : World) :
  NoDup (genes c) → mutate c w = Ok (c', w') → genes c' ≠ genes c.
Proof.
  intros Hnodup Hrun Heq.
  apply mutate_positions in Hrun
    as (pos1 & pos2 & g1 & g2 & Hne & H1 & H2 & H1' & _).
  rewrite Heq in H1'. apply Hne.
  by apply (NoDup_lookup _ _ _ g2 Hnodup).
Qed.

(** X8: a successful [mutate] exchanged the genes at two different
    positions and left every other position, the length and the problem
    sizes alone; the fitness of the result is unset.  When the genes of
    the chromosome are pairwise different, the result differs from the
    chromosome: the mutation is never a no-op. *)
Theorem mutate_exchanges_two_genes (c c' : Chromosome) (w w' : World) :
  mutate c w = Ok (c', w') →
  (∃ pos1 pos2 g1 g2,
     pos1 ≠ pos2 ∧
     genes c !! pos1 = Some g1 ∧ genes c !! pos2 = Some g2 ∧
     genes c' !! pos1 = Some g2 ∧ genes c' !! pos2 = Some g1 ∧
     ∀ k, k ≠ pos1 → k ≠ pos2 → genes c' !! k = genes c !! k) ∧
  length (genes c') = length (genes c) ∧
  num_locations c' = num_locations c ∧ num_vehicles c' = num_vehicles c ∧
  fitness c' = None ∧
  (NoDup (genes c) → genes c' ≠ genes c).
Proof.
  intros Hrun.
  destruct (mutate_positions c c' w w' Hrun)
    as (pos1 & pos2 & g1 & g2 & Hne & H1 & H2 & H1' & H2' & Hrest & Hlen).
  destruct (mutate_inv c c' w w' Hrun) as (_ & Hn & Hm & Hfit & _).
  split; [by exists pos1, pos2, g1, g2|].
  repeat (split; [done|]).
  intros Hnodup. by eapply mutate_changes_genes.
Qed.

Lemma mutate_exchanges_two_genes_witness :
  ∃ c' w', mutate parent_a sample_world = Ok (c', w') ∧
    (∃ pos1 pos2 g1 g2,
       pos1 ≠ pos2 ∧
       genes parent_a !! pos1 = Some g1 ∧ genes parent_a !! pos2 = Some g2 ∧
       genes c' !! pos1 = Some g2 ∧ genes c' !! pos2 = Some g1 ∧
       ∀ k, k ≠ pos1 → k ≠ pos2 → genes c' !! k = genes parent_a !! k) ∧
    length (genes c') = length (genes parent_a) ∧
    num_locations c' = num_locations parent_a ∧
    num_vehicles c' = num_vehicles parent_a ∧
    fitness c' = None ∧
    (NoDup (genes parent_a) → genes c' ≠ genes parent_a).
Proof.
  destruct (mutate parent_a sample_world) as [[c' w']|e] eqn:Hrun.
  - exists c', w'. split; [reflexivity|].
    exact (mutate_exchanges_two_genes parent_a c' sample_world w' Hrun).
  - vm_compute in Hrun. discriminate Hrun.
Defined.

(** X9: both operators draw two different positions with
    [random.sample(range(len), 2)], so they need two genes: [mutate]
    returns exactly when the chromosome has at least two genes and raises
    ValueError otherwise, and [crossover] raises ValueError whenever the
    first parent has fewer than two genes, whatever the second parent is. *)
Theorem operators_need_two_genes (c parent2 : Chromosome) (w : World) :
  ((∃ c' w', mutate c w = Ok (c', w')) ↔ 2 ≤ length (genes c)) ∧
  (mutate c w = Raise ValueError ↔ length (genes c) < 2) ∧
  (length (genes c) < 2 → crossover c parent2 w = Raise ValueError).
Proof.
  assert (Hshort : length (genes c) < 2 → mutate c w = Raise ValueError).
  { intros Hlen. unfold mutate. apply mbind_raise.
    by apply sample_range_2_raise. }
  split; [|split].
  - split; [|apply mutate_run].
    intros (c' & w' & Hrun).
    destruct (decide (2 ≤ length (genes c))) as [|Hlt]; [done|].
    rewrite Hshort in Hrun by lia. discriminate.
  - split; [|exact Hshort].
    intros Hrun. destruct (decide (length (genes c) < 2)) as [|Hge]; [done|].
    destruct (mutate_run c w) as (c' & w' & Hok); [lia|].
    rewrite Hok in Hrun. discriminate.
  - intros Hlen. unfold crossover.
    rewrite (mbind_run _ _ _ _ _ (log_run _ w)).
    apply mbind_raise. by apply sample_range_2_raise.
Qed.

Lemma filter_skipped {A} (P : A → Prop) `{∀ x, Decision (P x)} (l : list A)
    (a : nat) : ∀ b,
  a ≤ b → (∀ j, a ≤ j < b → ∃ v, l !! j = Some v ∧ ¬ P v) →
  filter P (take b l) = filter P (take a l).
Proof.
  induction b as [|b IH]; intros Hab Hskip.
  - by replace a with 0 by lia.
  - destruct (decide (a = S b)) as [->|Hne]; [done|].
    destruct (Hskip b) as (v & Hv & HP); [lia|].
    rewrite (take_S_r _ _ _ Hv), filter_app, filter_cons_False by done.
    rewrite filter_nil, app_nil_r. apply IH; [lia|].
    intros j Hj. apply Hskip. lia.
Qed.

Section order.
Variables (donor filler : list (option Z)) (L point1 point2 : nat).
Hypothesis Hfiller_len : length filler = L.
Hypothesis Hdonor_len : length donor = L.
Hypothesis Hfiller_nodup : NoDup filler.
Hypothesis Hdonor_nodup : NoDup donor.
Hypothesis Hsame : ∀ v, v ∈ donor → v ∈ filler.
Hypothesis Hpoints : point1 ≤ point2 ≤ L.

Lemma segment_length : length (py_slice donor point1 point2) = point2 - point1.
Proof. unfold py_slice. rewrite length_take, length_drop. lia. Qed.

Lemma segment_lookup (j : nat) :
  point1 ≤ j < point2 → py_slice donor point1 point2 !! (j - point1) = donor !! j.
Proof.
  intros Hj. unfold py_slice. rewrite lookup_take_lt by lia.
  rewrite lookup_drop. f_equal. lia.
Qed.

Lemma fill_inv_start (off : list (option Z)) :
  length off = L →
  (∀ j, point1 ≤ j < point2 → off !! j = donor !! j) →
  fill_inv filler L point1 point2 0
           (mkFill off (list_to_set (py_slice donor point1 point2)) 0).
Proof.
  intros Hlen Hmid. unfold fill_inv. cbn [fs_genes fs_used fs_index].
  assert (Hmiddle : ∀ j, filled L point1 point2 0 j → point1 ≤ j < point2).
  { unfold filled. intros j. lia. }
  refine (conj _ (conj _ (conj _ (conj _ (conj _ (conj _ _)))))).
  - done.
  - intros j Hj%Hmiddle.
    destruct (lookup_lt_is_Some_2 donor j) as [v Hv]; [lia|].
    exists v. rewrite Hmid by done. split; [done|].
    apply elem_of_list_to_set, (elem_of_middle donor filler L); try done. eauto.
  - intros j1 j2 v Hj1%Hmiddle Hj2%Hmiddle. rewrite !Hmid by done.
    apply (NoDup_lookup donor); done.
  - rewrite (middle_size donor filler L) by done. unfold outside_below. lia.
  - intros v Hv%elem_of_list_to_set.
    apply (elem_of_middle donor filler L) in Hv; try done.
    destruct Hv as (j & _ & Hj). apply Hsame, list_elem_of_lookup. eauto.
  - lia.
  - intros j Hj. lia.
Qed.

(** The fill holds as many values as there are positions outside the
    segment. *)
Lemma fill_values_length :
  length (fill_values (py_slice donor point1 point2) filler)
  = L - (point2 - point1).
Proof.
  unfold fill_values. set (M := py_slice donor point1 point2).
  pose proof (filter_app_complement (λ v, v ∉ M) filler) as Hsplit.
  apply Permutation_length in Hsplit. rewrite length_app in Hsplit.
  assert (Hmid : filter (λ v : option Z, ¬ (v ∉ M)) filler ≡ₚ M).
  { apply NoDup_Permutation.
    - by apply NoDup_filter.
    - unfold M, py_slice. eapply sublist_NoDup; [exact Hdonor_nodup|].
      etrans; [apply sublist_take | apply sublist_drop].
    - intros v. rewrite list_elem_of_filter. split.
      + intros [Hin _]. by destruct (decide (v ∈ M)).
      + intros Hin. split; [by intros Hnot|].
        apply Hsame. unfold M, py_slice in Hin.
        by apply subseteq_take, subseteq_drop in Hin. }
  apply Permutation_length in Hmid. rewrite Hmid in Hsplit.
  pose proof segment_length as HM. fold M in HM. lia.
Qed.

Lemma fill_step_order (i : nat) (st : fill_state) :
  i < L → fill_inv filler L point1 point2 i st →
  order_inv donor filler point1 point2 i st →
  ∃ st', fill_step filler L point1 point2 i st = Ok st' ∧
         fill_inv filler L point1 point2 (S i) st' ∧
         order_inv donor filler point1 point2 (S i) st'.
Proof.
  intros Hi Hfill (Hused & Hcount & Hout & Hmid).
  destruct (fill_step_run donor filler L point1 point2 Hfiller_len Hdonor_len
              Hfiller_nodup Hpoints i st Hi Hfill) as (st' & Hstep & Hfill').
  exists st'. split; [done|]. split; [done|].
  unfold fill_step in Hstep.
  destruct ((point1 <=? i) && (i <? point2)) eqn:Hm.
  { injection Hstep as <-.
    apply andb_true_iff in Hm as [H1%Nat.leb_le H2%Nat.ltb_lt].
    unfold order_inv. cbn zeta. split; [done|].
    split; [rewrite Hcount; unfold outside_below; lia|]. split; [|done].
    intros j Hj Hjout. apply Hout; [lia | done]. }
  assert (Hiout : ¬ (point1 ≤ i < point2)).
  { intros [H1 H2]. apply Nat.leb_le in H1. apply Nat.ltb_lt in H2.
    rewrite H1, H2 in Hm. discriminate. }
  clear Hm.
  destruct (skip_used_run donor filler L point1 point2 Hfiller_len Hdonor_len
              Hpoints (fs_used st) L (fs_index st))
    as (idx & Hrun & Hle & Hskipped & Hat); [lia|].
  rewrite Hrun in Hstep. cbn [mbind result_bind] in Hstep.
  destruct (Nat.ltb_spec idx L) as [Hlt|Hge].
  2:{ exfalso. injection Hstep as <-.
      destruct Hfill as (_ & _ & _ & Hsize & _).
      destruct Hfill' as (_ & _ & _ & Hsize' & _).
      cbn [fs_used] in Hsize'. rewrite Hsize in Hsize'.
      unfold outside_below in Hsize'. lia. }
  destruct (Hat Hlt) as (v & Hv & Hfresh).
  rewrite (py_index_lookup _ _ _ Hv) in Hstep. cbn [mbind result_bind] in Hstep.
  rewrite py_store_ok in Hstep by (destruct Hfill as [-> _]; lia).
  injection Hstep as <-.
  unfold order_inv. cbn [fs_genes fs_used fs_index]. cbn zeta.
  set (M := py_slice donor point1 point2) in *.
  assert (Hskip_mid : ∀ j, fs_index st ≤ j < idx →
                           ∃ v', filler !! j = Some v' ∧ ¬ (v' ∉ M)).
  { intros j Hj. destruct (Hskipped j Hj) as (v' & Hv' & Hin).
    exists v'. split; [done|]. intros Hnot.
    apply Hused in Hin as [Hin|Hin]; [done|].
    apply elem_of_take in Hin as (k & Hk & Hklt).
    assert (k = j) by (by apply (NoDup_lookup filler k j v')). lia. }
  assert (Hfilter : fill_values M (take idx filler)
                    = fill_values M (take (fs_index st) filler)).
  { by apply filter_skipped. }
  assert (HvM : v ∉ M).
  { intros Hin. apply Hfresh, Hused. by left. }
  assert (Htake : take (S idx) filler = take idx filler ++ [v])
    by (by apply take_S_r).
  split; [|split; [|split]].
  - intros v'. rewrite elem_of_union, elem_of_singleton, Htake, elem_of_app,
      list_elem_of_singleton. split.
    + intros [ ->|Hin]; [right; by right|].
      apply Hused in Hin as [?|Hin]; [by left|]. right; left.
      apply elem_of_take in Hin as (k & Hk & Hklt).
      apply elem_of_take. exists k. split; [done | lia].
    + intros [Hin|[Hin| ->] ]; [right; apply Hused; by left | | by left].
      right. apply elem_of_take in Hin as (k & Hk & Hklt).
      destruct (decide (k < fs_index st)) as [Hks|Hks].
      * apply Hused. right. apply elem_of_take. eauto.
      * destruct (Hskipped k) as (v2 & Hv2 & Hin2); [lia|]. congruence.
  - rewrite Htake. unfold fill_values in *.
    rewrite filter_app, length_app, Hfilter, Hcount.
    rewrite filter_cons_True by done. rewrite filter_nil. cbn [length].
    unfold outside_below. lia.
  - intros j Hj Hjout. destruct (decide (j = i)) as [->|Hne].
    + rewrite list_lookup_insert_eq by (destruct Hfill as [-> _]; lia).
      symmetry. unfold fill_values in *.
      rewrite <- (take_drop idx filler) at 1.
      rewrite filter_app, lookup_app_r by (rewrite Hfilter, Hcount; lia).
      rewrite Hfilter, Hcount, Nat.sub_diag.
      rewrite (drop_S _ _ _ Hv), filter_cons_True by done. done.
    + rewrite list_lookup_insert_ne by done. apply Hout; [lia | done].
  - intros j Hj. rewrite list_lookup_insert_ne by lia. by apply Hmid.
Qed.

(** Steps 2 and 3 compute the order crossover of the two parents. *)
Lemma offspring_genes_order :
  offspring_genes L point1 point2 donor filler
  = Ok (order_crossover point1 point2 donor filler).
Proof.
  unfold offspring_genes.
  destruct (copy_segment_run donor filler L point1 point2 Hfiller_len
              Hdonor_len Hpoints) as (off1 & Hoff1 & Hlen1 & Hmid1).
  rewrite Hoff1. cbn [mbind result_bind].
  rewrite (slice_of_middle donor filler L point1 point2 Hfiller_len Hdonor_len
             Hpoints off1 Hlen1 Hmid1).
  destruct (for_range_inv (fill_step filler L point1 point2)
              (λ i st, fill_inv filler L point1 point2 i st ∧
                       order_inv donor filler point1 point2 i st) L 0
    (mkFill off1 (list_to_set (py_slice donor point1 point2)) 0))
    as (st & Hst & Hfill & Hord).
  - split; [by apply fill_inv_start|].
    unfold order_inv. cbn [fs_genes fs_used fs_index]. cbn zeta.
    split; [|split; [|split]].
    + intros v. rewrite elem_of_list_to_set, take_0. split; [by left|].
      intros [?|Hin]; [done|]. by apply elem_of_nil in Hin.
    + done.
    + intros j Hj. lia.
    + done.
  - intros i st Hi [Hfill Hord].
    destruct (fill_step_order i st) as (st' & ? & ? & ?); [lia | done | done |].
    by exists st'.
  - rewrite Hst. cbn [mbind result_bind]. f_equal.
    destruct Hfill as (Hlen & _). destruct Hord as (_ & _ & Hout & Hmid).
    unfold order_crossover. cbn zeta.
    pose proof fill_values_length as HF. pose proof segment_length as HM.
    set (F := fill_values (py_slice donor point1 point2) filler) in *.
    set (M := py_slice donor point1 point2) in *.
    apply list_eq. intros j.
    destruct (decide (j < point1)) as [Hj1|Hj1].
    { rewrite lookup_app_l by (rewrite length_take; lia).
      rewrite lookup_take_lt by done. rewrite Hout by lia.
      f_equal. unfold outside_below. lia. }
    rewrite lookup_app_r by (rewrite length_take; lia).
    rewrite length_take, HF.
    destruct (decide (j < point2)) as [Hj2|Hj2].
    { rewrite lookup_app_l by lia. rewrite Hmid by lia.
      replace (j - point1 `min` (L - (point2 - point1))) with (j - point1)
        by lia.
      symmetry. apply segment_lookup. lia. }
    rewrite lookup_app_r by lia. rewrite lookup_drop, HM.
    destruct (decide (j < L)) as [HjL|HjL].
    + rewrite Hout by lia. f_equal. unfold outside_below. lia.
    + rewrite !lookup_ge_None_2 by lia. done.
Qed.
End order.

(** What a successful [crossover] did: it logged the call, drew two cut
    points and built each offspring from its two parents. *)
Lemma crossover_inv (parent1 parent2 o1 o2 : Chromosome) (w w' : World) :
  crossover parent1 parent2 w = Ok ((o1, o2), w') →
  ∃ point1 point2 g1 g2,
    point1 < point2 < length (genes parent1) ∧
    offspring_genes (length (genes parent1)) point1 point2
                    (genes parent2) (genes parent1) = Ok g1 ∧
    offspring_genes (length (genes parent1)) point1 point2
                    (genes parent1) (genes parent2) = Ok g2 ∧
    o1 = mkChromosome (num_locations parent1) (num_vehicles parent1) g1 None ∧
    o2 = mkChromosome (num_locations parent1) (num_vehicles parent1) g2 None ∧
    trace w' = trace w ++ [EvCrossover parent1 parent2].
Proof.
  unfold crossover. intros H.
  rewrite (mbind_run _ _ _ _ _ (log_run _ w)) in H.
  apply mbind_ok in H as ([a b] & w1 & Hs & H).
  apply sample_range_2_inv in Hs as (Ha & Hb & Hab & Ht).
  apply mbind_ok in H as (g1 & w2 & Hg1 & H). apply lift_ok in Hg1 as [Hg1 ->].
  apply mbind_ok in H as (g2 & w3 & Hg2 & H). apply lift_ok in Hg2 as [Hg2 ->].
  injection H as <- <- <-.
  exists (a `min` b), (a `max` b), g1, g2.
  split; [lia|]. repeat (split; [done|]). exact Ht.
Qed.

Lemma filter_all {A} (P : A → Prop) `{∀ x, Decision (P x)} (l : list A) :
  Forall P l → filter P l = l.
Proof.
  induction 1 as [|x l Hx _ IH]; [done|].
  rewrite filter_cons_True by done. by rewrite IH.
Qed.

Lemma filter_none {A} (P : A → Prop) `{∀ x, Decision (P x)} (l : list A) :
  Forall (λ x, ¬ P x) l → filter P l = [].
Proof.
  induction 1 as [|x l Hx _ IH]; [done|].
  rewrite filter_cons_False by done. exact IH.
Qed.

Lemma filter_out_middle (A B C : list (option Z)) :
  NoDup (A ++ B ++ C) → fill_values B (A ++ B ++ C) = A ++ C.
Proof.
  intros (_ & HAB & (_ & HBC & _)%NoDup_app)%NoDup_app.
  unfold fill_values. rewrite !filter_app.
  rewrite (filter_all _ A), (filter_none _ B), (filter_all _ C); [done | | |].
  - apply Forall_forall. intros v Hv HB. by apply (HBC v).
  - apply Forall_forall. intros v Hv Hnot. by apply Hnot.
  - apply Forall_forall. intros v Hv HB. apply (HAB v Hv).
    apply elem_of_app. by left.
Qed.

(** Crossing a list without repeats with itself gives it back. *)
Lemma order_crossover_same (p : list (option Z)) (point1 point2 : nat) :
  NoDup p → point1 ≤ point2 ≤ length p →
  order_crossover point1 point2 p p = p.
Proof.
  intros Hnodup Hpoints.
  assert (Hp : p = take point1 p ++ py_slice p point1 point2 ++ drop point2 p).
  { unfold py_slice. rewrite <- (take_drop point1 p) at 1. f_equal.
    rewrite <- (take_drop (point2 - point1) (drop point1 p)) at 1. f_equal.
    rewrite drop_drop. f_equal. lia. }
  unfold order_crossover. cbn zeta.
  set (B := py_slice p point1 point2) in *.
  assert (HF : fill_values B p = take point1 p ++ drop point2 p).
  { rewrite Hp at 1. apply filter_out_middle. by rewrite <- Hp. }
  rewrite HF.
  assert (Hlen : length (take point1 p) = point1)
    by (rewrite length_take; lia).
  rewrite take_app_length', drop_app_length' by done. by rewrite <- Hp.
Qed.

(** X10: for two parents that hold the same values, each once, a
    successful [crossover] is order crossover at two cut points
    [point1 < point2 < len]: offspring 1 keeps parent 2's genes at the
    positions [point1 .. point2-1] and fills the other positions, left to
    right, with parent 1's values that this segment does not hold, in
    parent 1's order; offspring 2 is the same with the parents exchanged.
    The last position is never inside the segment. *)
Theorem crossover_is_order_crossover (parent1 parent2 o1 o2 : Chromosome)
    (w w' : World) :
  NoDup (genes parent1) → genes parent2 ≡ₚ genes parent1 →
  crossover parent1 parent2 w = Ok ((o1, o2), w') →
  ∃ point1 point2,
    point1 < point2 < length (genes parent1) ∧
    genes o1 = order_crossover point1 point2 (genes parent2) (genes parent1) ∧
    genes o2 = order_crossover point1 point2 (genes parent1) (genes parent2) ∧
    fitness o1 = None ∧ fitness o2 = None.
Proof.
  intros Hnodup Hperm Hrun.
  apply crossover_inv in Hrun
    as (point1 & point2 & g1 & g2 & Hpoints & Hg1 & Hg2 & -> & -> & _).
  assert (Hnodup2 : NoDup (genes parent2)) by (by rewrite Hperm).
  assert (Hlen2 : length (genes parent2) = length (genes parent1))
    by (by rewrite Hperm).
  rewrite (offspring_genes_order (genes parent2) (genes parent1)) in Hg1;
    [|done|done|done|done|by intros v; rewrite Hperm|lia].
  rewrite (offspring_genes_order (genes parent1) (genes parent2)) in Hg2;
    [|done|done|done|done|by intros v; rewrite Hperm|lia].
  injection Hg1 as <-. injection Hg2 as <-.
  exists point1, point2. done.
Qed.

Lemma crossover_is_order_crossover_witness :
  ∃ o1 o2 w', crossover parent_a parent_b sample_world = Ok ((o1, o2), w') ∧
  ∃ point1 point2,
    point1 < point2 < length (genes parent_a) ∧
    genes o1 = order_crossover point1 point2 (genes parent_b) (genes parent_a) ∧
    genes o2 = order_crossover point1 point2 (genes parent_a) (genes parent_b) ∧
    fitness o1 = None ∧ fitness o2 = None.
Proof.
  destruct (crossover parent_a parent_b sample_world)
    as [[[o1 o2] w']|e] eqn:Hrun.
  - exists o1, o2, w'. split; [reflexivity|].
    apply (crossover_is_order_crossover parent_a parent_b o1 o2
             sample_world w'); [| |exact Hrun].
    + apply (bool_decide_unpack _). vm_compute. exact I.
    + apply (bool_decide_unpack _). vm_compute. exact I.
  - vm_compute in Hrun. discriminate Hrun.
Defined.

(** X11: crossing a chromosome whose genes are pairwise different with a
    chromosome of the same genes (itself, when [random.choice] picks the
    same winner twice) changes nothing: whatever the cut points, both
    offspring carry the genes of the parent, with the fitness unset. *)
Theorem crossover_of_equal_parents (parent1 parent2 : Chromosome) (w : World) :
  NoDup (genes parent1) → genes parent2 = genes parent1 →
  2 ≤ length (genes parent1) →
  ∃ w', crossover parent1 parent2 w
        = Ok ((mkChromosome (num_locations parent1) (num_vehicles parent1)
                            (genes parent1) None,
               mkChromosome (num_locations parent1) (num_vehicles parent1)
                            (genes parent1) None), w') ∧
        trace w' = trace w ++ [EvCrossover parent1 parent2].
Proof.
  intros Hnodup Hsame Hlen.
  destruct (crossover_run parent1 parent2 w Hnodup) as [_ Hlong];
    [by rewrite Hsame|].
  destruct (Hlong Hlen) as (o1 & o2 & w' & Hrun & _).
  exists w'. rewrite Hrun.
  apply crossover_inv in Hrun
    as (point1 & point2 & g1 & g2 & Hpoints & Hg1 & Hg2 & -> & -> & Ht).
  rewrite Hsame in Hg1, Hg2.
  assert (Hord : offspring_genes (length (genes parent1)) point1 point2
                   (genes parent1) (genes parent1) = Ok (genes parent1)).
  { rewrite (offspring_genes_order (genes parent1) (genes parent1));
      [|done|done|done|done|done|lia].
    rewrite order_crossover_same by (done || lia). done. }
  rewrite Hord in Hg1, Hg2.
  injection Hg1 as <-. injection Hg2 as <-. done.
Qed.

Lemma crossover_of_equal_parents_witness :
  ∃ w', crossover parent_a parent_a sample_world
        = Ok ((mkChromosome 5 2 (genes parent_a) None,
               mkChromosome 5 2 (genes parent_a) None), w') ∧
        trace w' = trace sample_world ++ [EvCrossover parent_a parent_a].
Proof.
  refine (crossover_of_equal_parents parent_a parent_a sample_world _ eq_refl _).
  - apply (bool_decide_unpack _). vm_compute. exact I.
  - vm_compute. lia.
Defined.

(* ===================================================================== *)
(** * More on the population (population.py) and engine construction *)
(* ===================================================================== *)

Lemma head_insert_by_fitness (x : Chromosome) (l : list Chromosome) :
  head (insert_by_fitness x l)
  = match head l with
    | Some y => if (fitness_key y <? fitness_key x)%Z then Some y else Some x
    | None => Some x
    end.
Proof.
  destruct l as [|y l]; [done|]. cbn.
  by destruct (fitness_key y <? fitness_key x)%Z.
Qed.

(** The head of the sorted list is the first item of least key. *)
Lemma sort_head_first_minimum (l : list Chromosome) : ∀ b,
  head (foldr insert_by_fitness [] l) = Some b →
  ∃ i, l !! i = Some b ∧
       (∀ c, c ∈ l → (fitness_key b ≤ fitness_key c)%Z) ∧
       (∀ j c, j < i → l !! j = Some c → (fitness_key b < fitness_key c)%Z).
Proof.
  induction l as [|x l IH]; intros b Hhead; [discriminate|].
  cbn [foldr] in Hhead. rewrite head_insert_by_fitness in Hhead.
  destruct (head (foldr insert_by_fitness [] l)) as [y|] eqn:Hy.
  - destruct (IH y eq_refl) as (i & Hi & Hmin & Hfirst).
    destruct (Z.ltb_spec (fitness_key y) (fitness_key x)) as [Hlt|Hge];
      injection Hhead as <-.
    + exists (S i). split; [done|]. split.
      * intros c [->|Hc]%elem_of_cons; [lia | by apply Hmin].
      * intros [|j] c Hj Hc; [injection Hc as <-; lia|].
        apply (Hfirst j); [lia | done].
    + exists 0. split; [done|]. split; [|intros; lia].
      intros c [->|Hc]%elem_of_cons; [lia|]. specialize (Hmin c Hc). lia.
  - injection Hhead as <-. exists 0. split; [done|]. split; [|intros; lia].
    assert (l = []) as ->.
    { pose proof (sort_by_fitness_Permutation l) as Hperm.
      destruct (foldr insert_by_fitness [] l); [|discriminate].
      by apply Permutation_nil_l in Hperm. }
    intros c [->|Hc]%elem_of_cons; [lia|]. by apply elem_of_nil in Hc.
Qed.

(** X12: [find_best_chromosome] returns a chromosome of least fitness, and
    among several of least fitness the one that comes first in the
    population: no chromosome has a lower fitness and every chromosome
    before it has a strictly higher one. *)
Theorem find_best_chromosome_first_minimum (p : Population) (b : Chromosome) :
  find_best_chromosome p = Ok (Some b) →
  ∃ i, chromosomes p !! i = Some b ∧
       (2 ≤ length (chromosomes p) → is_Some (fitness b)) ∧
       ∀ j c fb fc, chromosomes p !! j = Some c →
         fitness b = Some fb → fitness c = Some fc →
         (fb ≤ fc)%Z ∧ (j < i → (fb < fc)%Z).
Proof.
  unfold find_best_chromosome. destruct (chromosomes p) as [|c0 cs] eqn:Hcs.
  { discriminate. }
  intros Hrun. apply rbind_ok in Hrun as (s & Hs & Hrun).
  injection Hrun as Hhead.
  apply sorted_by_fitness_inv in Hs as (-> & _ & _ & Hall).
  apply sort_head_first_minimum in Hhead as (i & Hi & Hmin & Hfirst).
  exists i. split; [done|]. split.
  - intros Hlen. specialize (Hall Hlen). rewrite Forall_forall in Hall.
    apply Hall. by eapply list_elem_of_lookup_2.
  - intros j c fb fc Hj Hfb Hfc.
    assert (Hkb : fitness_key b = fb) by (unfold fitness_key; by rewrite Hfb).
    assert (Hkc : fitness_key c = fc) by (unfold fitness_key; by rewrite Hfc).
    split.
    + rewrite <- Hkb, <- Hkc. apply Hmin. by eapply list_elem_of_lookup_2.
    + intros Hlt. rewrite <- Hkb, <- Hkc. by apply (Hfirst j).
Qed.

Lemma find_best_chromosome_first_minimum_witness :
  ∃ i, chromosomes sample_population !! i = Some chromosome_1 ∧
       (2 ≤ length (chromosomes sample_population) →
        is_Some (fitness chromosome_1)) ∧
       ∀ j c fb fc, chromosomes sample_population !! j = Some c →
         fitness chromosome_1 = Some fb → fitness c = Some fc →
         (fb ≤ fc)%Z ∧ (j < i → (fb < fc)%Z).
Proof.
  apply (find_best_chromosome_first_minimum sample_population chromosome_1).
  reflexivity.
Defined.

Lemma sum_fitness_raise (l : list Chromosome) : ∀ acc,
  (∃ c, c ∈ l ∧ fitness c = None) → sum_fitness acc l = Raise TypeError.
Proof.
  induction l as [|x l IH]; intros acc (c & Hc & Hnone).
  - by apply elem_of_nil in Hc.
  - cbn [sum_fitness]. destruct (fitness x) as [f|] eqn:Hf; [|done].
    apply IH. apply elem_of_cons in Hc as [->|Hc]; [congruence | eauto].
Qed.

Lemma existsb_has_no_fitness (l : list Chromosome) :
  (∃ c, c ∈ l ∧ fitness c = None) → existsb has_no_fitness l = true.
Proof.
  intros (c & Hc & Hnone). apply existsb_exists. exists c.
  split; [by apply list_elem_of_In|]. unfold has_no_fitness. by rewrite Hnone.
Qed.

Lemma Genetic_init_TypeError (p : Population) (G : Z) (rate : Q) (e : Z) :
  chromosomes p ≠ [] → (∃ c, c ∈ chromosomes p ∧ fitness c = None) →
  Genetic_init p G rate e = Raise TypeError.
Proof.
  intros Hne Hnone. unfold Genetic_init, find_best_chromosome.
  destruct (chromosomes p) as [|c0 cs] eqn:Hcs; [done|].
  unfold sorted_by_fitness. rewrite (existsb_has_no_fitness _ Hnone).
  destruct cs as [|c1 cs]; [|done].
  cbn. unfold get_average_fitness. rewrite Hcs.
  by rewrite (sum_fitness_raise _ _ Hnone).
Qed.

(** X13: what [Genetic.__init__] does depends on the population alone.  On
    an empty population it raises AttributeError; on a non-empty one with
    a chromosome that has no fitness it raises TypeError; on a non-empty
    one whose chromosomes all have a fitness it raises OverflowError when
    the division of the sum of the fitness values by their number
    overflows the floats, and returns an engine otherwise.  It fails in
    no other way, and it returns an engine whenever every fitness is at
    most 2^1023 in magnitude.  The other parameters are never looked
    at. *)
Theorem Genetic_init_outcomes (p : Population) (G : Z) (rate : Q) (e : Z) :
  (Genetic_init p G rate e = Raise AttributeError ↔ chromosomes p = []) ∧
  (Genetic_init p G rate e = Raise TypeError ↔
   chromosomes p ≠ [] ∧ ∃ c, c ∈ chromosomes p ∧ fitness c = None) ∧
  (Genetic_init p G rate e = Raise OverflowError ↔
   chromosomes p ≠ [] ∧
   ∃ t, sum_fitness 0 (chromosomes p) = Ok t ∧
        py_true_div t (Z.of_nat (length (chromosomes p))) = Raise OverflowError) ∧
  ((∃ g, Genetic_init p G rate e = Ok g) ↔
   chromosomes p ≠ [] ∧
   ∃ t avg, sum_fitness 0 (chromosomes p) = Ok t ∧
            py_true_div t (Z.of_nat (length (chromosomes p))) = Ok avg) ∧
  (∀ err, Genetic_init p G rate e = Raise err →
          err = AttributeError ∨ err = TypeError ∨ err = OverflowError) ∧
  (chromosomes p ≠ [] → Forall fitness_in_range (chromosomes p) →
   ∃ g, Genetic_init p G rate e = Ok g).
Proof.
  destruct (decide (chromosomes p = [])) as [Hnil|Hne].
  { rewrite (Genetic_init_empty p G rate e Hnil).
    split; [done|]. split; [split; [discriminate | by intros [? _]]|].
    split; [split; [discriminate | by intros [? _]]|].
    split; [split; [intros [g ?]; discriminate | by intros [? _]]|].
    split; [intros err [= <-]; by left | done]. }
  destruct (decide (Forall (λ c, is_Some (fitness c)) (chromosomes p)))
    as [Hall|Hnot].
  - destruct (find_best_chromosome_run p Hne Hall) as [b Hb].
    destruct (sum_fitness_run _ Hall 0%Z) as [t Ht].
    assert (Hnone : ¬ ∃ c, c ∈ chromosomes p ∧ fitness c = None).
    { intros (c & Hc & Hf). rewrite Forall_forall in Hall.
      destruct (Hall c Hc) as [f Hf']. congruence. }
    assert (Hinit : Genetic_init p G rate e
                    = match py_true_div t (Z.of_nat (length (chromosomes p))) with
                      | Ok avg => Ok (mkGenetic p G rate e 0 b [fitness b] [avg])
                      | Raise err => Raise err
                      end).
    { unfold Genetic_init. rewrite Hb. cbn [mbind result_bind].
      unfold get_average_fitness. destruct (chromosomes p) as [|c0 cs]; [done|].
      rewrite Ht. cbn [mbind result_bind]. by destruct (py_true_div _ _). }
    rewrite Hinit, Ht.
    destruct (py_true_div t (Z.of_nat (length (chromosomes p))))
      as [avg|err] eqn:Hdiv.
    + split; [split; [discriminate | done]|].
      split; [split; [discriminate | by intros [_ ?]]|].
      split; [split; [discriminate | intros (_ & t' & [= <-] & ?); congruence]|].
      split; [split; [by intros _; split; [|exists t, avg] | by eexists]|].
      split; [discriminate | by eexists].
    + pose proof (py_true_div_raise _ _ _ Hdiv) as Herr.
      destruct Herr as [[_ Hz]|[-> _]].
      { destruct (chromosomes p); [done | cbn [length] in Hz; lia]. }
      split; [split; [discriminate | done]|].
      split; [split; [discriminate | by intros [_ ?]]|].
      split; [split; [by intros _; split; [|exists t] | done]|].
      split; [split; [intros [g ?]; discriminate
                     | intros (_ & t' & avg & [= <-] & ?); congruence]|].
      split; [intros err [= <-]; by right; right|].
      intros _ Hrange.
      destruct (Genetic_init_run p G rate e Hne Hrange) as [g Hg].
      rewrite Hinit in Hg. discriminate.
  - assert (Hnone : ∃ c, c ∈ chromosomes p ∧ fitness c = None).
    { apply not_Forall_Exists in Hnot; [|apply _].
      apply Exists_exists in Hnot as (c & Hc & Hf). exists c. split; [done|].
      cbn in Hf. destruct (fitness c); [|done]. by destruct Hf. }
    assert (Hsum : ∀ t, sum_fitness 0 (chromosomes p) ≠ Ok t).
    { intros t Ht. by apply sum_fitness_inv in Ht. }
    rewrite (Genetic_init_TypeError p G rate e Hne Hnone).
    split; [split; [discriminate | done]|]. split; [done|].
    split; [split; [discriminate | by intros (_ & t & Ht%Hsum & _)]|].
    split; [split; [intros [g ?]; discriminate
                   | by intros (_ & t & avg & Ht%Hsum & _)]|].
    split; [intros err [= <-]; by right; left|].
    intros _ Hrange. by apply fitness_in_range_is_Some in Hrange.
Qed.

(** The float average of integer fitness values is not below a lower
    bound of the values that a float holds exactly. *)
Lemma average_lower (p : Population) (avg : Q) (lo : Z) :
  chromosomes p ≠ [] → get_average_fitness p = Ok avg → holds_exactly lo →
  (∀ c f, c ∈ chromosomes p → fitness c = Some f → (lo ≤ f)%Z) →
  (inject_Z lo <= avg)%Q.
Proof.
  intros Hne Havg Hlo Hbound. unfold get_average_fitness in Havg.
  destruct (chromosomes p) as [|c0 cs] eqn:Hcs; [done|].
  apply rbind_ok in Havg as (t & Ht & Havg).
  pose proof (sum_fitness_lower lo (c0 :: cs) 0 t Ht Hbound) as Hsum.
  apply (py_true_div_lower _ _ lo) in Havg; [done | cbn [length]; lia | done | lia].
Qed.

(** Nor above an upper bound of the values that a float holds exactly. *)
Lemma average_upper (p : Population) (avg : Q) (hi : Z) :
  chromosomes p ≠ [] → get_average_fitness p = Ok avg → holds_exactly hi →
  (∀ c f, c ∈ chromosomes p → fitness c = Some f → (f ≤ hi)%Z) →
  (avg <= inject_Z hi)%Q.
Proof.
  intros Hne Havg Hhi Hbound. unfold get_average_fitness in Havg.
  destruct (chromosomes p) as [|c0 cs] eqn:Hcs; [done|].
  apply rbind_ok in Havg as (t & Ht & Havg).
  pose proof (sum_fitness_upper hi (c0 :: cs) 0 t Ht Hbound) as Hsum.
  apply (py_true_div_upper _ _ hi) in Havg; [done | cbn [length]; lia | done | lia].
Qed.

(** The average is at least the fitness of the best chromosome, when a
    float holds that fitness exactly. *)
Lemma average_at_least_best (p : Population) (b : Chromosome) (avg : Q) :
  find_best_chromosome p = Ok (Some b) →
  get_average_fitness p = Ok avg →
  ∃ fb, fitness b = Some fb ∧ (holds_exactly fb → (inject_Z fb <= avg)%Q).
Proof.
  intros Hbest Havg.
  assert (Hall := get_average_fitness_inv _ _ Havg).
  apply find_best_chromosome_inv in Hbest as [Hin Hmin].
  rewrite Forall_forall in Hall. destruct (Hall b Hin) as [fb Hfb].
  exists fb. split; [done|]. intros Hexact.
  assert (Hne : chromosomes p ≠ []).
  { intros Hnil. rewrite Hnil in Hin. by apply elem_of_nil in Hin. }
  apply (average_lower p avg fb Hne Havg Hexact).
  intros c f Hc Hf. specialize (Hmin c Hc). unfold fitness_key in Hmin.
  by rewrite Hfb, Hf in Hmin.
Qed.

(** X14: for a non-empty population of integer fitness values that a float
    holds exactly (at most 2^53 in magnitude), the average that
    [get_average_fitness] returns lies between the best and the worst
    fitness: it is never below the fitness of the chromosome that
    [find_best_chromosome] returns and never above a bound on all fitness
    values. *)
Theorem average_between_best_and_worst (p : Population) (b : Chromosome)
    (avg : Q) :
  find_best_chromosome p = Ok (Some b) →
  get_average_fitness p = Ok avg →
  Forall (λ c, ∀ f, fitness c = Some f → holds_exactly f) (chromosomes p) →
  ∃ fb, fitness b = Some fb ∧ (inject_Z fb <= avg)%Q ∧
        ∀ hi, (∀ c f, c ∈ chromosomes p → fitness c = Some f → (f ≤ hi)%Z) →
              (avg <= inject_Z hi)%Q.
Proof.
  intros Hbest Havg Hexact. rewrite Forall_forall in Hexact.
  destruct (average_at_least_best p b avg Hbest Havg) as (fb & Hfb & Hlo).
  apply find_best_chromosome_inv in Hbest as [Hin Hmin].
  assert (Hfbx : holds_exactly fb) by (by apply (Hexact b)).
  exists fb. split; [done|]. split; [by apply Hlo|].
  intros hi Hhi.
  assert (Hne : chromosomes p ≠ []).
  { intros Hnil. rewrite Hnil in Hin. by apply elem_of_nil in Hin. }
  assert (Hfbhi : (fb ≤ hi)%Z) by (by apply (Hhi b)).
  unfold holds_exactly in Hfbx.
  apply Qle_trans with (inject_Z (Z.min hi (2 ^ 53))).
  - apply (average_upper p avg _ Hne Havg); [unfold holds_exactly; lia|].
    intros c f Hc Hf. specialize (Hhi c f Hc Hf).
    specialize (Hexact c Hc f Hf). unfold holds_exactly in Hexact. lia.
  - rewrite <- Zle_Qle. lia.
Qed.

Lemma average_between_best_and_worst_witness :
  ∃ fb, fitness chromosome_1 = Some fb ∧ (inject_Z fb <= 113 # 4)%Q ∧
        ∀ hi, (∀ c f, c ∈ chromosomes sample_population →
                      fitness c = Some f → (f ≤ hi)%Z) →
              (113 # 4 <= inject_Z hi)%Q.
Proof.
  apply (average_between_best_and_worst sample_population chromosome_1
           (113 # 4)%Q); [reflexivity | reflexivity |].
  unfold sample_population. cbn [chromosomes].
  repeat (apply Forall_cons; split); try apply Forall_nil;
    first [exact I | intros f [= <-]; vm_compute; discriminate].
Defined.

(** Beyond 53 bits the division rounds: the average of the single fitness
    2^53 + 1 is 2^53, below that fitness. *)
Example average_rounds :
  get_average_fitness
    (mkPopulation 1 1 1 [[0; 2 ^ 52]; [2 ^ 52 + 1; 0]]%Z
       [mkChromosome 1 1 [Some 0%Z] (Some (2 ^ 53 + 1)%Z)])
  = Ok (inject_Z (2 ^ 53)).
Proof. vm_compute. reflexivity. Qed.

(* ===================================================================== *)
(** * More on selection and on one generation (genetic.py) *)
(* ===================================================================== *)

Lemma mbind_lift_raise {A B} (r : result A) (e : exn) (k : A → M B) (w : World) :
  r = Raise e → (lift r ≫= k) w = Raise e.
Proof. by intros ->. Qed.

(** With two chromosomes or more, the tournaments fail only on a
    contender without fitness. *)
Lemma selection_loop_raise (p : Population) (fuel : nat) :
  2 ≤ length (chromosomes p) →
  ∀ selected w e, 2 - length selected ≤ fuel →
  selection_loop p fuel selected w = Raise e →
  e = TypeError ∧ ∃ c, c ∈ chromosomes p ∧ fitness c = None.
Proof.
  intros Hlen.
  induction fuel as [|fuel IH]; intros selected w e Hfuel;
    cbn [selection_loop];
    destruct (Nat.ltb_spec (length selected) select_count) as [Hlt|Hge];
    cbn [negb]; unfold select_count in *; try lia; try discriminate.
  destruct (sample_2_run (chromosomes p) w Hlen) as (r & w1 & Hr).
  rewrite (mbind_run _ _ _ _ _ Hr).
  apply sample_2_inv in Hr as (i & j & a & b & -> & _ & Ha & Hb & _).
  rewrite (mbind_lift _ a) by reflexivity.
  rewrite (mbind_lift _ b) by reflexivity.
  destruct (fitness a) as [fa|] eqn:Hfa.
  - destruct (fitness b) as [fb|] eqn:Hfb.
    + rewrite (mbind_lift _ (fa <=? fb)%Z) by done.
      apply IH. rewrite length_app. cbn. lia.
    + rewrite (mbind_lift_raise _ TypeError) by done.
      intros [= <-]. split; [done|]. exists b.
      split; [by eapply list_elem_of_lookup_2 | done].
  - rewrite (mbind_lift_raise _ TypeError) by done.
    intros [= <-]. split; [done|]. exists a.
    split; [by eapply list_elem_of_lookup_2 | done].
Qed.

(** X15: [selection] on a population of fewer than two chromosomes raises
    ValueError (from [random.sample]); on a larger population in which
    every chromosome has its fitness it returns two winners; and it fails
    in no other way than by ValueError on a population that small or by
    TypeError on a population with a chromosome without fitness. *)
Theorem selection_outcomes (g : Genetic) (w : World) :
  (length (chromosomes (population g)) < 2 →
   selection g w = Raise ValueError) ∧
  (2 ≤ length (chromosomes (population g)) →
   Forall (λ c, is_Some (fitness c)) (chromosomes (population g)) →
   ∃ s1 s2 w', selection g w = Ok ([s1; s2], w')) ∧
  (∀ e, selection g w = Raise e →
     (e = ValueError ∧ length (chromosomes (population g)) < 2) ∨
     (e = TypeError ∧ 2 ≤ length (chromosomes (population g)) ∧
      ∃ c, c ∈ chromosomes (population g) ∧ fitness c = None)).
Proof.
  assert (Hshort : length (chromosomes (population g)) < 2 →
                   selection g w = Raise ValueError).
  { intros Hlen. unfold selection. apply mbind_raise.
    cbn. apply mbind_raise. by apply sample_2_raise. }
  split; [exact Hshort|]. split.
  - intros Hlen Hall.
    destruct (selection_run g w Hlen Hall) as (selected & w' & Hrun).
    destruct (selection_inv _ _ _ _ Hrun) as (s1 & s2 & -> & _).
    by exists s1, s2, w'.
  - intros e Hrun.
    destruct (decide (length (chromosomes (population g)) < 2)) as [Hlt|Hge].
    { rewrite (Hshort Hlt) in Hrun. injection Hrun as <-. by left. }
    right. unfold selection in Hrun.
    destruct (selection_loop (population g) select_count [] w)
      as [[sel w1]|e'] eqn:Hloop.
    + rewrite (mbind_run _ _ _ _ _ Hloop) in Hrun. discriminate.
    + rewrite (mbind_raise _ _ _ _ Hloop) in Hrun. injection Hrun as <-.
      apply selection_loop_raise in Hloop as [-> Hnone];
        [|lia|unfold select_count; cbn; lia].
      split; [done|]. split; [lia | done].
Qed.

(** A tournament winner met a rival at another position that is not
    better: a chromosome that is strictly worse than the chromosomes at
    all other positions wins no tournament. *)
Lemma strictly_worst_loses (pop : list Chromosome) (i : nat) (c : Chromosome) :
  pop !! i = Some c →
  (∀ j c' f f', j ≠ i → pop !! j = Some c' →
                fitness c = Some f → fitness c' = Some f' → (f' < f)%Z) →
  ¬ tournament_winner pop c.
Proof.
  intros Hi Hworst (i' & j' & rival & fs & fr & Hne & Hs & Hr & Hfs & Hfr & Hle).
  destruct (decide (j' = i)) as [->|Hj].
  - assert (rival = c) as -> by congruence.
    assert (fr = fs) as -> by congruence.
    pose proof (Hworst i' c fs fs Hne Hs Hfs Hfs). lia.
  - pose proof (Hworst j' rival fs fr Hj Hr Hfs Hfr). lia.
Qed.

(** X16: [selection] never returns a chromosome that is strictly worse
    than the chromosomes at all other positions of the population: the
    single worst chromosome is never a parent. *)
Theorem selection_never_returns_strictly_worst (g : Genetic) (w w' : World)
    (selected : list Chromosome) (i : nat) (c : Chromosome) :
  selection g w = Ok (selected, w') →
  chromosomes (population g) !! i = Some c →
  (∀ j c' f f', j ≠ i → chromosomes (population g) !! j = Some c' →
                fitness c = Some f → fitness c' = Some f' → (f' < f)%Z) →
  c ∉ selected.
Proof.
  intros Hrun Hi Hworst Hin.
  apply selection_inv in Hrun as (s1 & s2 & -> & H1 & H2 & _).
  apply (strictly_worst_loses _ i c Hi Hworst).
  apply elem_of_cons in Hin as [->|Hin]; [done|].
  apply list_elem_of_singleton in Hin as ->. done.
Qed.

Lemma selection_never_returns_strictly_worst_witness :
  ∃ selected w', selection sample_engine sample_world = Ok (selected, w') ∧
                 chromosome_2 ∉ selected.
Proof.
  destruct (selection sample_engine sample_world) as [[selected w']|e] eqn:Hrun.
  - exists selected, w'. split; [reflexivity|].
    apply (selection_never_returns_strictly_worst sample_engine sample_world
             w' selected 1 chromosome_2 Hrun); [reflexivity|].
    intros j c' f f' Hj Hc' [= <-] Hf'.
    destruct j as [|[|[|[|j]]]]; try done; cbn in Hc';
      injection Hc' as <-; injection Hf' as <-; lia.
  - vm_compute in Hrun. discriminate Hrun.
Defined.

Lemma selection_short (g : Genetic) (w : World) :
  length (chromosomes (population g)) < 2 → selection g w = Raise ValueError.
Proof.
  intros Hlen. unfold selection. apply mbind_raise.
  cbn. apply mbind_raise. by apply sample_2_raise.
Qed.

(** The reproduction loop does not start when the elite already fills the
    population. *)
Lemma reproduction_loop_full (g : Genetic) (fuel : nat)
    (new_population : list Chromosome) (w : World) :
  (pop_size (population g) ≤ Z.of_nat (length new_population))%Z →
  reproduction_loop g fuel new_population w = Ok (new_population, w).
Proof.
  intros Hfull. destruct fuel; cbn [reproduction_loop];
    destruct (Z.ltb_spec (Z.of_nat (length new_population))
                         (pop_size (population g))); done || lia.
Qed.

(** X17: when [elitism_size] is at least the number of chromosomes and
    the population is as large as [pop_size] asks, a generation advance
    breeds nothing.  Whenever it returns, the random source is as it was
    (no random number was drawn, no selection or crossover took place),
    the new population is the old one sorted by fitness, the parameters
    are unchanged, the generation counter went up by one, each history
    grew by one entry, the best fitness and the average of that sorted
    population, and the incumbent is replaced only by a strictly better
    chromosome.  It does return when the population is not empty, every
    fitness is at most 2^1023 in magnitude and the incumbent has a
    fitness. *)
Theorem create_next_generation_all_elite (g : Genetic) (w : World) :
  (pop_size (population g)
   ≤ Z.of_nat (length (chromosomes (population g))))%Z →
  (Z.of_nat (length (chromosomes (population g))) ≤ elitism_size g)%Z →
  (∀ g' w', create_next_generation g w = Ok (g', w') →
     w' = w ∧
     population g'
     = set_chromosomes (population g)
         (foldr insert_by_fitness [] (chromosomes (population g))) ∧
     chromosomes (population g') ≡ₚ chromosomes (population g) ∧
     max_generations g' = max_generations g ∧
     mutation_rate g' = mutation_rate g ∧
     elitism_size g' = elitism_size g ∧
     current_generation g' = (current_generation g + 1)%Z ∧
     ∃ current_best avg fc fb,
       find_best_chromosome (population g') = Ok (Some current_best) ∧
       get_average_fitness (population g') = Ok avg ∧
       fitness current_best = Some fc ∧
       fitness (best_solution g) = Some fb ∧
       best_solution g'
       = (if (fc <? fb)%Z then current_best else best_solution g) ∧
       best_fitness_history g' = best_fitness_history g ++ [Some fc] ∧
       avg_fitness_history g' = avg_fitness_history g ++ [avg]) ∧
  (chromosomes (population g) ≠ [] →
   Forall fitness_in_range (chromosomes (population g)) →
   is_Some (fitness (best_solution g)) →
   ∃ g', create_next_generation g w = Ok (g', w)).
Proof.
  intros Hsize Helite.
  pose proof (sort_by_fitness_Permutation (chromosomes (population g))) as Hperm.
  set (sorted := foldr insert_by_fitness [] (chromosomes (population g))) in *.
  assert (Hprefix : py_prefix sorted (elitism_size g) = sorted).
  { rewrite py_prefix_nonneg by lia. apply take_ge. rewrite Hperm. lia. }
  assert (Hfull : ∀ fuel, reproduction_loop g fuel sorted w = Ok (sorted, w)).
  { intros fuel. apply reproduction_loop_full. rewrite Hperm. lia. }
  split.
  - intros g' w' Hrun. unfold create_next_generation in Hrun.
    apply mbind_ok in Hrun as (sorted' & w1 & Hsorted & Hrun).
    apply lift_ok in Hsorted as [Hsorted ->].
    apply sorted_by_fitness_inv in Hsorted as (Hsorted & _).
    fold sorted in Hsorted. subst sorted'.
    rewrite Hprefix, (mbind_run _ _ _ _ _ (Hfull _)) in Hrun.
    apply mbind_ok in Hrun as (best & w3 & Hbest & Hrun).
    apply lift_ok in Hbest as [Hbest ->].
    destruct best as [current_best|]; [|discriminate].
    apply mbind_ok in Hrun as (better & w4 & Hbetter & Hrun).
    apply lift_ok in Hbetter as [Hbetter ->].
    apply mbind_ok in Hrun as (avg & w5 & Havg & Hrun).
    apply lift_ok in Havg as [Havg ->].
    injection Hrun as <- <-.
    unfold py_lt in Hbetter.
    destruct (fitness current_best) as [fc|] eqn:Hfc; [|discriminate].
    destruct (fitness (best_solution g)) as [fb|] eqn:Hfb; [|discriminate].
    injection Hbetter as <-.
    cbn [population chromosomes set_chromosomes max_generations mutation_rate
         elitism_size current_generation best_solution best_fitness_history
         avg_fitness_history].
    do 7 (split; [done|]).
    exists current_best, avg, fc, fb. by rewrite Hfc.
  - intros Hne Hrange [fb Hfb].
    assert (Hall := fitness_in_range_is_Some _ Hrange).
    unfold create_next_generation.
    rewrite (mbind_lift _ _ _ _ (sorted_by_fitness_run _ Hall)).
    fold sorted. rewrite Hprefix, (mbind_run _ _ _ _ _ (Hfull _)).
    assert (Hrange' : Forall fitness_in_range
                        (chromosomes (set_chromosomes (population g) sorted))).
    { cbn. by rewrite Hperm. }
    assert (Hall' := fitness_in_range_is_Some _ Hrange').
    destruct (find_best_chromosome_run (set_chromosomes (population g) sorted))
      as [b Hb]; [|done|].
    { cbn. intros Hnil. rewrite Hnil in Hperm.
      by apply Permutation_nil_l in Hperm. }
    rewrite (mbind_lift _ _ _ _ Hb).
    apply find_best_chromosome_inv in Hb as [Hin _].
    rewrite Forall_forall in Hall'. destruct (Hall' b Hin) as [fc Hfc].
    rewrite (mbind_lift _ (fc <? fb)%Z) by (by rewrite Hfc, Hfb).
    destruct (get_average_fitness_run (set_chromosomes (population g) sorted))
      as [avg Havg]; [done|].
    rewrite (mbind_lift _ _ _ _ Havg). by eexists.
Qed.

Lemma create_next_generation_all_elite_witness :
  ∃ g', create_next_generation
          (mkGenetic sample_population 3 (1 # 10)%Q 4 0 chromosome_1
                     [Some 25%Z] [(113 # 4)%Q]) sample_world
        = Ok (g', sample_world) ∧
        population g'
        = set_chromosomes sample_population
            (foldr insert_by_fitness [] (chromosomes sample_population)) ∧
        current_generation g' = (0 + 1)%Z ∧
        length (best_fitness_history g') = 2 ∧
        length (avg_fitness_history g') = 2.
Proof.
  destruct (create_next_generation_all_elite
              (mkGenetic sample_population 3 (1 # 10)%Q 4 0 chromosome_1
                         [Some 25%Z] [(113 # 4)%Q]) sample_world)
    as [Hstep Hrun]; [cbn; lia | cbn; lia |].
  destruct Hrun as [g' Hg'].
  - discriminate.
  - unfold sample_population. cbn [population chromosomes].
    repeat (apply Forall_cons; split); try apply Forall_nil;
      first [exact I | eexists; split; [reflexivity | vm_compute; discriminate] ].
  - by eexists.
  - exists g'. split; [exact Hg'|].
    destruct (Hstep g' sample_world Hg')
      as (_ & Hpop & _ & _ & _ & _ & Hgen & cb & avg & fc & fb & _ & _ & _ & _
          & _ & Hbest & Havg).
    split; [exact Hpop|]. split; [exact Hgen|].
    rewrite Hbest, Havg. split; reflexivity.
Defined.

(** X18: an engine over fewer than two chromosomes with [elitism_size] 0
    and a positive [pop_size] cannot advance: the first selection raises
    ValueError, and so does a run of one generation or more. *)
Theorem lone_chromosome_cannot_advance (g : Genetic) (w : World) :
  length (chromosomes (population g)) < 2 →
  elitism_size g = 0%Z → (0 < pop_size (population g))%Z →
  create_next_generation g w = Raise ValueError ∧
  ((1 ≤ max_generations g)%Z → run false g w = Raise ValueError).
Proof.
  intros Hlen Helite Hsize.
  assert (Hstep : ∀ w0, create_next_generation g w0 = Raise ValueError).
  { intros w0. unfold create_next_generation.
    assert (Hsorted : sorted_by_fitness (chromosomes (population g))
                      = Ok (foldr insert_by_fitness []
                                  (chromosomes (population g)))).
    { unfold sorted_by_fitness.
      destruct (Nat.leb_spec 2 (length (chromosomes (population g))));
        [lia | done]. }
    rewrite (mbind_lift _ _ _ _ Hsorted). rewrite Helite.
    apply mbind_raise.
    destruct (Z.to_nat (pop_size (population g))) as [|fuel] eqn:Hfuel; [lia|].
    replace (py_prefix (foldr insert_by_fitness [] (chromosomes (population g)))
                       0) with (@nil Chromosome) by done.
    cbn [reproduction_loop length].
    destruct (Z.ltb_spec (Z.of_nat 0) (pop_size (population g))); [|lia].
    cbn [negb]. apply mbind_raise. unfold reproduce. apply mbind_raise.
    by apply selection_short. }
  split; [apply Hstep|].
  intros HG. unfold run. rewrite (mbind_lift _ tt) by done.
  apply mbind_raise.
  destruct (Z.to_nat (max_generations g)) as [|count] eqn:Hcount; [lia|].
  cbn [evolve]. apply mbind_raise. apply Hstep.
Qed.

Lemma lone_chromosome_cannot_advance_witness :
  create_next_generation
    (mkGenetic (mkPopulation 1 5 2 sample_matrix [chromosome_1]) 3 (1 # 10)%Q
               0 0 chromosome_1 [Some 25%Z] [(25 # 1)%Q]) sample_world
  = Raise ValueError ∧
  ((1 ≤ 3)%Z →
   run false
     (mkGenetic (mkPopulation 1 5 2 sample_matrix [chromosome_1]) 3 (1 # 10)%Q
                0 0 chromosome_1 [Some 25%Z] [(25 # 1)%Q]) sample_world
   = Raise ValueError).
Proof.
  refine (lone_chromosome_cannot_advance
            (mkGenetic (mkPopulation 1 5 2 sample_matrix [chromosome_1]) 3
                       (1 # 10)%Q 0 0 chromosome_1 [Some 25%Z] [(25 # 1)%Q])
            sample_world _ eq_refl _).
  - cbn. lia.
  - cbn. lia.
Defined.

(* ===================================================================== *)
(** * Invariants of the run (genetic.py) *)
(* ===================================================================== *)

(** What every generation advance keeps, the evolution loop keeps. *)
Lemma evolve_preserves (P : Genetic → Prop) :
  (∀ g g' w w', P g → create_next_generation g w = Ok (g', w') → P g') →
  ∀ verbose count generation g w g' w',
  P g → evolve verbose generation count g w = Ok (g', w') → P g'.
Proof.
  intros Hstep verbose count.
  induction count as [|count IH]; intros generation g w g' w' HP Hrun.
  - by injection Hrun as <- <-.
  - cbn [evolve] in Hrun.
    apply mbind_ok in Hrun as (g1 & w1 & Hg1 & Hrun).
    apply mbind_ok in Hrun as (u & w2 & _ & Hrun).
    eapply IH; [|exact Hrun]. by eapply Hstep.
Qed.

Lemma run_preserves (P : Genetic → Prop) :
  (∀ g g' w w', P g → create_next_generation g w = Ok (g', w') → P g') →
  ∀ verbose g w g' w', P g → run verbose g w = Ok (g', w') → P g'.
Proof.
  intros Hstep verbose g w g' w' HP Hrun. unfold run in Hrun.
  apply mbind_ok in Hrun as (u & w1 & _ & Hrun).
  apply mbind_ok in Hrun as (g1 & w2 & Hevolve & Hrun).
  apply mbind_ok in Hrun as (u' & w3 & _ & Hrun).
  injection Hrun as <- <-.
  by eapply (evolve_preserves P Hstep).
Qed.

Lemma construct_inv (size n m : Z) (dm : list (list Z)) (G : Z) (rate : Q)
    (e : Z) (w w' : World) (g : Genetic) :
  construct size n m dm G rate e w = Ok (g, w') →
  ∃ p w1, Population_init size n m dm w = Ok (p, w1) ∧
          Genetic_init p G rate e = Ok g.
Proof.
  unfold construct. intros Hrun.
  apply mbind_ok in Hrun as (p & w1 & Hp & Hrun).
  apply lift_ok in Hrun as [Hg _]. by exists p, w1.
Qed.

Lemma construct_sound (size n m : Z) (dm : list (list Z)) (G : Z) (rate : Q)
    (e : Z) (w w' : World) (g : Genetic) :
  construct size n m dm G rate e w = Ok (g, w') → sound n m dm g.
Proof.
  intros Hrun. apply construct_inv in Hrun as (p & w1 & Hp & Hg).
  apply Population_init_inv in Hp as (Hpeq & _ & Hall & _).
  apply Genetic_init_inv in Hg as (Hpop & _ & _ & _ & _ & Hbest & _).
  unfold sound. rewrite Hpop.
  split; [by rewrite Hpeq|]. split; [done|].
  rewrite Forall_forall in Hall. destruct (Hall _ Hbest). done.
Qed.

Lemma create_next_generation_sound (n m : Z) (dm : list (list Z))
    (g g' : Genetic) (w w' : World) :
  sound n m dm g → create_next_generation g w = Ok (g', w') → sound n m dm g'.
Proof.
  intros (Hdm & Hall & Hbwf & Hbev) Hrun.
  destruct (create_next_generation_well_formed n m g g' w w' Hrun) as [Hwf _].
  { eapply Forall_impl; [exact Hall|]. by intros c [? _]. }
  apply create_next_generation_inv in Hrun
    as (sorted & extra & cb & avg & fb & fc & Hsorted & Hnew & Hev & _ & Hpop
        & _ & _ & _ & _ & Hcb & _ & _ & _ & Hbest & _).
  apply sorted_by_fitness_inv in Hsorted as (_ & Hperm & _).
  assert (Hdm' : distance_matrix (population g') = dm)
    by (by rewrite Hpop).
  assert (Hall' : Forall (λ c, well_formed n m c ∧ evaluated dm c)
                         (chromosomes (population g'))).
  { apply Forall_forall. intros c Hc. split.
    { rewrite Forall_forall in Hwf. by apply Hwf. }
    rewrite Hnew in Hc. apply elem_of_app in Hc as [Hc|Hc].
    - apply py_prefix_subseteq in Hc. rewrite Hperm in Hc.
      rewrite Forall_forall in Hall. by destruct (Hall c Hc).
    - rewrite Hdm in Hev. rewrite Forall_forall in Hev. by apply Hev. }
  split; [done|]. split; [done|].
  rewrite Hbest. destruct (fc <? fb)%Z; [|done].
  rewrite Forall_forall in Hall'. by destruct (Hall' cb Hcb).
Qed.

(** A permutation chromosome over at least one vehicle serves every
    customer once, on at most [m] routes. *)
Lemma well_formed_routes (n m : Z) (c : Chromosome) :
  (1 ≤ m)%Z → well_formed n m c →
  ∃ routes, get_routes c = Ok routes ∧
            stops routes ≡ₚ seqZ 0 n ∧
            (Z.of_nat (length routes) ≤ m)%Z.
Proof.
  intros Hm Hwf.
  destruct (well_formed_positions n m c Hwf) as (positions & Hgenes & Hperm & _).
  destruct Hwf as (Hn & Hmc & _).
  exists (decode n m positions). split.
  { unfold get_routes. rewrite Hgenes, int_genes_fmap, Hn, Hmc. done. }
  split; [by apply decode_serves_all | by apply decode_at_most_num_vehicles].
Qed.

(** X19: the solution of a run is a solution of the routing problem.
    For an engine built by the two constructors over [n] locations and
    [m >= 1] vehicles, whatever the other parameters are, the chromosome
    that a completed [run] leaves as [best_solution] (the value it
    returns) is a permutation of 0 .. n+m-2, its routes serve every
    customer exactly once on at most [m] routes, and its [fitness] is the
    total distance of these routes under the matrix; the same holds for
    every chromosome of the final population. *)
Theorem run_returns_valid_solution (size n m : Z) (dm : list (list Z))
    (G : Z) (rate : Q) (e : Z) (verbose : bool) (w w1 w2 : World)
    (g g' : Genetic) :
  (1 ≤ m)%Z →
  construct size n m dm G rate e w = Ok (g, w1) →
  run verbose g w1 = Ok (g', w2) →
  Forall (λ c, well_formed n m c ∧ evaluated dm c ∧
               ∃ routes, get_routes c = Ok routes ∧
                         stops routes ≡ₚ seqZ 0 n ∧
                         (Z.of_nat (length routes) ≤ m)%Z)
         (best_solution g' :: chromosomes (population g')).
Proof.
  intros Hm Hconstruct Hrun.
  apply construct_sound in Hconstruct.
  apply (run_preserves (sound n m dm) (create_next_generation_sound n m dm))
    in Hrun; [|done].
  destruct Hrun as (_ & Hall & Hbwf & Hbev).
  constructor.
  - split; [done|]. split; [done|]. by apply well_formed_routes.
  - eapply Forall_impl; [exact Hall|]. intros c [Hwf Hev].
    split; [done|]. split; [done|]. by apply well_formed_routes.
Qed.

Lemma run_returns_valid_solution_witness :
  ∃ g w1 g' w2,
    construct 4 5 2 sample_matrix 3 (1 # 10)%Q 1 sample_world = Ok (g, w1) ∧
    run false g w1 = Ok (g', w2) ∧
    Forall (λ c, well_formed 5 2 c ∧ evaluated sample_matrix c ∧
                 ∃ routes, get_routes c = Ok routes ∧
                           stops routes ≡ₚ seqZ 0 5 ∧
                           (Z.of_nat (length routes) ≤ 2)%Z)
           (best_solution g' :: chromosomes (population g')).
Proof.
  destruct (construct 4 5 2 sample_matrix 3 (1 # 10)%Q 1 sample_world)
    as [[g w1]|err] eqn:Hc; [|vm_compute in Hc; discriminate Hc].
  destruct (run false g w1) as [[g' w2]|err] eqn:Hr.
  - exists g, w1, g', w2. split; [reflexivity|]. split; [exact Hr|].
    apply (run_returns_valid_solution 4 5 2 sample_matrix 3 (1 # 10)%Q 1 false
             sample_world w1 w2 g g'); [lia | exact Hc | exact Hr].
  - exfalso. revert Hr. vm_compute in Hc. injection Hc as <- <-.
    vm_compute. discriminate.
Defined.

Lemma Genetic_init_reads (p : Population) (G : Z) (rate : Q) (e : Z)
    (g : Genetic) :
  Genetic_init p G rate e = Ok g →
  ∃ current_best avg,
    find_best_chromosome p = Ok (Some current_best) ∧
    get_average_fitness p = Ok avg ∧
    g = mkGenetic p G rate e 0 current_best [fitness current_best] [avg].
Proof.
  unfold Genetic_init. intros Hrun.
  apply rbind_ok in Hrun as (best & Hbest & Hrun).
  destruct best as [b|]; [|discriminate].
  apply rbind_ok in Hrun as (avg & Havg & Hrun). injection Hrun as <-.
  by exists b, avg.
Qed.

(** The two entries that a generation advance appends are read off the
    new population. *)
Lemma create_next_generation_reads (g g' : Genetic) (w w' : World) :
  create_next_generation g w = Ok (g', w') →
  ∃ current_best avg,
    find_best_chromosome (population g') = Ok (Some current_best) ∧
    get_average_fitness (population g') = Ok avg ∧
    best_fitness_history g' = best_fitness_history g ++ [fitness current_best] ∧
    avg_fitness_history g' = avg_fitness_history g ++ [avg].
Proof.
  unfold create_next_generation. intros Hrun.
  apply mbind_ok in Hrun as (sorted & w1 & Hsorted & Hrun).
  apply mbind_ok in Hrun as (np & w2 & Hloop & Hrun).
  apply mbind_ok in Hrun as (best & w3 & Hbest & Hrun).
  apply lift_ok in Hbest as [Hbest ->].
  destruct best as [current_best|]; [|discriminate].
  apply mbind_ok in Hrun as (better & w4 & Hbetter & Hrun).
  apply mbind_ok in Hrun as (avg & w5 & Havg & Hrun).
  apply lift_ok in Havg as [Havg ->].
  injection Hrun as <- <-. by exists current_best, avg.
Qed.

Lemma Genetic_init_incumbent (p : Population) (G : Z) (rate : Q) (e : Z)
    (g : Genetic) :
  Genetic_init p G rate e = Ok g → incumbent_is_minimum g.
Proof.
  intros Hinit.
  apply Genetic_init_inv in Hinit as (_ & _ & _ & _ & _ & _ & Hmin & Hhist & _).
  destruct Hmin as (f & Hf & _). exists f. rewrite Hhist, Hf.
  split; [done|]. split; [by left|].
  constructor; [|constructor]. by exists f.
Qed.

Lemma create_next_generation_incumbent (g g' : Genetic) (w w' : World) :
  incumbent_is_minimum g → create_next_generation g w = Ok (g', w') →
  incumbent_is_minimum g'.
Proof.
  intros (f & Hf & Hin & Hall) Hrun.
  apply create_next_generation_inv in Hrun
    as (sorted & extra & cb & avg & fb & fc & _ & _ & _ & _ & _ & _ & _ & _ & _
        & _ & _ & Hfb & Hfc & Hbest & Hhist & _).
  assert (f = fb) as -> by congruence.
  unfold incumbent_is_minimum. rewrite Hbest, Hhist.
  destruct (Z.ltb_spec fc fb) as [Hlt|Hge].
  - exists fc. split; [done|]. split.
    + apply elem_of_app. right. by left.
    + apply Forall_app. split.
      * eapply Forall_impl; [exact Hall|].
        intros h (x & -> & Hx). exists x. split; [done | lia].
      * constructor; [|constructor]. by exists fc.
  - exists fb. split; [done|]. split.
    + apply elem_of_app. by left.
    + apply Forall_app. split; [done|].
      constructor; [|constructor]. by exists fc.
Qed.

(** X20: after a completed run of an engine built by [Genetic.__init__],
    the fitness of [best_solution] is the least value ever appended to
    [best_fitness_history]: it is one of the entries, every entry is a
    number, and none is below it. *)
Theorem incumbent_is_history_minimum (p : Population) (G : Z) (rate : Q)
    (e : Z) (verbose : bool) (g g' : Genetic) (w w' : World) :
  Genetic_init p G rate e = Ok g →
  run verbose g w = Ok (g', w') →
  ∃ f, fitness (best_solution g') = Some f ∧
       Some f ∈ best_fitness_history g' ∧
       ∀ h, h ∈ best_fitness_history g' → ∃ x, h = Some x ∧ (f ≤ x)%Z.
Proof.
  intros Hinit Hrun. apply Genetic_init_incumbent in Hinit.
  apply (run_preserves incumbent_is_minimum create_next_generation_incumbent)
    in Hrun; [|done].
  destruct Hrun as (f & Hf & Hin & Hall). exists f.
  split; [done|]. split; [done|]. by apply Forall_forall.
Qed.

Lemma incumbent_is_history_minimum_witness :
  ∃ g' w', run false sample_engine sample_world = Ok (g', w') ∧
  ∃ f, fitness (best_solution g') = Some f ∧
       Some f ∈ best_fitness_history g' ∧
       ∀ h, h ∈ best_fitness_history g' → ∃ x, h = Some x ∧ (f ≤ x)%Z.
Proof.
  destruct (run false sample_engine sample_world) as [[g' w']|err] eqn:Hr.
  - exists g', w'. split; [reflexivity|].
    apply (incumbent_is_history_minimum sample_population 3 (1 # 10)%Q 1 false
             sample_engine g' sample_world w'); [reflexivity | exact Hr].
  - vm_compute in Hr. discriminate Hr.
Defined.

Lemma Genetic_init_coherent (p : Population) (G : Z) (rate : Q) (e : Z)
    (g : Genetic) :
  Genetic_init p G rate e = Ok g → histories_coherent g.
Proof.
  intros Hinit.
  apply Genetic_init_reads in Hinit as (cb & avg & Hcb & Havg & ->).
  unfold histories_coherent.
  cbn [best_fitness_history avg_fitness_history population].
  destruct (average_at_least_best p cb avg Hcb Havg) as (fb & Hfb & Hle).
  split.
  - constructor; [|constructor]. by exists fb.
  - by exists cb, avg.
Qed.

Lemma create_next_generation_coherent (g g' : Genetic) (w w' : World) :
  histories_coherent g → create_next_generation g w = Ok (g', w') →
  histories_coherent g'.
Proof.
  intros [Hall _] Hrun.
  apply create_next_generation_reads in Hrun
    as (cb & avg & Hcb & Havg & Hbest & Havgs).
  destruct (average_at_least_best _ cb avg Hcb Havg) as (fb & Hfb & Hle).
  unfold histories_coherent. rewrite Hbest, Havgs. split.
  - apply Forall2_app; [done|]. constructor; [|constructor]. by exists fb.
  - exists cb, avg. by rewrite !last_snoc.
Qed.

(** X21: after a completed run of an engine built by [Genetic.__init__]
    the two histories go together: they have the same length, entry by
    entry the average is at least the best value whenever the best value
    is an integer that a float holds exactly (at most 2^53 in magnitude),
    and the last entries of the two histories are the fitness of the
    chromosome that [find_best_chromosome] returns for the final
    population and the average that [get_average_fitness] returns for
    it. *)
Theorem history_average_at_least_best (p : Population) (G : Z) (rate : Q)
    (e : Z) (verbose : bool) (g g' : Genetic) (w w' : World) :
  Genetic_init p G rate e = Ok g →
  run verbose g w = Ok (g', w') →
  length (best_fitness_history g') = length (avg_fitness_history g') ∧
  Forall2 (λ b a, ∃ x, b = Some x ∧ (holds_exactly x → (inject_Z x <= a)%Q))
          (best_fitness_history g') (avg_fitness_history g') ∧
  ∃ current_best avg,
    find_best_chromosome (population g') = Ok (Some current_best) ∧
    get_average_fitness (population g') = Ok avg ∧
    last (best_fitness_history g') = Some (fitness current_best) ∧
    last (avg_fitness_history g') = Some avg.
Proof.
  intros Hinit Hrun. apply Genetic_init_coherent in Hinit.
  apply (run_preserves histories_coherent create_next_generation_coherent)
    in Hrun; [|done].
  destruct Hrun as (Hall & cb & avg & Hcb & Havg & Hlast & Hlast').
  split; [by eapply Forall2_length|]. split; [done|]. by exists cb, avg.
Qed.

Lemma history_average_at_least_best_witness :
  ∃ g' w', run false sample_engine sample_world = Ok (g', w') ∧
  length (best_fitness_history g') = length (avg_fitness_history g') ∧
  Forall2 (λ b a, ∃ x, b = Some x ∧ (holds_exactly x → (inject_Z x <= a)%Q))
          (best_fitness_history g') (avg_fitness_history g') ∧
  ∃ current_best avg,
    find_best_chromosome (population g') = Ok (Some current_best) ∧
    get_average_fitness (population g') = Ok avg ∧
    last (best_fitness_history g') = Some (fitness current_best) ∧
    last (avg_fitness_history g') = Some avg.
Proof.
  destruct (run false sample_engine sample_world) as [[g' w']|err] eqn:Hr.
  - exists g', w'. split; [reflexivity|].
    apply (history_average_at_least_best sample_population 3 (1 # 10)%Q 1
             false sample_engine g' sample_world w'); [reflexivity | exact Hr].
  - vm_compute in Hr. discriminate Hr.
Defined.

Lemma generations_same_parameters (k : nat) (g g' : Genetic) :
  generations k g g' → same_parameters k g g'.
Proof.
  induction 1 as [g|k g g1 g' Hstep _ IH].
  - unfold same_parameters. repeat split; try done. lia.
  - destruct Hstep as (sorted & extra & cb & avg & fb & fc & _ & _ & _ & _
                       & Hpop & HG & Hrate & He & Hgen & _).
    destruct IH as (Hgen' & HG' & Hrate' & He' & Hsize' & Hn' & Hm' & Hdm').
    unfold same_parameters.
    rewrite Hgen', HG', Hrate', He', Hsize', Hn', Hm', Hdm', Hgen, HG, Hrate,
      He, Hpop.
    cbn [set_chromosomes pop_size pop_num_locations pop_num_vehicles
         distance_matrix].
    repeat split; try done. lia.
Qed.

(** X22: after a completed run of an engine built by [Genetic.__init__]
    with [max_generations = G], [get_progress] returns: it reports
    [current_generation] as [max(0, G)], [max_generations] as [G], and an
    average fitness that is the last entry of the history of averages.
    The run changed none of the parameters of the engine or of its
    population. *)
Theorem progress_after_run (p : Population) (G : Z) (rate : Q) (e : Z)
    (verbose : bool) (g g' : Genetic) (w w' : World) :
  Genetic_init p G rate e = Ok g →
  run verbose g w = Ok (g', w') →
  ∃ pr, get_progress g' = Ok pr ∧
        pr_current_generation pr = Z.max 0 G ∧
        pr_max_generations pr = G ∧
        pr_best_fitness pr = fitness (best_solution g') ∧
        last (pr_avg_fitness_history pr) = Some (pr_average_fitness pr) ∧
        mutation_rate g' = rate ∧ elitism_size g' = e ∧
        pop_size (population g') = pop_size p ∧
        distance_matrix (population g') = distance_matrix p.
Proof.
  intros Hinit Hrun.
  assert (Hcoh := Genetic_init_coherent _ _ _ _ _ Hinit).
  apply Genetic_init_inv in Hinit as (Hp & HG & Hrate & He & Hgen & _).
  assert (Hpar := generations_same_parameters _ _ _ (run_inv _ _ _ _ _ Hrun)).
  apply (run_preserves histories_coherent create_next_generation_coherent)
    in Hrun; [|done].
  destruct Hrun as (_ & cb & avg & _ & Havg & _ & Hlast).
  destruct Hpar as (Hgen' & HG' & Hrate' & He' & Hsize' & _ & _ & Hdm').
  unfold get_progress. rewrite Havg. eexists. split; [reflexivity|].
  cbn [pr_current_generation pr_max_generations pr_best_fitness
       pr_average_fitness pr_avg_fitness_history].
  rewrite Hgen', HG', Hrate', He', Hsize', Hdm', Hgen, HG, Hrate, He, Hp.
  repeat split; try done. lia.
Qed.

Lemma progress_after_run_witness :
  ∃ g' w', run false sample_engine sample_world = Ok (g', w') ∧
  ∃ pr, get_progress g' = Ok pr ∧
        pr_current_generation pr = Z.max 0 3 ∧
        pr_max_generations pr = 3%Z ∧
        pr_best_fitness pr = fitness (best_solution g') ∧
        last (pr_avg_fitness_history pr) = Some (pr_average_fitness pr) ∧
        mutation_rate g' = (1 # 10)%Q ∧ elitism_size g' = 1%Z ∧
        pop_size (population g') = pop_size sample_population ∧
        distance_matrix (population g') = distance_matrix sample_population.
Proof.
  destruct (run false sample_engine sample_world) as [[g' w']|err] eqn:Hr.
  - exists g', w'. split; [reflexivity|].
    apply (progress_after_run sample_population 3 (1 # 10)%Q 1 false
             sample_engine g' sample_world w'); [reflexivity | exact Hr].
  - vm_compute in Hr. discriminate Hr.
Defined.

Lemma evolve_quiet (count : nat) : ∀ generation g w g' w',
  evolve true generation count g w = Ok (g', w') →
  evolve false generation count g w = Ok (g', w').
Proof.
  induction count as [|count IH]; intros generation g w g' w' Hrun; [done|].
  cbn [evolve] in *.
  apply mbind_ok in Hrun as (g1 & w1 & Hg1 & Hrun).
  apply mbind_ok in Hrun as (u & w2 & Hu & Hrun).
  apply lift_ok in Hu as [_ ->].
  rewrite (mbind_run _ _ _ _ _ Hg1). cbn [andb].
  rewrite (mbind_lift _ tt) by done. by apply IH.
Qed.

(** X23: printing changes nothing.  Whenever [run(verbose=True)] returns,
    [run(verbose=False)] from the same state of the random generator
    returns the same engine and leaves the generator in the same state:
    the verbose run consumes no randomness of its own and only adds ways
    to fail. *)
Theorem verbose_changes_nothing (g g' : Genetic) (w w' : World) :
  run true g w = Ok (g', w') → run false g w = Ok (g', w').
Proof.
  unfold run. intros Hrun.
  apply mbind_ok in Hrun as (u & w1 & Hu & Hrun).
  apply lift_ok in Hu as [_ ->].
  apply mbind_ok in Hrun as (g1 & w2 & Hevolve & Hrun).
  apply mbind_ok in Hrun as (u' & w3 & Hu' & Hrun).
  apply lift_ok in Hu' as [_ ->].
  injection Hrun as <- <-.
  rewrite (mbind_lift _ tt) by done.
  rewrite (mbind_run _ _ _ _ _ (evolve_quiet _ _ _ _ _ _ Hevolve)).
  by rewrite (mbind_lift _ tt).
Qed.

Lemma verbose_changes_nothing_witness :
  ∃ g' w', run true sample_engine sample_world = Ok (g', w') ∧
           run false sample_engine sample_world = Ok (g', w').
Proof.
  destruct (run true sample_engine sample_world) as [[g' w']|err] eqn:Hr.
  - exists g', w'. split; [reflexivity|].
    exact (verbose_changes_nothing sample_engine g' sample_world w' Hr).
  - vm_compute in Hr. discriminate Hr.
Defined.

(** A verbose run of an engine in working order whose first recorded
    best fitness is 0 evolves and then fails in the summary. *)
Lemma run_verbose_raise (n m : Z) (g : Genetic) (w : World) :
  healthy n m g →
  head (best_fitness_history g) = Some (Some 0%Z) →
  run true g w = Raise ZeroDivisionError.
Proof.
  intros Hh Hhead. unfold run.
  assert (Hfit : fitness_in_range (best_solution g)) by apply Hh.
  destruct Hfit as (fb & Hfb & Hrange).
  destruct (py_float_safe fb Hrange) as [q Hq].
  rewrite (mbind_lift _ tt) by (by rewrite Hfb; cbn [format_2f]; rewrite Hq).
  destruct (evolve_run n m true (Z.to_nat (max_generations g)) 1 g w Hh)
    as (g' & w' & Hevolve & Hh').
  rewrite (mbind_run _ _ _ _ _ Hevolve).
  apply mbind_lift_raise.
  apply evolve_inv, generations_histories in Hevolve
    as (later & _ & Hhist & _).
  assert (Hfit' : fitness_in_range (best_solution g')) by apply Hh'.
  destruct Hfit' as (fb' & Hfb' & _).
  unfold summary. rewrite Hfb', Hhist.
  destruct (best_fitness_history g) as [|h rest]; [discriminate|].
  injection Hhead as ->. done.
Qed.

(** With another first recorded best fitness, it returns what the quiet
    run returns. *)
Lemma run_verbose_run (n m : Z) (g : Genetic) (w : World) (f0 : Z) :
  healthy n m g →
  head (best_fitness_history g) = Some (Some f0) →
  f0 ≠ 0%Z → in_float_range f0 →
  ∃ g' w', run true g w = Ok (g', w') ∧ run false g w = Ok (g', w').
Proof.
  intros Hh Hhead Hf0 Hr0. unfold run.
  assert (Hfit : fitness_in_range (best_solution g)) by apply Hh.
  destruct Hfit as (fb & Hfb & Hrange).
  destruct (py_float_safe fb Hrange) as [q Hq].
  rewrite (mbind_lift _ tt) by (by rewrite Hfb; cbn [format_2f]; rewrite Hq).
  rewrite (mbind_lift _ tt) by done.
  destruct (evolve_run n m true (Z.to_nat (max_generations g)) 1 g w Hh)
    as (g' & w' & Hevolve & Hh').
  rewrite (mbind_run _ _ _ _ _ Hevolve).
  rewrite (mbind_run _ _ _ _ _ (evolve_quiet _ _ _ _ _ _ Hevolve)).
  assert (Hsummary : summary g' = Ok tt).
  { apply evolve_inv, generations_histories in Hevolve
      as (later & _ & Hhist & _).
    assert (Hfit' : fitness_in_range (best_solution g')) by apply Hh'.
    destruct Hfit' as (fb' & Hfb' & Hrange').
    unfold summary. rewrite Hfb', Hhist.
    destruct (best_fitness_history g) as [|h rest]; [discriminate|].
    injection Hhead as ->. cbn [app].
    destruct (py_true_div_safe fb' f0 Hf0) as [q1 ->].
    { unfold in_float_range in Hrange'.
      assert (0 ≤ float_safe_bound)%Z by (unfold float_safe_bound; lia). nia. }
    destruct (py_float_safe f0 Hr0) as [q2 ->].
    by destruct (py_float_safe fb' Hrange') as [q3 ->]. }
  exists g', w'. by rewrite !(mbind_lift _ tt).
Qed.

(** X24: the summary that a verbose run prints divides by the first entry
    of [best_fitness_history].  On an engine in working order (two genes
    or more per chromosome, two chromosomes or more, each a permutation
    with its fitness, over a matrix for the depot and all locations whose
    entries are small enough for every fitness to convert to a float)
    whose first recorded best fitness is 0, [run(verbose=True)] evolves
    all its generations and then raises ZeroDivisionError, while
    [run(verbose=False)] returns. *)
Theorem run_verbose_zero_division (n m : Z) (g : Genetic) (w : World) :
  healthy n m g →
  head (best_fitness_history g) = Some (Some 0%Z) →
  run true g w = Raise ZeroDivisionError ∧
  ∃ g' w', run false g w = Ok (g', w').
Proof.
  intros Hh Hhead. split; [by eapply run_verbose_raise|].
  destruct (run_quiet_run n m g w Hh) as (g' & w' & Hrun & _).
  by exists g', w'.
Qed.

Lemma run_verbose_zero_division_witness :
  ∃ g w1, construct 2 0 3 [[0%Z]] 1 (1 # 10)%Q 1 sample_world = Ok (g, w1) ∧
          run true g w1 = Raise ZeroDivisionError ∧
          ∃ g' w', run false g w1 = Ok (g', w').
Proof.
  destruct (construct_healthy 2 0 3 [[0%Z]] 1 (1 # 10)%Q 1 sample_world)
    as (g & w1 & Hc & Hh); [lia | lia | | |].
  { intros i j Hi Hj. assert (i = 0%Z) as -> by lia.
    assert (j = 0%Z) as -> by lia. by eexists. }
  { unfold small_matrix, float_safe_bound.
    repeat (apply Forall_cons; split); try apply Forall_nil; lia. }
  exists g, w1. split; [exact Hc|].
  apply (run_verbose_zero_division 0 3 g w1 Hh).
  vm_compute in Hc. injection Hc as <- <-. reflexivity.
Defined.

(* ===================================================================== *)
(** * The distance matrix (getData.py) *)
(* ===================================================================== *)

Lemma set_entry_ok {D} (dm : list (list D)) (i j : nat) (d : D)
    (row : list D) :
  dm !! i = Some row → j < length row →
  set_entry dm i j d = Ok (<[i := <[j := d]> row]> dm).
Proof.
  intros Hrow Hj. unfold set_entry.
  rewrite (py_index_lookup _ _ _ Hrow). cbn [mbind result_bind].
  rewrite py_store_ok by done. cbn [mbind result_bind].
  apply py_store_ok. by eapply lookup_lt_Some.
Qed.

Section distance_matrix.
Context {L D : Type}.
Variables (zero : D) (geodesic : L → L → result D) (locations : list L).
Hypothesis Htotal :
  ∀ a b, a ∈ locations → b ∈ locations → ∃ d, geodesic a b = Ok d.

Lemma matrix_inv_start :
  matrix_inv zero geodesic locations 0 0
    (replicate (length locations) (replicate (length locations) zero)).
Proof.
  split; [apply length_replicate|].
  intros i' j' Hi Hj. exists (replicate (length locations) zero), zero.
  split; [by apply lookup_replicate_2|].
  split; [apply length_replicate|].
  split; [by apply lookup_replicate_2|].
  destruct (decide _) as [Hdone|_]; [lia | done].
Qed.

Lemma matrix_inv_next_row (i : nat) (dm : list (list D)) :
  matrix_inv zero geodesic locations i (length locations) dm →
  matrix_inv zero geodesic locations (S i) 0 dm.
Proof.
  intros [Hlen Hcells]. split; [done|].
  intros i' j' Hi Hj.
  destruct (Hcells i' j' Hi Hj) as (row & d & Hrow & Hrl & Hd & Hok).
  exists row, d. repeat (split; [done|]).
  destruct (decide (i' < i ∨ i' = i ∧ j' < length locations)),
           (decide (i' < S i ∨ i' = S i ∧ j' < 0)); done || lia.
Qed.

Lemma distance_step_run (i j : nat) (dm : list (list D)) :
  i < length locations → j < length locations →
  matrix_inv zero geodesic locations i j dm →
  ∃ dm', distance_step geodesic locations i j dm = Ok dm' ∧
         matrix_inv zero geodesic locations i (S j) dm'.
Proof.
  intros Hi Hj [Hlen Hcells]. unfold distance_step.
  destruct (Nat.eqb_spec i j) as [->|Hne]; cbn [negb].
  - exists dm. split; [done|]. split; [done|].
    intros i' j' Hi' Hj'.
    destruct (Hcells i' j' Hi' Hj') as (row & d & Hrow & Hrl & Hd & Hok).
    exists row, d. repeat (split; [done|]).
    destruct (decide (i' < j ∨ i' = j ∧ j' < j)) as [Hold|Hold],
             (decide (i' < j ∨ i' = j ∧ j' < S j)) as [Hnew|Hnew];
      try done; try lia.
    assert (i' = j ∧ j' = j) as [-> ->] by lia.
    unfold entry_ok. by rewrite decide_True.
  - destruct (lookup_lt_is_Some_2 locations i Hi) as [a Ha].
    destruct (lookup_lt_is_Some_2 locations j Hj) as [b Hb].
    rewrite (py_index_lookup _ _ _ Ha). cbn [mbind result_bind].
    rewrite (py_index_lookup _ _ _ Hb). cbn [mbind result_bind].
    destruct (Htotal a b) as [d Hd];
      [by eapply list_elem_of_lookup_2 | by eapply list_elem_of_lookup_2 |].
    rewrite Hd. cbn [mbind result_bind].
    destruct (Hcells i j Hi Hj) as (row & d0 & Hrow & Hrl & _).
    rewrite (set_entry_ok dm i j d row Hrow) by lia.
    eexists. split; [done|]. split; [by rewrite length_insert|].
    intros i' j' Hi' Hj'.
    destruct (Hcells i' j' Hi' Hj') as (row' & d' & Hrow' & Hrl' & Hd' & Hok).
    destruct (decide (i' = i)) as [->|Hrow_ne].
    + assert (row' = row) as -> by congruence.
      rewrite list_lookup_insert_eq by lia.
      destruct (decide (j' = j)) as [->|Hcol_ne].
      * exists (<[j := d]> row), d. split; [done|].
        split; [by rewrite length_insert|].
        split; [by rewrite list_lookup_insert_eq by lia|].
        rewrite decide_True by lia. unfold entry_ok.
        rewrite decide_False by done. by exists a, b.
      * exists (<[j := d]> row), d'. split; [done|].
        split; [by rewrite length_insert|].
        split; [by rewrite list_lookup_insert_ne|].
        destruct (decide (i < i ∨ i = i ∧ j' < j)),
                 (decide (i < i ∨ i = i ∧ j' < S j)); done || lia.
    + exists row', d'. rewrite list_lookup_insert_ne by done.
      repeat (split; [done|]).
      destruct (decide (i' < i ∨ i' = i ∧ j' < j)),
               (decide (i' < i ∨ i' = i ∧ j' < S j)); done || lia.
Qed.

Lemma distance_row_run (i : nat) (dm : list (list D)) :
  i < length locations →
  matrix_inv zero geodesic locations i 0 dm →
  ∃ dm', for_range (distance_step geodesic locations i) 0 (length locations) dm
         = Ok dm' ∧
         matrix_inv zero geodesic locations (S i) 0 dm'.
Proof.
  intros Hi Hinv.
  destruct (for_range_inv (distance_step geodesic locations i)
              (matrix_inv zero geodesic locations i)
              (length locations) 0 dm Hinv) as (dm' & Hrun & Hinv').
  - intros j dm0 Hj. apply distance_step_run; lia.
  - exists dm'. split; [done|]. by apply matrix_inv_next_row.
Qed.

(** The two loops fill the matrix cell by cell. *)
Lemma calculate_distance_matrix_run :
  ∃ dm, calculate_distance_matrix zero geodesic locations = Ok dm ∧
        length dm = length locations ∧
        ∀ i j, i < length locations → j < length locations →
          ∃ row d, dm !! i = Some row ∧ length row = length locations ∧
                   row !! j = Some d ∧
                   entry_ok zero geodesic locations i j d.
Proof.
  unfold calculate_distance_matrix. cbn zeta.
  destruct (for_range_inv
    (λ i dm, for_range (distance_step geodesic locations i) 0
                       (length locations) dm)
    (λ i dm, matrix_inv zero geodesic locations i 0 dm)
    (length locations) 0 _ matrix_inv_start) as (dm & Hrun & Hlen & Hcells).
  - intros i dm0 Hi. apply distance_row_run. lia.
  - exists dm. split; [done|]. split; [done|].
    intros i j Hi Hj.
    destruct (Hcells i j Hi Hj) as (row & d & Hrow & Hrl & Hd & Hok).
    exists row, d. repeat (split; [done|]).
    by rewrite decide_True in Hok by lia.
Qed.
End distance_matrix.

(** X25: when the distance of any two of the points can be computed,
    [calculate_distance_matrix] returns a square matrix with one row and
    one column per point, zero on the diagonal, and off the diagonal the
    distance from the point of the row to the point of the column. *)
Theorem calculate_distance_matrix_entries {L D} (zero : D)
    (geodesic : L → L → result D) (locations : list L) :
  (∀ a b, a ∈ locations → b ∈ locations → ∃ d, geodesic a b = Ok d) →
  ∃ dm, calculate_distance_matrix zero geodesic locations = Ok dm ∧
        length dm = length locations ∧
        Forall (λ row, length row = length locations) dm ∧
        ∀ i j a b, locations !! i = Some a → locations !! j = Some b →
          ∃ row d, dm !! i = Some row ∧ row !! j = Some d ∧
                   (i = j → d = zero) ∧ (i ≠ j → geodesic a b = Ok d).
Proof.
  intros Htotal.
  destruct (calculate_distance_matrix_run zero geodesic locations Htotal)
    as (dm & Hrun & Hlen & Hcells).
  exists dm. split; [done|]. split; [done|]. split.
  - apply Forall_forall. intros row [i Hi]%list_elem_of_lookup.
    assert (Hil : i < length locations)
      by (rewrite <- Hlen; by eapply lookup_lt_Some).
    destruct locations as [|a0 rest] eqn:Hloc; [cbn in Hil; lia|].
    destruct (Hcells i 0 Hil ltac:(cbn; lia)) as (row' & d & Hrow' & Hrl & _).
    congruence.
  - intros i j a b Ha Hb.
    destruct (Hcells i j) as (row & d & Hrow & _ & Hd & Hok);
      [by eapply lookup_lt_Some | by eapply lookup_lt_Some |].
    exists row, d. split; [done|]. split; [done|].
    unfold entry_ok in Hok. destruct (decide (i = j)) as [Heq|Hne].
    + split; [done | by intros ?].
    + split; [by intros ?|]. intros _.
      destruct Hok as (a' & b' & Ha' & Hb' & Hd'). congruence.
Qed.

Lemma calculate_distance_matrix_entries_witness :
  ∃ dm, calculate_distance_matrix 0%Z grid_distance sample_locations = Ok dm ∧
        length dm = length sample_locations ∧
        Forall (λ row, length row = length sample_locations) dm ∧
        ∀ i j a b, sample_locations !! i = Some a →
                   sample_locations !! j = Some b →
          ∃ row d, dm !! i = Some row ∧ row !! j = Some d ∧
                   (i = j → d = 0%Z) ∧ (i ≠ j → grid_distance a b = Ok d).
Proof.
  apply (calculate_distance_matrix_entries 0%Z grid_distance sample_locations).
  intros a b _ _. by eexists.
Defined.

Lemma entries_cover (dm : list (list Z)) (k : nat) :
  (∀ i j, i < k → j < k → ∃ row d, dm !! i = Some row ∧ row !! j = Some d) →
  covers dm (Z.of_nat k).
Proof.
  intros Hcells i j Hi Hj.
  destruct (Hcells (Z.to_nat i) (Z.to_nat j)) as (row & d & Hrow & Hd);
    [lia | lia |].
  exists d. unfold matrix_entry.
  rewrite <- (Z2Nat.id i), (py_index_lookup _ _ _ Hrow) by lia.
  cbn [mbind result_bind].
  rewrite <- (Z2Nat.id j) by lia. by apply py_index_lookup.
Qed.

(* ===================================================================== *)
(** * Drawing the routes (utils.py) *)
(* ===================================================================== *)

Lemma route_stops_run {L} (locations : list L) (route : list Z) :
  Forall (λ v, (-1 ≤ v)%Z ∧ (v + 1 < Z.of_nat (length locations))%Z) route →
  ∀ route_points route_debug, ∃ points labels,
    route_stops locations route route_points route_debug
    = Ok (route_points ++ points, route_debug ++ labels) ∧
    Forall2 (λ v p, stop_location locations v = Some p) route points.
Proof.
  induction 1 as [|v route [Hlo Hhi] _ IH]; intros route_points route_debug.
  { exists [], []. rewrite !app_nil_r. split; [done | constructor]. }
  cbn [route_stops].
  assert (Hstop : ∃ p, stop_location locations v = Some p ∧
                       py_index locations (matrix_index v) = Ok p).
  { unfold stop_location.
    assert (Hidx : (0 ≤ matrix_index v < Z.of_nat (length locations))%Z).
    { unfold matrix_index, depot_index. destruct (Z.eqb_spec v (-1)); lia. }
    destruct (lookup_lt_is_Some_2 locations (Z.to_nat (matrix_index v)))
      as [p Hp]; [lia|].
    exists p. split; [done|].
    rewrite <- (Z2Nat.id (matrix_index v)) by lia. by apply py_index_lookup. }
  destruct Hstop as (p & Hp & Hidx).
  unfold matrix_index, depot_index in Hidx.
  destruct (Z.eqb_spec v (-1)) as [->|Hne]; rewrite Hidx;
    cbn [mbind result_bind].
  - destruct (IH (route_points ++ [p]) (route_debug ++ ["D"%string]))
      as (points & labels & Hrun & Hall).
    exists (p :: points), ("D"%string :: labels).
    rewrite Hrun, <- !(assoc (++)). split; [done | by constructor].
  - destruct (IH (route_points ++ [p]) (route_debug ++ [pretty v]))
      as (points & labels & Hrun & Hall).
    exists (p :: points), (pretty v :: labels).
    rewrite Hrun, <- !(assoc (++)). split; [done | by constructor].
Qed.

Lemma draw_route_run {L} (locations : list L) (i : nat) (route : list Z)
    (map_obj : list (PolyLine L)) :
  wrapped (λ v, (0 ≤ v)%Z ∧ (v + 1 < Z.of_nat (length locations))%Z) route →
  ∃ line, draw_route locations i route map_obj = Ok (map_obj ++ [line]) ∧
          colors !! (i `mod` 15) = Some (pl_color line) ∧
          Forall2 (λ v p, stop_location locations v = Some p)
                  route (pl_locations line).
Proof.
  intros (r & -> & Hne & Hr). unfold draw_route.
  assert (Hcolor : ∃ color, colors !! (i `mod` 15) = Some color).
  { apply lookup_lt_is_Some_2. cbn [colors length].
    apply Nat.mod_upper_bound. done. }
  destruct Hcolor as [color Hcolor].
  change (length colors) with 15. rewrite <- Nat2Z.inj_mod.
  rewrite (py_index_lookup _ _ _ Hcolor). cbn [mbind result_bind].
  destruct (route_stops_run locations ([depot_index] ++ r ++ [depot_index]))
    with (route_points := @nil L) (route_debug := @nil string)
    as (points & labels & Hrun & Hall).
  { assert (Hdepot : (-1 ≤ depot_index)%Z ∧
                     (depot_index + 1 < Z.of_nat (length locations))%Z).
    { unfold depot_index. destruct Hr as [|v r [? ?] _]; [done | lia]. }
    apply Forall_app. split; [by constructor|].
    apply Forall_app. split; [|by constructor].
    eapply Forall_impl; [exact Hr|]. intros v [? ?]. lia. }
  rewrite Hrun. cbn [mbind result_bind app].
  assert (Hlen : 2 ≤ length points).
  { apply Forall2_length in Hall. rewrite <- Hall.
    destruct r; [done|]. cbn. rewrite length_app. cbn. lia. }
  destruct (Nat.leb_spec 2 (length points)); [|lia].
  eexists. split; [reflexivity|]. done.
Qed.

(** Wrapped routes over points that exist are all drawn, in order. *)
Lemma draw_routes_from_run {L} (locations : list L)
    (routes : list (list Z)) :
  Forall (wrapped (λ v, (0 ≤ v)%Z ∧ (v + 1 < Z.of_nat (length locations))%Z))
         routes →
  ∀ i map_obj, ∃ lines,
    draw_routes_from locations i routes map_obj = Ok (map_obj ++ lines) ∧
    length lines = length routes ∧
    ∀ k route line, routes !! k = Some route → lines !! k = Some line →
      colors !! ((i + k) `mod` 15) = Some (pl_color line) ∧
      Forall2 (λ v p, stop_location locations v = Some p)
              route (pl_locations line).
Proof.
  induction 1 as [|route routes Hroute _ IH]; intros i map_obj.
  { exists []. rewrite app_nil_r. split; [done|]. split; [done|].
    intros k route line Hk. by rewrite lookup_nil in Hk. }
  cbn [draw_routes_from].
  destruct (draw_route_run locations i route map_obj Hroute)
    as (line & Hline & Hcolor & Hpoints).
  rewrite Hline. cbn [mbind result_bind].
  destruct (IH (S i) (map_obj ++ [line])) as (lines & Hrun & Hlen & Hall).
  exists (line :: lines). rewrite Hrun, <- (assoc (++)).
  split; [done|]. split; [cbn; by rewrite Hlen|].
  intros [|k] route' line' Hk Hl; cbn in Hk, Hl.
  - injection Hk as <-. injection Hl as <-. by rewrite Nat.add_0_r.
  - replace (i + S k) with (S i + k) by lia. by apply Hall.
Qed.

Lemma well_formed_routes_wrapped (n m : Z) (c : Chromosome) :
  well_formed n m c →
  ∃ routes, get_routes c = Ok routes ∧
            Forall (wrapped (λ v, (0 ≤ v)%Z ∧ (v < n)%Z)) routes.
Proof.
  intros Hwf.
  destruct (well_formed_positions n m c Hwf) as (positions & Hgenes & _ & Hpos).
  destruct Hwf as (Hn & Hm & _).
  exists (decode n m positions). split.
  - unfold get_routes. by rewrite Hgenes, int_genes_fmap, Hn, Hm.
  - by apply decode_wrapped.
Qed.

Lemma wrapped_in_range {L} (locations : list L) (n : Z)
    (routes : list (list Z)) :
  (n + 1 ≤ Z.of_nat (length locations))%Z →
  Forall (wrapped (λ v, (0 ≤ v)%Z ∧ (v < n)%Z)) routes →
  Forall (wrapped (λ v, (0 ≤ v)%Z ∧ (v + 1 < Z.of_nat (length locations))%Z))
         routes.
Proof.
  intros Hlen Hall. eapply Forall_impl; [exact Hall|].
  intros route (r & -> & Hne & Hr).
  exists r. split; [done|]. split; [done|].
  eapply Forall_impl; [exact Hr|]. intros v [? ?]. lia.
Qed.

(** X26: the routes of a chromosome whose genes are a permutation of
    0 .. n+m-2 can always be drawn over a list of the depot and at least
    [n] points: [draw_routes] raises nothing and adds exactly one line per
    route, in order; line number [k] has colour [colors[k % 15]], visits
    the points of the stops of its route (the depot being [locations[0]]
    and location [v] being [locations[v + 1]], the indices of the
    distance matrix) and starts and ends at the depot. *)
Theorem draw_routes_of_decoded {L} (n m : Z) (c : Chromosome)
    (locations : list L) (map_obj : list (PolyLine L))
    (routes : list (list Z)) :
  well_formed n m c →
  (n + 1 ≤ Z.of_nat (length locations))%Z →
  get_routes c = Ok routes →
  ∃ lines, draw_routes map_obj locations routes = Ok (map_obj ++ lines) ∧
    length lines = length routes ∧
    ∀ k route line, routes !! k = Some route → lines !! k = Some line →
      colors !! (k `mod` 15) = Some (pl_color line) ∧
      Forall2 (λ v p, stop_location locations v = Some p)
              route (pl_locations line) ∧
      head (pl_locations line) = locations !! 0 ∧
      last (pl_locations line) = locations !! 0.
Proof.
  intros Hwf Hlen Hroutes.
  destruct (well_formed_routes_wrapped n m c Hwf) as (routes' & Hr & Hwrapped).
  rewrite Hroutes in Hr. injection Hr as <-.
  destruct (draw_routes_from_run locations routes
              (wrapped_in_range locations n routes Hlen Hwrapped) 0 map_obj)
    as (lines & Hrun & Hlines & Hall).
  exists lines. split; [done|]. split; [done|].
  intros k route line Hk Hl.
  destruct (Hall k route line Hk Hl) as [Hcolor Hpoints].
  split; [done|]. split; [done|].
  rewrite Forall_forall in Hwrapped.
  destruct (Hwrapped route) as (r & -> & _); [by eapply list_elem_of_lookup_2|].
  apply Forall2_app_inv_l in Hpoints as (p0 & rest & Hp0 & Hrest & ->).
  apply Forall2_app_inv_l in Hrest as (ps & pl & _ & Hpl & ->).
  apply Forall2_cons_inv_l in Hp0 as (d0 & ? & Hd0 & ->%Forall2_nil_inv_l & ->).
  apply Forall2_cons_inv_l in Hpl as (d1 & ? & Hd1 & ->%Forall2_nil_inv_l & ->).
  unfold stop_location in Hd0, Hd1. cbn in Hd0, Hd1.
  split; [by cbn|]. by rewrite (assoc (++)), last_snoc.
Qed.

Lemma draw_routes_of_decoded_witness :
  ∃ lines, draw_routes [] sample_locations
                       [[-1; 0; 1; -1]; [-1; 2; 3; 4; -1]]%Z
           = Ok ([] ++ lines) ∧
    length lines = 2 ∧
    ∀ k route line,
      [[-1; 0; 1; -1]; [-1; 2; 3; 4; -1]]%Z !! k = Some route →
      lines !! k = Some line →
      colors !! (k `mod` 15) = Some (pl_color line) ∧
      Forall2 (λ v p, stop_location sample_locations v = Some p)
              route (pl_locations line) ∧
      head (pl_locations line) = sample_locations !! 0 ∧
      last (pl_locations line) = sample_locations !! 0.
Proof.
  apply (draw_routes_of_decoded 5 2 scenario_chromosome sample_locations []);
    [|cbn; lia | reflexivity].
  split; [reflexivity|]. split; [reflexivity|]. unfold permutation_genes.
  apply (bool_decide_unpack _). vm_compute. exact I.
Defined.

(* ===================================================================== *)
(** * From the points to the drawing (main.py) *)
(* ===================================================================== *)

(** A matrix built from small distances is small. *)
Lemma calculate_distance_matrix_small {L} (geodesic : L → L → result Z)
    (locations : list L) (n m : Z) (dm : list (list Z)) :
  (∀ a b d, a ∈ locations → b ∈ locations → geodesic a b = Ok d →
            (Z.abs d * (2 * Z.max 0 (n + m - 1)) ≤ float_safe_bound)%Z) →
  length dm = length locations →
  (∀ i j, i < length locations → j < length locations →
     ∃ row d, dm !! i = Some row ∧ length row = length locations ∧
              row !! j = Some d ∧ entry_ok 0%Z geodesic locations i j d) →
  small_matrix n m dm.
Proof.
  intros Hsmall Hlen Hcells. unfold small_matrix.
  apply Forall_forall. intros row [i Hi]%list_elem_of_lookup.
  assert (Hil : i < length locations)
    by (rewrite <- Hlen; by eapply lookup_lt_Some).
  apply Forall_forall. intros d [j Hj]%list_elem_of_lookup.
  assert (Hjl : j < length locations).
  { destruct (Hcells i i Hil Hil) as (row' & d' & Hrow' & Hrl & _).
    assert (row' = row) as -> by congruence.
    rewrite <- Hrl. by eapply lookup_lt_Some. }
  destruct (Hcells i j Hil Hjl) as (row' & d' & Hrow' & _ & Hd' & Hok).
  assert (row' = row) as -> by congruence.
  assert (d' = d) as -> by congruence.
  unfold entry_ok in Hok. destruct (decide (i = j)) as [_|_].
  - subst d. unfold float_safe_bound. cbn. lia.
  - destruct Hok as (a & b & Ha & Hb & Hd).
    apply (Hsmall a b d); [| |done]; apply list_elem_of_lookup; eauto.
Qed.

(** X27: the stages that [main] chains fit together.  For a depot and
    [n] points whose pairwise distances can be computed and are small
    enough for every fitness to convert to a float, with at least two
    genes per chromosome and a population of two or more, every stage
    returns: the matrix is built, [Population] and [Genetic] are
    constructed over it with [num_locations = n], the run completes, the
    best solution decodes to routes, and [draw_routes] draws each of them
    over the same points; no stage raises IndexError for want of a row, a
    column or a point.  The run is the quiet one; the verbose run that
    [main] calls returns the same engine unless the best fitness of the
    initial population is 0, and with that fitness it raises
    ZeroDivisionError in its summary. *)
Theorem pipeline_runs {L} (geodesic : L → L → result Z) (locations : list L)
    (size n m G : Z) (rate : Q) (e : Z) (w : World) :
  Z.of_nat (length locations) = (n + 1)%Z →
  (∀ a b, a ∈ locations → b ∈ locations → ∃ d, geodesic a b = Ok d) →
  (∀ a b d, a ∈ locations → b ∈ locations → geodesic a b = Ok d →
            (Z.abs d * (2 * Z.max 0 (n + m - 1)) ≤ float_safe_bound)%Z) →
  (2 ≤ n + m - 1)%Z → (2 ≤ size)%Z →
  ∃ dm g w1 g' w2 routes lines,
    calculate_distance_matrix 0%Z geodesic locations = Ok dm ∧
    construct size n m dm G rate e w = Ok (g, w1) ∧
    run false g w1 = Ok (g', w2) ∧
    (fitness (best_solution g) ≠ Some 0%Z → run true g w1 = Ok (g', w2)) ∧
    (fitness (best_solution g) = Some 0%Z →
     run true g w1 = Raise ZeroDivisionError) ∧
    get_routes (best_solution g') = Ok routes ∧
    draw_routes [] locations routes = Ok lines ∧
    length lines = length routes.
Proof.
  intros Hlen Htotal Hsmall Hgenes Hsize.
  destruct (calculate_distance_matrix_run 0%Z geodesic locations Htotal)
    as (dm & Hdm & Hrows & Hcells).
  assert (Hcov : covers dm (n + 1)).
  { rewrite <- Hlen. apply entries_cover. intros i j Hi Hj.
    destruct (Hcells i j Hi Hj) as (row & d & ? & _ & ? & _). by exists row, d. }
  assert (Hsm : small_matrix n m dm)
    by (by eapply calculate_distance_matrix_small).
  destruct (construct_healthy size n m dm G rate e w Hgenes Hsize Hcov Hsm)
    as (g & w1 & Hg & Hhealthy).
  destruct (run_quiet_run n m g w1 Hhealthy) as (g' & w2 & Hrun & _).
  assert (Hsound : sound n m dm g').
  { apply (run_preserves (sound n m dm) (create_next_generation_sound n m dm)
             false g w1 g' w2); [|done].
    by eapply construct_sound. }
  destruct Hsound as (_ & _ & Hbest & _).
  destruct (well_formed_routes_wrapped n m _ Hbest) as (routes & Hroutes & Hwr).
  destruct (draw_routes_from_run locations routes
              (wrapped_in_range locations n routes ltac:(lia) Hwr) 0 [])
    as (lines & Hdraw & Hlines & _).
  assert (Hhist : best_fitness_history g = [fitness (best_solution g)]).
  { unfold construct in Hg.
    apply mbind_ok in Hg as (p & w0 & _ & Hinit).
    apply lift_ok in Hinit as [Hinit _].
    by apply Genetic_init_inv in Hinit as (_ & _ & _ & _ & _ & _ & _ & ? & _). }
  exists dm, g, w1, g', w2, routes, lines.
  do 3 (split; [done|]). split; [|split; [|done] ].
  - intros Hnz.
    assert (Hfit : fitness_in_range (best_solution g)) by apply Hhealthy.
    destruct Hfit as (f0 & Hf0 & Hr0).
    destruct (run_verbose_run n m g w1 f0 Hhealthy) as (g2 & w3 & Hv & Hq);
      [by rewrite Hhist, Hf0 | congruence | done |].
    congruence.
  - intros Hz. apply (run_verbose_raise n m); [done|]. by rewrite Hhist, Hz.
Qed.

Lemma pipeline_runs_witness :
  ∃ dm g w1 g' w2 routes lines,
    calculate_distance_matrix 0%Z grid_distance sample_locations = Ok dm ∧
    construct 4 5 2 dm 3 (1 # 10)%Q 1 sample_world = Ok (g, w1) ∧
    run false g w1 = Ok (g', w2) ∧
    (fitness (best_solution g) ≠ Some 0%Z → run true g w1 = Ok (g', w2)) ∧
    (fitness (best_solution g) = Some 0%Z →
     run true g w1 = Raise ZeroDivisionError) ∧
    get_routes (best_solution g') = Ok routes ∧
    draw_routes [] sample_locations routes = Ok lines ∧
    length lines = length routes.
Proof.
  apply (pipeline_runs grid_distance sample_locations 4 5 2 3 (1 # 10)%Q 1
           sample_world); [reflexivity | | | lia | lia].
  - intros a b _ _. by eexists.
  - intros a b d Ha Hb Hd.
    assert (Hd' : (Z.abs d ≤ 20)%Z).
    { repeat (apply elem_of_cons in Ha as [->|Ha]);
        try (by apply elem_of_nil in Ha);
        repeat (apply elem_of_cons in Hb as [->|Hb]);
        try (by apply elem_of_nil in Hb);
        vm_compute in Hd; injection Hd as <-; vm_compute; discriminate. }
    unfold float_safe_bound. lia.
Defined.

(* ===================================================================== *)
(** * The mutation rate (genetic.py) *)
(* ===================================================================== *)

(** [random.random()] lies in [[0, 1)]. *)
Lemma random_random_range (w w' : World) (r : Q) :
  random_random w = Ok (r, w') → (0 <= r)%Q ∧ (r < 1)%Q.
Proof.
  unfold random_random. intros Hrun.
  apply mbind_ok in Hrun as (d & w1 & _ & Hrun). injection Hrun as <- _.
  pose proof (N.mod_upper_bound d (2 ^ 53)%N ltac:(done)) as Hup.
  unfold Qle, Qlt. cbn [Qnum Qden].
  assert (Hpow : Z.pos (2 ^ 53) = Z.of_N (2 ^ 53)%N) by done.
  rewrite Hpow. clear Hpow. revert Hup.
  generalize (d `mod` 2 ^ 53)%N. generalize (2 ^ 53)%N. intros k x Hup. lia.
Qed.

(** X28: the mutation rate is compared with a number in [[0, 1)].  With
    [mutation_rate <= 0] an offspring enters the next generation with its
    genes as crossover left them; with [mutation_rate >= 1] every
    offspring is mutated, so when its genes are pairwise different it
    enters with two of them exchanged. *)
Theorem mutation_rate_extremes (g : Genetic) (offspring : Chromosome)
    (new_population new_population' : list Chromosome) (w w' : World) :
  add_offspring g offspring new_population w = Ok (new_population', w') →
  ∃ c, new_population' = new_population ++ [c] ∧
       ((mutation_rate g <= 0)%Q → genes c = genes offspring) ∧
       ((1 <= mutation_rate g)%Q → NoDup (genes offspring) →
        genes c ≠ genes offspring ∧ genes c ≡ₚ genes offspring).
Proof.
  unfold add_offspring. intros Hrun.
  apply mbind_ok in Hrun as (r & w1 & Hr & Hrun).
  apply random_random_range in Hr as [Hr0 Hr1].
  apply mbind_ok in Hrun as (o' & w2 & Ho' & Hrun).
  apply mbind_ok in Hrun as ([c t] & w3 & Hc & Hrun).
  apply lift_ok in Hc as [Hc ->]. injection Hrun as <- <-.
  apply calculate_fitness_inv in Hc as [-> _].
  eexists. split; [done|]. cbn [fst genes].
  destruct (Qlt_le_dec r (mutation_rate g)) as [Hlt|Hge].
  - split.
    + intros Hrate. exfalso.
      apply (Qlt_irrefl r). eapply Qlt_le_trans; [exact Hlt|].
      by eapply Qle_trans.
    + intros _ Hnodup. split; [by eapply mutate_changes_genes|].
      by apply mutate_inv in Ho' as (? & _).
  - injection Ho' as <- _. split; [done|].
    intros Hrate _. exfalso.
    apply (Qlt_irrefl r). eapply Qlt_le_trans; [exact Hr1|].
    by eapply Qle_trans.
Qed.

Lemma mutation_rate_extremes_witness :
  ∃ np' w',
    add_offspring
      (mkGenetic sample_population 3 1%Q 1 0 chromosome_1
                 [Some 25%Z] [(113 # 4)%Q]) parent_a [] sample_world
    = Ok (np', w') ∧
    ∃ c, np' = [] ++ [c] ∧
         ((1 <= 0)%Q → genes c = genes parent_a) ∧
         ((1 <= 1)%Q → NoDup (genes parent_a) →
          genes c ≠ genes parent_a ∧ genes c ≡ₚ genes parent_a).
Proof.
  destruct (add_offspring
              (mkGenetic sample_population 3 1%Q 1 0 chromosome_1
                         [Some 25%Z] [(113 # 4)%Q]) parent_a [] sample_world)
    as [[np' w']|err] eqn:Hrun.
  - exists np', w'. split; [reflexivity|].
    exact (mutation_rate_extremes _ parent_a [] np' sample_world w' Hrun).
  - vm_compute in Hrun. discriminate Hrun.
Defined.
